(** * SubtitleRenderer: a shallow embedding of [SubtitleRenderer.cpp]

    The development follows the source file function by function:
    [hex2int], the three tag patterns and [parse_lines], the constructor's
    canvas geometry, both overloads of [make_subtitle_image], and the frame
    life cycle ([prepare], [unprepare], [show_next], [hide]).

    Conventions.
    - A C++ [int] is a [Z]; where the source can leave the 32-bit range the
      wrap-around is written with [wrap32].  [/] and [%] on [int] are
      [Z.quot] and [Z.rem] (truncation toward zero).
    - A [std::string] is a [string] of 8-bit characters.
    - A [float] is an IEEE 754 binary32 number and the [double] literal of
      the constructor a binary64 number, with the correctly rounded
      operations of [SpecFloat] (round to nearest, ties to even); the
      conversion of a [float] to [int] discards the fractional part.
    - The [double]s that cairo reports are idealised as rationals ([Q]);
      their conversion to [int] is truncation toward zero ([Qtrunc]).
    - The text-shaping backend (cairo) and the pattern matcher (PCRE behind
      [CRegExp]) are not part of the file: the first is a record of two
      functions that the layout takes as a parameter, the second is written
      out as a scanner for each of the three patterns that the constructor
      compiles. *)

From Stdlib Require Import ZArith Lia List Bool Ascii String QArith.
From Stdlib Require Import Floats.SpecFloat.
Import ListNotations.

Local Open Scope Z_scope.

(* ================================================================== *)
(** * Part I: the model *)
(* ================================================================== *)

(** ** Machine integers *)

Module Int32.

Definition INT_MIN : Z := - 2 ^ 31.
Definition INT_MAX : Z := 2 ^ 31 - 1.

(** Two's-complement reduction of a mathematical integer to [int]. *)
Definition wrap32 (x : Z) : Z := (x + 2 ^ 31) mod 2 ^ 32 - 2 ^ 31.

Definition in_range (x : Z) : Prop := INT_MIN <= x <= INT_MAX.

(** An [int] converted to [size_t] (32 bits on the target). *)
Definition to_size_t (x : Z) : Z := x mod 2 ^ 32.

End Int32.
Import Int32.

(** Conversion of a [double] to [int]: the fractional part is discarded. *)
Definition Qtrunc (q : Q) : Z := Z.quot (Qnum q) (Zpos (Qden q)).

(** ** Floating point

    [float] is binary32 (24 bits of precision) and [double] is binary64
    (53 bits); both are values of [spec_float], and every operation rounds
    its exact result to the nearest value of its format, ties to even. *)

Definition float : Type := spec_float.
Definition double : Type := spec_float.

Definition signed_mantissa (s : bool) (m : positive) : Z :=
  if s then Zneg m else Zpos m.

(** An [int] converted to [float]. *)
Definition float_of_int (n : Z) : float := binary_normalize 24 128 n 0 false.

(** An [int] converted to [double] (always exact). *)
Definition double_of_int (n : Z) : double := binary_normalize 53 1024 n 0 false.

Definition float_mul (x y : float) : float := SFmul 24 128 x y.
Definition float_div (x y : float) : float := SFdiv 24 128 x y.
Definition double_mul (x y : double) : double := SFmul 53 1024 x y.
Definition double_div (x y : double) : double := SFdiv 53 1024 x y.

(** A [float] promoted to [double] (exact). *)
Definition double_of_float (x : float) : double :=
  match x with
  | S754_finite s m e => binary_normalize 53 1024 (signed_mantissa s m) e s
  | _ => x
  end.

(** A [double] stored in a [float]: rounded to 24 bits. *)
Definition float_of_double (x : double) : float :=
  match x with
  | S754_finite s m e => binary_normalize 24 128 (signed_mantissa s m) e s
  | _ => x
  end.

(** The literal [n/d] written in decimal: the nearest value of the format. *)
Definition float_literal (n d : Z) : float :=
  float_div (float_of_int n) (float_of_int d).

Definition double_literal (n d : Z) : double :=
  double_div (double_of_int n) (double_of_int d).

(** A [float] converted to [int]: the fractional part is discarded.  C++
    leaves the conversion undefined when the result does not fit an [int];
    there the model saturates, and gives 0 for a NaN, as the conversion
    instruction of the ARM targets of the player does. *)
Definition int_of_float (x : float) : Z :=
  match x with
  | S754_zero _ => 0
  | S754_nan => 0
  | S754_infinity s => if s then INT_MIN else INT_MAX
  | S754_finite s m e =>
      let t := if 0 <=? e then Zpos m * 2 ^ e else Zpos m / 2 ^ (- e) in
      Z.max INT_MIN (Z.min INT_MAX (if s then - t else t))
  end.

Arguments float_of_int : simpl never.
Arguments double_of_int : simpl never.
Arguments float_mul : simpl never.
Arguments float_div : simpl never.
Arguments double_mul : simpl never.
Arguments double_div : simpl never.
Arguments double_of_float : simpl never.
Arguments float_of_double : simpl never.
Arguments float_literal : simpl never.
Arguments double_literal : simpl never.
Arguments int_of_float : simpl never.

(** ** Characters and strings *)

Definition code (c : ascii) : Z := Z.of_N (N_of_ascii c).

Definition chr (n : Z) : ascii := ascii_of_N (Z.to_N n).

(** [std::tolower] in the classic locale. *)
Definition tolower (c : ascii) : ascii :=
  if (65 <=? code c) && (code c <=? 90) then chr (code c + 32) else c.

(** [boost::algorithm::to_lower]. *)
Fixpoint to_lower (s : string) : string :=
  match s with
  | EmptyString => EmptyString
  | String c s' => String (tolower c) (to_lower s')
  end.

(** [std::isspace] in the classic locale: space and the controls 9 to 13. *)
Definition isspace (c : ascii) : bool :=
  (code c =? 32) || ((9 <=? code c) && (code c <=? 13)).

Fixpoint trim_left (s : string) : string :=
  match s with
  | EmptyString => EmptyString
  | String c s' => if isspace c then trim_left s' else s
  end.

Fixpoint trim_right (s : string) : string :=
  match s with
  | EmptyString => EmptyString
  | String c s' =>
      match trim_right s' with
      | EmptyString => if isspace c then EmptyString else String c EmptyString
      | r => String c r
      end
  end.

(** [boost::algorithm::trim]. *)
Definition trim (s : string) : string := trim_right (trim_left s).

(** [s.c_str()] as seen by a consumer that stops at the terminator. *)
Fixpoint c_str (s : string) : string :=
  match s with
  | EmptyString => EmptyString
  | String c s' => if code c =? 0 then EmptyString else String c (c_str s')
  end.

Definition strlen (s : string) : Z := Z.of_nat (String.length s).

Fixpoint skipn_string (n : nat) (s : string) : string :=
  match n, s with
  | O, _ => s
  | S n', String _ s' => skipn_string n' s'
  | S _, EmptyString => EmptyString
  end.

Fixpoint firstn_string (n : nat) (s : string) : string :=
  match n, s with
  | S n', String c s' => String c (firstn_string n' s')
  | _, _ => EmptyString
  end.

(** [s.substr(pos, n)] with [int] arguments: both are converted to [size_t],
    so a negative count becomes a huge one and selects the rest of [s].
    (The source never calls it with [pos > s.size()], where C++ throws.) *)
Definition substr (s : string) (pos n : Z) : string :=
  let p := to_size_t pos in
  let k := Z.min (to_size_t n) (strlen s - p) in
  firstn_string (Z.to_nat k) (skipn_string (Z.to_nat p) s).

(** [hex[i]] for a C string: the terminator sits at index [length]. *)
Definition char_at (hex : string) (i : nat) : Z :=
  match String.get i hex with
  | Some c => code c
  | None => 0
  end.

(** ** [SubtitleRenderer::hex2int] *)

(** One iteration of the loop body: [r += (hex[i] - 87) << f] for letters,
    [r += (hex[i] - 48) << f] otherwise. *)
Definition hex2int_body (hex : string) (i : nat) (f r : Z) : Z :=
  if char_at hex i >=? 97
  then wrap32 (r + wrap32 (Z.shiftl (char_at hex i - 87) f))
  else wrap32 (r + wrap32 (Z.shiftl (char_at hex i - 48) f)).

(** [for(int i = 0, f = 20; i < 6; i++, f -= 4)], [n] iterations left. *)
Fixpoint hex2int_loop (n : nat) (hex : string) (i : nat) (f r : Z) : Z :=
  match n with
  | O => r
  | S n' => hex2int_loop n' hex (S i) (f - 4) (hex2int_body hex i f r)
  end.

Definition hex2int (hex : string) : Z := hex2int_loop 6 hex 0 20 0.

(** The character class [[a-f0-9]] of the colour patterns. *)
Definition is_lower_hex (c : ascii) : bool :=
  ((48 <=? code c) && (code c <=? 57)) || ((97 <=? code c) && (code c <=? 102)).

(** *** The arithmetic reading of a hexadecimal string (specification side) *)

Definition hex_digit_value (c : ascii) : Z :=
  if (48 <=? code c) && (code c <=? 57) then code c - 48 else code c - 87.

(** Horner evaluation, most significant digit first. *)
Fixpoint hex_value_from (acc : Z) (s : string) : Z :=
  match s with
  | EmptyString => acc
  | String c s' => hex_value_from (16 * acc + hex_digit_value c) s'
  end.

Definition hex_value (s : string) : Z := hex_value_from 0 s.

(** The [k]-th 4-bit nibble of [n], counted from the most significant of six. *)
Definition nibble (n : Z) (k : nat) : Z :=
  Z.land (Z.shiftr n (20 - 4 * Z.of_nat k)) 15.

Definition hex_digit_char (v : Z) : ascii :=
  if v <? 10 then chr (48 + v) else chr (87 + v).

(** Six-digit lowercase hexadecimal formatting of a 24-bit value. *)
Definition format_hex6 (n : Z) : string :=
  String (hex_digit_char (nibble n 0))
 (String (hex_digit_char (nibble n 1))
 (String (hex_digit_char (nibble n 2))
 (String (hex_digit_char (nibble n 3))
 (String (hex_digit_char (nibble n 4))
 (String (hex_digit_char (nibble n 5)) EmptyString))))).

Definition all_lower_hex (s : string) : bool :=
  forallb is_lower_hex (list_ascii_of_string s).

(** ** The three patterns compiled by the constructor

    [CRegExp] is a thin wrapper over PCRE that the source file only uses:
    [RegFind(str, start)] searches [str] from byte offset [start] and gives
    the offset of the leftmost match, or a negative number when there is
    none; [GetMatch(k)] gives the text of group [k] of the last match.  All
    three objects are created case-insensitive.  Each pattern is small enough
    to be written out as a scanner; the backtracking of a general matcher
    never matters for them, because in every pattern a repeated class is
    followed by a character outside that class. *)

(** Offset of the first occurrence of [c] in [s]. *)
Fixpoint index_of (c : ascii) (s : string) : option nat :=
  match s with
  | EmptyString => None
  | String d s' =>
      if Ascii.eqb d c then Some O else option_map S (index_of c s')
  end.

(** [m_tags]: either [<], any characters other than [>], and [>]; or an
    opening brace followed by a backslash, any characters other than a
    closing brace, and a closing brace.  Anchored at the head of [s]; the
    result is the length of the match. *)
Definition m_tags_at (s : string) : option nat :=
  match s with
  | String "<"%char rest => option_map (fun k => (k + 2)%nat) (index_of ">"%char rest)
  | String "{"%char (String "\"%char rest) =>
      option_map (fun k => (k + 3)%nat) (index_of "}"%char rest)
  | _ => None
  end.

(** Leftmost match of [m_tags] in [s]: offset and length. *)
Fixpoint m_tags_search (s : string) : option (nat * nat) :=
  match m_tags_at s with
  | Some len => Some (O, len)
  | None =>
      match s with
      | EmptyString => None
      | String _ s' =>
          option_map (fun r => (S (fst r), snd r)) (m_tags_search s')
      end
  end.

(** Modelled from the spec: [CRegExp::RegFind] and [CRegExp::GetMatch] are
    declared in utils/RegExp.h, which is not part of the source file.
    [m_tags->RegFind(str, start)] followed by [m_tags->GetMatch(0)]: the
    offset of the match ([-1] when there is none, or when [start] lies
    outside [str]) and the matched text. *)
Definition m_tags_RegFind (str : string) (start : Z) : Z * string :=
  if (start <? 0) || (strlen str <? start) then (-1, EmptyString)
  else
    match m_tags_search (skipn_string (Z.to_nat start) str) with
    | Some (off, len) =>
        (start + Z.of_nat off,
         firstn_string len (skipn_string (Z.to_nat start + off) str))
    | None => (-1, EmptyString)
    end.

(** [c] matches the literal [l] of a case-insensitive pattern. *)
Definition eqb_caseless (c l : ascii) : bool := Ascii.eqb (tolower c) (tolower l).

(** The class [[a-f0-9]] of a case-insensitive pattern. *)
Definition is_hex_caseless (c : ascii) : bool := is_lower_hex (tolower c).

(** Strips the literal [lit] from the head of [s]. *)
Fixpoint strip_literal (lit s : string) : option string :=
  match lit, s with
  | EmptyString, _ => Some s
  | String l lit', String c s' =>
      if eqb_caseless c l then strip_literal lit' s' else None
  | String _ _, EmptyString => None
  end.

(** Longest run [cls*] at the head of [s]: what follows it. *)
Fixpoint skip_class (cls : ascii -> bool) (s : string) : string :=
  match s with
  | String c s' => if cls c then skip_class cls s' else s
  | EmptyString => EmptyString
  end.

(** [[a-f0-9]{n}] at the head of [s]: the digits and what follows them. *)
Fixpoint take_hex (n : nat) (s : string) : option (string * string) :=
  match n with
  | O => Some (EmptyString, s)
  | S n' =>
      match s with
      | String c s' =>
          if is_hex_caseless c
          then option_map (fun r => (String c (fst r), snd r)) (take_hex n' s')
          else None
      | EmptyString => None
      end
  end.

(** The class [[ \t]]. *)
Definition is_blank (c : ascii) : bool := (code c =? 32) || (code c =? 9).

(** The class of the second repetition: blank, tab, double quote (34) and
    apostrophe (39). *)
Definition is_blank_or_quote (c : ascii) : bool :=
  is_blank c || (code c =? 34) || (code c =? 39).

(** [m_font_color_html]: the literal [color], blanks or tabs, [=], then any
    run of blanks, tabs and quote characters, an optional [#] and six
    hexadecimal digits, which are group 1.  Anchored at the head of [s]. *)
Definition m_font_color_html_at (s : string) : option string :=
  match strip_literal "color" s with
  | Some s1 =>
      match skip_class is_blank s1 with
      | String "="%char s2 =>
          let s3 := skip_class is_blank_or_quote s2 in
          let s4 := match s3 with String "#"%char r => r | _ => s3 end in
          option_map fst (take_hex 6 s4)
      | _ => None
      end
  | None => None
  end.

(** Group 1 of the leftmost match of [m_font_color_html] in [s]. *)
Fixpoint m_font_color_html_search (s : string) : option string :=
  match m_font_color_html_at s with
  | Some g => Some g
  | None =>
      match s with
      | EmptyString => None
      | String _ s' => m_font_color_html_search s'
      end
  end.

(** Modelled from the spec: [CRegExp], as for [m_tags_RegFind].
    [m_font_color_html->RegFind(str, start) >= 0], with [GetMatch(1)]. *)
Definition m_font_color_html_RegFind (str : string) (start : Z) : option string :=
  if (start <? 0) || (strlen str <? start) then None
  else m_font_color_html_search (skipn_string (Z.to_nat start) str).

(** The assertion [$]: the end of the subject, or a newline that ends it. *)
Definition at_dollar (s : string) : bool :=
  match s with
  | EmptyString => true
  | String c EmptyString => code c =? 10
  | _ => false
  end.

(** Modelled from the spec: [CRegExp], as for [m_tags_RegFind].
    [m_font_color_curly->RegFind(str, 0) >= 0], with [GetMatch(1)],
    [GetMatch(2)] and [GetMatch(3)].  The pattern: from the start of the
    subject, an opening brace, a backslash, [c&h], three groups of two
    hexadecimal digits, [&], a closing brace, and the end of the subject. *)
Definition m_font_color_curly_RegFind (str : string)
  : option (string * string * string) :=
  match strip_literal "{\c&h" str with
  | Some s1 =>
      match take_hex 2 s1 with
      | Some (g1, s2) =>
          match take_hex 2 s2 with
          | Some (g2, s3) =>
              match take_hex 2 s3 with
              | Some (g3, s4) =>
                  match strip_literal "&}" s4 with
                  | Some s5 => if at_dollar s5 then Some (g1, g2, g3) else None
                  | None => None
                  end
              | None => None
              end
          | None => None
          end
      | None => None
      end
  | None => None
  end.

(** *** The curly colour tag, by its parts (specification side) *)

(** The text of the tag that carries the three byte groups [bb], [gg], [rr]. *)
Definition curly_color_tag (b1 b2 g1 g2 r1 r2 : ascii) : string :=
  String "{" (String "\" (String "c" (String "&" (String "h"
    (String b1 (String b2 (String g1 (String g2 (String r1 (String r2
      (String "&" (String "}" EmptyString)))))))))))).

(** The value of one byte group. *)
Definition byte_value (hi lo : ascii) : Z :=
  16 * hex_digit_value hi + hex_digit_value lo.

(** ** [SubtitleRenderer::parse_lines] *)

(** Modelled from the spec: the constants [NORMAL_FONT], [BOLD_FONT] and
    [ITALIC_FONT] come from SubtitleRenderer.h, which is not part of the
    source file; they are the three font faces of a run. *)
Inductive font_type : Type := NORMAL_FONT | BOLD_FONT | ITALIC_FONT.

(** [cairo_glyph_t]. *)
Record glyph : Type := mk_glyph { g_index : Z; g_x : Q; g_y : Q }.

(** Modelled from the spec: the class [SubtitleText] is declared in
    SubtitleRenderer.h.  A run of text with its font and colour; [glyphs] is
    filled in by the layout. *)
Record SubtitleText : Type := mk_SubtitleText {
  text : string;
  font : font_type;
  color : Z;
  glyphs : list glyph
}.

(** The constructor [SubtitleText(t, f, c)]. *)
Definition new_SubtitleText (t : string) (f : font_type) (c : Z) : SubtitleText :=
  mk_SubtitleText t f c [].

(** The locals [bold], [italic] and [color] of [parse_lines]. *)
Record tag_state : Type := mk_tag_state {
  bold : bool;
  italic : bool;
  cur_color : Z
}.

(** [bool bold = false, italic = false; int color = -1;] *)
Definition initial_tag_state : tag_state := mk_tag_state false false (-1).

(** [italic ? ITALIC_FONT : (bold ? BOLD_FONT : NORMAL_FONT)] *)
Definition font_of (st : tag_state) : font_type :=
  if italic st then ITALIC_FONT else if bold st then BOLD_FONT else NORMAL_FONT.

(** The chain of [if]/[else if] that interprets one lower-cased tag. *)
Definition apply_tag (st : tag_state) (fullTag : string) : tag_state :=
  if String.eqb fullTag "<b>" || String.eqb fullTag "{\b1}" then
    mk_tag_state true (italic st) (cur_color st)
  else if (String.eqb fullTag "</b>" || String.eqb fullTag "{\b0}") && bold st then
    mk_tag_state false (italic st) (cur_color st)
  else if String.eqb fullTag "<i>" || String.eqb fullTag "{\i1}" then
    mk_tag_state (bold st) true (cur_color st)
  else if (String.eqb fullTag "</i>" || String.eqb fullTag "{\i0}") && italic st then
    mk_tag_state (bold st) false (cur_color st)
  else if (String.eqb fullTag "</font>" || String.eqb fullTag "{\c}")
          && negb (cur_color st =? -1) then
    mk_tag_state (bold st) (italic st) (-1)
  else if String.eqb (substr fullTag 0 5) "<font" then
    match m_font_color_html_RegFind (c_str fullTag) 5 with
    | Some g1 => mk_tag_state (bold st) (italic st) (hex2int g1)
    | None => st
    end
  else
    match m_font_color_curly_RegFind (c_str fullTag) with
    | Some (g1, g2, g3) =>
        mk_tag_state (bold st) (italic st) (hex2int (g3 ++ g2 ++ g1))
    | None => st
    end.

(** The [while (pos < line_length)] loop over one trimmed line.  [out] is
    [formatted_lines[i]]; [fuel] bounds the number of iterations and
    [None] means that it ran out. *)
Fixpoint parse_line_loop (fuel : nat) (line : string) (st : tag_state)
    (pos old_pos : Z) (out : list SubtitleText)
  : option (tag_state * list SubtitleText) :=
  match fuel with
  | O => None
  | S fuel' =>
      if pos <? strlen line then
        let (pos1, m) := m_tags_RegFind (c_str line) pos in
        let out1 :=
          if pos1 =? old_pos then out
          else out ++ [new_SubtitleText (substr line old_pos (pos1 - old_pos))
                         (font_of st) (cur_color st)] in
        if pos1 <? 0 then Some (st, out1)
        else
          let fullTag := to_lower m in
          let pos2 := pos1 + strlen fullTag in
          parse_line_loop fuel' line (apply_tag st fullTag) pos2 pos2 out1
      else Some (st, out)
  end.

(** One iteration of the [for] loop over the lines: trim, then scan.  Every
    iteration of the scan that does not leave the loop moves [pos] forward,
    so [length + 1] iterations are enough (lemma [parse_line_loop_total]). *)
Definition parse_line (st : tag_state) (raw : string)
  : tag_state * list SubtitleText :=
  let line := trim raw in
  match parse_line_loop (S (String.length line)) line st 0 0 [] with
  | Some r => r
  | None => (st, [])
  end.

(** The [for] loop: the tag state is carried from one line to the next. *)
Fixpoint parse_text_lines (st : tag_state) (text_lines : list string)
  : list (list SubtitleText) :=
  match text_lines with
  | [] => []
  | raw :: rest =>
      let (st', runs) := parse_line st raw in
      runs :: parse_text_lines st' rest
  end.

(** [formatted_lines] as handed to [make_subtitle_image]. *)
Definition formatted_lines (text_lines : list string) : list (list SubtitleText) :=
  parse_text_lines initial_tag_state text_lines.

(** ** The constructor: canvas geometry *)

(** Modelled from the spec: the data members are declared in
    SubtitleRenderer.h, which is not part of the source file; the sizes and
    margins are [int]s, and [left_aligned_margin] starts at 0.  These are
    the members that the constructor computes and the rest of the file
    reads. *)
Record geometry : Type := mk_geometry {
  m_centered : bool;
  m_ghost_box : bool;
  m_max_lines : Z;
  m_font_size : Z;
  m_padding : Z;
  m_image_width : Z;
  m_image_height : Z;
  left_aligned_margin : Z;
  m_scaled_image_width : Z;
  m_scaled_image_height : Z;
  m_scaled_padding : Z;
  (** the position handed to both [DispmanxLayer]s *)
  left_margin : Z;
  top_margin : Z
}.

(** [int line_height = m_font_size + m_padding;] *)
Definition line_height (font_size padding : Z) : Z := wrap32 (font_size + padding).

(** [(m_max_lines * line_height) + 5], before it is rounded. *)
Definition raw_image_height (max_lines font_size padding : Z) : Z :=
  wrap32 (wrap32 (max_lines * line_height font_size padding) + 5).

(** [x & ~15] *)
Definition and_not_15 (x : Z) : Z := Z.land x (Z.lnot 15).

(** The literal [1.42], a [double]. *)
Definition hscale_factor : double := double_literal 142 100.

(** The constructor.  [screen_width] and [screen_height] are what
    [DispmanxLayer::openDisplay] reports; [lines] is the unsigned argument
    as the [int] member [m_max_lines] holds it. *)
Definition SubtitleRenderer_new (screen_width screen_height : Z)
    (r_font_size : float)
    (centered box_opacity : bool) (lines : Z) : geometry :=
  let max_lines := wrap32 lines in
  (* m_font_size = screen_height * r_font_size; *)
  let font_size :=
    int_of_float (float_mul (float_of_int screen_height) r_font_size) in
  (* m_padding = m_font_size / 4; *)
  let padding := Z.quot font_size 4 in
  let lh := line_height font_size padding in
  (* m_image_height = (m_max_lines * line_height) + 5;
     m_image_height = (m_image_height + 15) & ~15; *)
  let image_height :=
    and_not_15 (wrap32 (raw_image_height max_lines font_size padding + 15)) in
  (* m_image_width = screen_width - 100;
     m_image_width = m_image_width & ~15; *)
  let image_width := and_not_15 (wrap32 (screen_width - 100)) in
  let lm := Z.quot (wrap32 (screen_width - image_width)) 2 in
  let tm := wrap32 (wrap32 (screen_height - image_height) - Z.quot lh 2) in
  let assumed_longest_subtitle_line_in_pixels := 1300 in
  let lam :=
    if screen_width >? assumed_longest_subtitle_line_in_pixels then
      Z.quot (wrap32 (screen_width - assumed_longest_subtitle_line_in_pixels)) 2
    else if screen_width >? screen_height then
      Z.quot (wrap32 (screen_width - screen_height)) 2
    else 0 in
  let lam' := if lam >? lm then wrap32 (lam - lm) else lam in
  (* float vscale = (screen_height * r_font_size) / 30;
     float hscale = vscale * 1.42; *)
  let vscale :=
    float_div (float_mul (float_of_int screen_height) r_font_size)
      (float_of_int 30) in
  let hscale :=
    float_of_double (double_mul (double_of_float vscale) hscale_factor) in
  {| m_centered := centered;
     m_ghost_box := box_opacity;
     m_max_lines := max_lines;
     m_font_size := font_size;
     m_padding := padding;
     m_image_width := image_width;
     m_image_height := image_height;
     left_aligned_margin := lam';
     m_scaled_image_width :=
       int_of_float (float_div (float_of_int image_width) hscale);
     m_scaled_image_height :=
       int_of_float (float_div (float_of_int image_height) vscale);
     m_scaled_padding :=
       int_of_float (float_div (float_of_int padding) vscale);
     left_margin := lm;
     top_margin := tm |}.

(** ** Resources

    What the renderer allocates: blocks from [malloc], cairo image surfaces
    and cairo drawing contexts.  A handle is the model of a pointer; [None]
    is the model of a pointer that was never assigned ([NULL]). *)

(** The three source patterns that the constructor creates. *)
Inductive pattern : Type :=
| m_default_font_color
| m_ghost_box_transparency
| m_black_font_outline.

(** The cairo calls that draw.  [cairo_glyph_path i j gl] is the call on
    [parsed_lines[i][j].glyphs]; [cairo_set_source_rgba r g b] carries the
    three channels as numerators over 255 (alpha is 1). *)
Inductive cairo_op : Type :=
| cairo_set_scaled_font (f : font_type)
| cairo_set_source (p : pattern)
| cairo_set_source_rgba (r g b : Z)
| cairo_rectangle (x y width height : Z)
| cairo_fill
| cairo_glyph_path (i j : nat) (gl : list glyph)
| cairo_fill_preserve
| cairo_set_line_width (w : Z)
| cairo_stroke.

Inductive resource : Type :=
| Buffer (size : Z) (written : list Byte.byte)
| Surface (width height : Z) (drawn : list cairo_op)
| Context (target : nat).

Record heap : Type := mk_heap {
  next_handle : nat;
  live : list (nat * resource)
}.

Definition empty_heap : heap := mk_heap O [].

Definition alloc (h : heap) (r : resource) : nat * heap :=
  (next_handle h, mk_heap (S (next_handle h)) (live h ++ [(next_handle h, r)])).

Definition release (h : heap) (p : option nat) : heap :=
  match p with
  | Some n => mk_heap (next_handle h)
                (filter (fun e => negb (Nat.eqb (fst e) n)) (live h))
  | None => h
  end.

Definition lookup (h : heap) (p : option nat) : option resource :=
  match p with
  | Some n => option_map snd (find (fun e => Nat.eqb (fst e) n) (live h))
  | None => None
  end.

(** Replaces the resource behind handle [n]. *)
Definition update (h : heap) (n : nat) (r : resource) : heap :=
  mk_heap (next_handle h)
    (map (fun e => if Nat.eqb (fst e) n then (n, r) else e) (live h)).

(** ** The overlay layers ([DispmanxLayer]) *)

(** Modelled from the spec: [DispmanxLayer] (DispmanxLayer.h) is not part
    of the source file; a layer accepts [setImageData(buffer)] and
    [hideElement()].  A layer is the history of the calls it received;
    [setImageData] is recorded with the pointer it was given and with what
    that pointer held at the time. *)
Inductive layer_call : Type :=
| setImageData (p : option nat) (image : option resource)
| hideElement.

(** ** The renderer's mutable members *)

(** Modelled from the spec: the members are declared in SubtitleRenderer.h;
    the two flags and the pointers that [prepare], [unprepare] and
    [show_next] read and write, the store they point into, and the two
    layers. *)
Record renderer : Type := mk_renderer {
  m_prepared_from_image : bool;
  m_prepared_from_text : bool;
  other_image_data : option nat;
  cairo_image_data : option nat;
  m_surface : option nat;
  m_cr : option nat;
  store : heap;
  subtitleLayer : list layer_call;
  dvdSubLayer : list layer_call
}.

(** Modelled from the spec: the initial values of the members are given in
    SubtitleRenderer.h; after construction the renderer is idle: nothing
    prepared, nothing allocated, both layers untouched. *)
Definition initial_renderer : renderer :=
  mk_renderer false false None None None None empty_heap [] [].

(** ** [SubtitleRenderer::unprepare] *)

Definition unprepare (s : renderer) : renderer :=
  let s1 :=
    if m_prepared_from_image s then
      (* free(other_image_data); m_prepared_from_image = false; *)
      mk_renderer false (m_prepared_from_text s) (other_image_data s)
        (cairo_image_data s) (m_surface s) (m_cr s)
        (release (store s) (other_image_data s))
        (subtitleLayer s) (dvdSubLayer s)
    else s in
  if m_prepared_from_text s1 then
    (* cairo_destroy(m_cr); cairo_surface_destroy(m_surface);
       m_prepared_from_text = false; *)
    mk_renderer (m_prepared_from_image s1) false (other_image_data s1)
      (cairo_image_data s1) (m_surface s1) (m_cr s1)
      (release (release (store s1) (m_cr s1)) (m_surface s1))
      (subtitleLayer s1) (dvdSubLayer s1)
  else s1.

(** ** [SubtitleRenderer::make_subtitle_image], the bitmap overload *)

(** [memset(p, 0, num_pixels); p += num_pixels;] on the bytes written so
    far; [memset] takes the [int] count as a [size_t]. *)
Definition mem_set (num_pixels : Z) (written : list Byte.byte) : list Byte.byte :=
  written ++ repeat Byte.x00 (Z.to_nat (to_size_t num_pixels)).

(** [memcpy(p, pixel, len); p += len;], the [int] length as a [size_t]. *)
Definition mem_copy (pixel : list Byte.byte) (len : Z) (written : list Byte.byte)
  : list Byte.byte :=
  written ++ firstn (Z.to_nat (to_size_t len)) pixel.

(** [malloc(m_scaled_image_width * m_scaled_image_height)]: the product is
    formed as an [int] and handed to [malloc] as a [size_t]. *)
Definition block_size (g : geometry) : Z :=
  to_size_t (wrap32 (m_scaled_image_width g * m_scaled_image_height g)).

(** [int left_padding = (m_scaled_image_width / 2) - (sub_width / 2);] *)
Definition left_padding (g : geometry) (sub_width : Z) : Z :=
  wrap32 (Z.quot (m_scaled_image_width g) 2 - Z.quot sub_width 2).

(** [int right_padding = m_scaled_image_width - sub_width - left_padding;] *)
Definition right_padding (g : geometry) (sub_width : Z) : Z :=
  wrap32 (wrap32 (m_scaled_image_width g - sub_width) - left_padding g sub_width).

(** [int bottom_padding = m_scaled_padding;] *)
Definition bottom_padding (g : geometry) : Z := m_scaled_padding g.

(** [int top_padding = m_scaled_image_height - sub_height - bottom_padding;] *)
Definition top_padding (g : geometry) (sub_height : Z) : Z :=
  wrap32 (wrap32 (m_scaled_image_height g - sub_height) - bottom_padding g).

(** The first test: [sub_width < 1 || sub_width > m_scaled_image_width ||
    sub_height < 1 || sub_height > m_scaled_image_height]. *)
Definition exceeds_dimensions (g : geometry) (sub_width sub_height : Z) : bool :=
  (sub_width <? 1) || (sub_width >? m_scaled_image_width g) ||
  (sub_height <? 1) || (sub_height >? m_scaled_image_height g).

(** The second test: one of the four paddings is negative. *)
Definition negative_padding (g : geometry) (sub_width sub_height : Z) : bool :=
  (left_padding g sub_width <? 0) || (right_padding g sub_width <? 0) ||
  (bottom_padding g <? 0) || (top_padding g sub_height <? 0).

(** The [for] loop over the rows of the bitmap, rows [j] to [j + n - 1];
    [pixels.data() + (j * sub_width)] is the row's first byte.  The counter
    stays below [sub_height], so [j++] never leaves the range of [int]. *)
Fixpoint copy_rows (g : geometry) (sub_width : Z) (pixels : list Byte.byte)
    (n : nat) (j : Z) (written : list Byte.byte) : list Byte.byte :=
  match n with
  | O => written
  | S n' =>
      let w1 := mem_set (left_padding g sub_width) written in
      let x := skipn (Z.to_nat (wrap32 (j * sub_width))) pixels in
      let w2 := mem_copy x sub_width w1 in
      let w3 := mem_set (right_padding g sub_width) w2 in
      copy_rows g sub_width pixels n' (j + 1) w3
  end.

Definition make_subtitle_image_bitmap (g : geometry) (sub_width sub_height : Z)
    (pixels : list Byte.byte) (s : renderer) : renderer :=
  if exceeds_dimensions g sub_width sub_height then s
  else
    (* p = other_image_data = malloc(m_scaled_image_width * m_scaled_image_height); *)
    let size := block_size g in
    let (p, h1) := alloc (store s) (Buffer size []) in
    if negative_padding g sub_width sub_height then
      mk_renderer (m_prepared_from_image s) (m_prepared_from_text s) (Some p)
        (cairo_image_data s) (m_surface s) (m_cr s) h1
        (subtitleLayer s) (dvdSubLayer s)
    else
      let w1 :=
        mem_set (wrap32 (top_padding g sub_height * m_scaled_image_width g)) [] in
      let w2 := copy_rows g sub_width pixels (Z.to_nat sub_height) 0 w1 in
      let w3 := mem_set (wrap32 (bottom_padding g * m_scaled_image_width g)) w2 in
      mk_renderer true (m_prepared_from_text s) (Some p)
        (cairo_image_data s) (m_surface s) (m_cr s)
        (update h1 p (Buffer size w3))
        (subtitleLayer s) (dvdSubLayer s).

(** ** [SubtitleRenderer::make_subtitle_image], the text overload *)

(** The two cairo services that the layout depends on.
    [text_to_glyphs f x y utf8] is [cairo_scaled_font_text_to_glyphs] for the
    scaled font of face [f]: [None] is any status other than
    [CAIRO_STATUS_SUCCESS].  [x_advance f gl] is the [x_advance] that
    [cairo_glyph_extents] reports. *)
Record text_backend : Type := mk_text_backend {
  text_to_glyphs : font_type -> Z -> Z -> string -> option (list glyph);
  x_advance : font_type -> list glyph -> Q
}.

(** The drawing context as the layout sees it: the two members that cache
    the font and the colour last set ([None] and [-500] after the reset),
    and the calls issued so far. *)
Record drawing : Type := mk_drawing {
  m_current_font : option font_type;
  m_color : Z;
  ops : list cairo_op
}.

Definition emit (op : cairo_op) (d : drawing) : drawing :=
  mk_drawing (m_current_font d) (m_color d) (ops d ++ [op]).

Definition font_type_eqb (a b : font_type) : bool :=
  match a, b with
  | NORMAL_FONT, NORMAL_FONT | BOLD_FONT, BOLD_FONT | ITALIC_FONT, ITALIC_FONT => true
  | _, _ => false
  end.

(** [SubtitleRenderer::set_font] *)
Definition set_font (new_font_type : font_type) (d : drawing) : drawing :=
  match m_current_font d with
  | Some f =>
      if font_type_eqb new_font_type f then d
      else mk_drawing (Some new_font_type) (m_color d)
             (ops d ++ [cairo_set_scaled_font new_font_type])
  | None =>
      mk_drawing (Some new_font_type) (m_color d)
        (ops d ++ [cairo_set_scaled_font new_font_type])
  end.

(** [SubtitleRenderer::set_color] *)
Definition set_color (new_color : Z) (d : drawing) : drawing :=
  if new_color =? m_color d then d
  else
    let op :=
      if new_color =? -1 then cairo_set_source m_default_font_color
      else if new_color =? -2 then cairo_set_source m_ghost_box_transparency
      else if new_color =? 0 then cairo_set_source m_black_font_outline
      else cairo_set_source_rgba
             (Z.land (Z.shiftr new_color 16) 255)
             (Z.land (Z.shiftr new_color 8) 255)
             (Z.land (Z.shiftr new_color 0) 255) in
    mk_drawing (m_current_font d) new_color (ops d ++ [op]).

(** [int += double]: the sum is formed as a [double] and truncated. *)
Definition add_advance (n : Z) (adv : Q) : Z := Qtrunc (inject_Z n + adv)%Q.

(** [p->x += cursor_x_position] for every glyph of a run. *)
Definition shift_glyphs (dx : Z) (gl : list glyph) : list glyph :=
  map (fun p => mk_glyph (g_index p) (g_x p + inject_Z dx)%Q (g_y p)) gl.

(** Modelled from the spec: [Subtitle] is declared in Subtitle.h, which is
    not part of the source file.  The fields that [prepare] reads. *)
Record Subtitle : Type := mk_Subtitle {
  isImage : bool;
  width : Z;
  height : Z;
  image_data : list Byte.byte;
  text_lines : list string
}.

(** The public member functions, as the steps of the life cycle. *)
Inductive call : Type :=
| call_prepare (sub : Subtitle)
| call_prepare_lines (lines : list string)
| call_show_next
| call_hide
| call_unprepare.

Section Layout.

Variable cairo : text_backend.
Variable g : geometry.

(** The first inner loop: select the font, shape the run at the cursor,
    advance the cursor and widen the box.  [set_font] has just made
    [font r] the font of the context, so this is the font that
    [cairo_get_scaled_font] and [cairo_glyph_extents] use.  The result is
    the drawing state and, unless a run failed to shape, the glyph arrays
    of the runs with the final [cursor_x_position] and [box_width]. *)
Fixpoint shape_runs (runs : list SubtitleText) (cursor_y_position : Z)
    (cursor_x_position box_width : Z) (d : drawing)
  : drawing * option (list (list glyph) * Z * Z) :=
  match runs with
  | [] => (d, Some ([], cursor_x_position, box_width))
  | r :: rest =>
      let d1 := set_font (font r) d in
      match text_to_glyphs cairo (font r)
              (wrap32 (cursor_x_position + m_padding g))
              (wrap32 (cursor_y_position - Z.quot (m_padding g) 4))
              (c_str (text r)) with
      | None => (d1, None)
      | Some gl =>
          let adv := x_advance cairo (font r) gl in
          match shape_runs rest cursor_y_position
                  (add_advance cursor_x_position adv)
                  (add_advance box_width adv) d1 with
          | (d2, Some (gls, cx, bw)) => (d2, Some (gl :: gls, cx, bw))
          | (d2, None) => (d2, None)
          end
      end
  end.

(** The last inner loop: font, colour and glyph path of run [j], [j + 1],
    ... of line [i]. *)
Fixpoint draw_runs (i j : nat) (runs : list SubtitleText)
    (gls : list (list glyph)) (d : drawing) : drawing :=
  match runs, gls with
  | r :: rest, gl :: gls' =>
      let d1 := set_font (font r) d in
      let d2 := set_color (color r) d1 in
      let d3 := emit (cairo_glyph_path i j gl) d2 in
      draw_runs i (S j) rest gls' d3
  | _, _ => d
  end.

(** The body of the loop over the lines, for line [i]; [false] is the
    [return] on a shaping failure. *)
Definition layout_line (i : nat) (runs : list SubtitleText)
    (cursor_y_position : Z) (d : drawing) : drawing * bool :=
  let box_width := wrap32 (m_padding g * 2) in
  let cursor_x_position := left_aligned_margin g in
  match shape_runs runs cursor_y_position cursor_x_position box_width d with
  | (d1, None) => (d1, false)
  | (d1, Some (gls, _, box_width)) =>
      (* aligned text *)
      let cursor_x_position :=
        if m_centered g
        then wrap32 (Z.quot (m_image_width g) 2 - Z.quot box_width 2)
        else left_aligned_margin g in
      let gls :=
        if m_centered g then map (shift_glyphs cursor_x_position) gls else gls in
      (* draw ghost box *)
      let d2 :=
        if m_ghost_box g then
          emit cairo_fill
            (emit (cairo_rectangle cursor_x_position
                     (wrap32 (cursor_y_position - m_font_size g)) box_width
                     (wrap32 (m_font_size g + m_padding g)))
               (set_color (-2) d1))
        else d1 in
      let d3 := draw_runs i O runs gls d2 in
      (* draw black text outline *)
      let d4 := emit cairo_fill_preserve d3 in
      let d5 := set_color 0 d4 in
      let d6 := emit (cairo_set_line_width 2) d5 in
      (emit cairo_stroke d6, true)
  end.

(** [for(int i = no_of_lines - 1; i > -1; i--)], with [n = i + 1]. *)
Fixpoint layout_lines (parsed_lines : list (list SubtitleText)) (n : nat)
    (cursor_y_position : Z) (d : drawing) : drawing * bool :=
  match n with
  | O => (d, true)
  | S i =>
      match layout_line i (nth i parsed_lines []) cursor_y_position d with
      | (d1, true) =>
          layout_lines parsed_lines i
            (wrap32 (cursor_y_position - wrap32 (m_font_size g + m_padding g))) d1
      | (d1, false) => (d1, false)
      end
  end.

(** [int no_of_lines = parsed_lines.size();
    if(no_of_lines > m_max_lines) no_of_lines = m_max_lines;] *)
Definition no_of_lines (parsed_lines : list (list SubtitleText)) : Z :=
  let n := Z.of_nat (List.length parsed_lines) in
  if n >? m_max_lines g then m_max_lines g else n.

(** Everything that is drawn for [parsed_lines], and whether the function
    reached its end. *)
Definition draw_subtitle (parsed_lines : list (list SubtitleText))
  : drawing * bool :=
  layout_lines parsed_lines (Z.to_nat (no_of_lines parsed_lines))
    (wrap32 (m_image_height g - m_padding g))
    (mk_drawing None (-500) []).

Definition make_subtitle_image_text (parsed_lines : list (list SubtitleText))
    (s : renderer) : renderer :=
  (* m_surface = cairo_image_surface_create(...); m_cr = cairo_create(m_surface); *)
  let (surface, h1) :=
    alloc (store s) (Surface (m_image_width g) (m_image_height g) []) in
  let (cr, h2) := alloc h1 (Context surface) in
  let (d, finished) := draw_subtitle parsed_lines in
  let h3 := update h2 surface
              (Surface (m_image_width g) (m_image_height g) (ops d)) in
  if finished then
    (* cairo_image_data = cairo_image_surface_get_data(m_surface);
       m_prepared_from_text = true; *)
    mk_renderer (m_prepared_from_image s) true (other_image_data s)
      (Some surface) (Some surface) (Some cr) h3
      (subtitleLayer s) (dvdSubLayer s)
  else
    mk_renderer (m_prepared_from_image s) (m_prepared_from_text s)
      (other_image_data s) (cairo_image_data s) (Some surface) (Some cr) h3
      (subtitleLayer s) (dvdSubLayer s).

(** ** [parse_lines], [prepare], [show_next], [hide] *)

Definition parse_lines (text_lines : list string) (s : renderer) : renderer :=
  make_subtitle_image_text (formatted_lines text_lines) s.

(** [prepare(Subtitle &sub)] *)
Definition prepare (sub : Subtitle) (s : renderer) : renderer :=
  let s1 := unprepare s in
  if isImage sub
  then make_subtitle_image_bitmap g (width sub) (height sub) (image_data sub) s1
  else parse_lines (text_lines sub) s1.

(** [prepare(vector<string> &lines)] *)
Definition prepare_lines (lines : list string) (s : renderer) : renderer :=
  parse_lines lines (unprepare s).

Definition show_next (s : renderer) : renderer :=
  if m_prepared_from_image s then
    (* subtitleLayer->hideElement(); dvdSubLayer->setImageData(other_image_data); *)
    unprepare
      (mk_renderer (m_prepared_from_image s) (m_prepared_from_text s)
         (other_image_data s) (cairo_image_data s) (m_surface s) (m_cr s)
         (store s)
         (subtitleLayer s ++ [hideElement])
         (dvdSubLayer s ++
            [setImageData (other_image_data s)
               (lookup (store s) (other_image_data s))]))
  else if m_prepared_from_text s then
    (* dvdSubLayer->hideElement(); subtitleLayer->setImageData(cairo_image_data); *)
    unprepare
      (mk_renderer (m_prepared_from_image s) (m_prepared_from_text s)
         (other_image_data s) (cairo_image_data s) (m_surface s) (m_cr s)
         (store s)
         (subtitleLayer s ++
            [setImageData (cairo_image_data s)
               (lookup (store s) (cairo_image_data s))])
         (dvdSubLayer s ++ [hideElement]))
  else s.

Definition hide (s : renderer) : renderer :=
  mk_renderer (m_prepared_from_image s) (m_prepared_from_text s)
    (other_image_data s) (cairo_image_data s) (m_surface s) (m_cr s)
    (store s)
    (subtitleLayer s ++ [hideElement])
    (dvdSubLayer s ++ [hideElement]).

Definition step (s : renderer) (c : call) : renderer :=
  match c with
  | call_prepare sub => prepare sub s
  | call_prepare_lines lines => prepare_lines lines s
  | call_show_next => show_next s
  | call_hide => hide s
  | call_unprepare => unprepare s
  end.

(** The state after a sequence of calls on a fresh renderer. *)
Definition run (calls : list call) : renderer :=
  fold_left step calls initial_renderer.

(** The states that some sequence of calls reaches. *)
Inductive reachable : renderer -> Prop :=
| reachable_initial : reachable initial_renderer
| reachable_step (s : renderer) (c : call) :
    reachable s -> reachable (step s c).

End Layout.

(** ** A small concrete backend

    A fixed-pitch font: every byte of the text is one glyph, [pitch] pixels
    wide, and a text that holds a byte which no UTF-8 text can hold (248 and
    above) is refused, as cairo refuses malformed UTF-8. *)

Definition utf8_byte (c : ascii) : bool := code c <? 248.

Fixpoint place_glyphs (utf8 : string) (x y pitch : Q) : list glyph :=
  match utf8 with
  | EmptyString => []
  | String c rest => mk_glyph (code c) x y :: place_glyphs rest (x + pitch)%Q y pitch
  end.

Definition fixed_pitch (pitch : Z) : text_backend :=
  {| text_to_glyphs := fun _ x y utf8 =>
       if forallb utf8_byte (list_ascii_of_string utf8)
       then Some (place_glyphs utf8 (inject_Z x) (inject_Z y) (inject_Z pitch))
       else None;
     x_advance := fun _ gl =>
       (inject_Z pitch * inject_Z (Z.of_nat (List.length gl)))%Q |}.

(** The geometry of a 1920x1080 screen with a font of [0.055f] of its
    height. *)
Definition hd_geometry (centered box_opacity : bool) (lines : Z) : geometry :=
  SubtitleRenderer_new 1920 1080 (float_literal 55 1000) centered box_opacity lines.

(** ** Vocabulary of the properties *)

(** The geometry of a 1366x768 screen with the same font fraction. *)
Definition wxga_geometry (centered box_opacity : bool) (lines : Z) : geometry :=
  SubtitleRenderer_new 1366 768 (float_literal 55 1000) centered box_opacity lines.

(** How many frame resources are allocated: blocks and surfaces (a drawing
    context belongs to its surface). *)
Definition frame_resources (h : heap) : nat :=
  List.length (filter (fun e => match snd e with
                                | Buffer _ _ | Surface _ _ _ => true
                                | Context _ => false
                                end) (live h)).

(** The bitmap is taken: both tests of [make_subtitle_image] let it pass. *)
Definition bitmap_accepted (g : geometry) (sub_width sub_height : Z) : bool :=
  negb (exceeds_dimensions g sub_width sub_height) &&
  negb (negative_padding g sub_width sub_height).

(** The runs that reached [cairo_glyph_path], as (line, run) indices in the
    order of the calls. *)
Fixpoint glyph_paths (l : list cairo_op) : list (nat * nat) :=
  match l with
  | [] => []
  | cairo_glyph_path i j _ :: rest => (i, j) :: glyph_paths rest
  | _ :: rest => glyph_paths rest
  end.

(** All runs of line [i], left to right. *)
Definition runs_of_line (parsed_lines : list (list SubtitleText)) (i : nat)
  : list (nat * nat) :=
  map (fun j => (i, j)) (seq 0 (List.length (nth i parsed_lines []))).

(** All runs of the lines [k - 1], ..., [0], in that order. *)
Definition runs_of_first_lines (parsed_lines : list (list SubtitleText)) (k : nat)
  : list (nat * nat) :=
  flat_map (runs_of_line parsed_lines) (rev (seq 0 k)).

(** Glyph preparation succeeds for the run, wherever it is placed. *)
Definition shapes (cairo : text_backend) (r : SubtitleText) : Prop :=
  forall x y, text_to_glyphs cairo (font r) x y (c_str (text r)) <> None.

(** A text line that holds the byte 255, which no UTF-8 text holds. *)
Definition latin1_line : string := String "n" (String (chr 255) EmptyString).

(** Handles are handed out in increasing order: every live handle is below
    the next one. *)
Definition heap_ok (h : heap) : Prop :=
  Forall (fun e => (fst e < next_handle h)%nat) (live h).

(** A subtitle that carries a bitmap. *)
Definition bitmap_subtitle (w h : Z) (pixels : list Byte.byte) : Subtitle :=
  mk_Subtitle true w h pixels [].

(** The left edge of a run: where its first glyph is placed. *)
Definition left_edge (gl : list glyph) : Q :=
  match gl with
  | p :: _ => g_x p
  | [] => 0
  end.

(** The glyph array that reached [cairo_glyph_path] for run [j] of line [i]. *)
Fixpoint path_of (i j : nat) (l : list cairo_op) : option (list glyph) :=
  match l with
  | [] => None
  | cairo_glyph_path i' j' gl :: rest =>
      if Nat.eqb i i' && Nat.eqb j j' then Some gl else path_of i j rest
  | _ :: rest => path_of i j rest
  end.

(** The distance from the left edge of the canvas to the left edge of the
    run, and from the right edge of the run (its left edge plus its advance)
    to the right edge of the canvas. *)
Definition gap_before (gl : list glyph) : Q := left_edge gl.

Definition gap_after (g : geometry) (gl : list glyph) (advance : Q) : Q :=
  (inject_Z (m_image_width g) - (left_edge gl + advance))%Q.

(** ** Vocabulary of the further properties *)

(** Row [r] of the bitmap as it is laid out in the block: the left padding,
    the [sub_width] source bytes of the row, the right padding. *)
Definition bitmap_row (g : geometry) (sub_width : Z) (pixels : list Byte.byte)
    (r : Z) : list Byte.byte :=
  repeat Byte.x00 (Z.to_nat (left_padding g sub_width)) ++
  firstn (Z.to_nat sub_width) (skipn (Z.to_nat (r * sub_width)) pixels) ++
  repeat Byte.x00 (Z.to_nat (right_padding g sub_width)).

(** The whole block, top to bottom. *)
Definition padded_image (g : geometry) (sub_width sub_height : Z)
    (pixels : list Byte.byte) : list Byte.byte :=
  repeat Byte.x00 (Z.to_nat (top_padding g sub_height * m_scaled_image_width g)) ++
  List.concat (map (fun t => bitmap_row g sub_width pixels (Z.of_nat t))
            (seq 0 (Z.to_nat sub_height))) ++
  repeat Byte.x00 (Z.to_nat (bottom_padding g * m_scaled_image_width g)).

(** The byte that belongs at row [R], column [C] of the scaled canvas: the
    source pixel when the position falls inside the placed bitmap, zero in
    the padding. *)
Definition placed_pixel (g : geometry) (sub_width sub_height : Z)
    (pixels : list Byte.byte) (R C : Z) : Byte.byte :=
  if (top_padding g sub_height <=? R) && (R <? top_padding g sub_height + sub_height)
     && (left_padding g sub_width <=? C) && (C <? left_padding g sub_width + sub_width)
  then nth (Z.to_nat ((R - top_padding g sub_height) * sub_width
                      + (C - left_padding g sub_width))) pixels Byte.x00
  else Byte.x00.


(** The calls [cairo_glyph_path] for the runs [j], [j + 1], ... of line [i]. *)
Fixpoint glyph_path_ops (i j : nat) (gls : list (list glyph)) : list cairo_op :=
  match gls with
  | [] => []
  | gl :: rest => cairo_glyph_path i j gl :: glyph_path_ops i (S j) rest
  end.

(** The vertical band of a rectangle: its top and its height. *)
Definition band_of (op : cairo_op) : list (Z * Z) :=
  match op with
  | cairo_rectangle _ y _ height => [(y, height)]
  | _ => []
  end.

(** The calls that put ink on the surface or extend the path, without their
    coordinates. *)
Inductive mark : Type :=
| mark_fill
| mark_path (i j : nat)
| mark_fill_preserve
| mark_stroke.

Definition mark_of (op : cairo_op) : list mark :=
  match op with
  | cairo_fill => [mark_fill]
  | cairo_glyph_path i j _ => [mark_path i j]
  | cairo_fill_preserve => [mark_fill_preserve]
  | cairo_stroke => [mark_stroke]
  | _ => []
  end.

(** The marks of one finished line. *)
Definition line_marks (ghost : bool) (parsed_lines : list (list SubtitleText))
    (i : nat) : list mark :=
  (if ghost then [mark_fill] else []) ++
  map (mark_path i) (seq 0 (List.length (nth i parsed_lines []))) ++
  [mark_fill_preserve; mark_stroke].

(** The source that [set_color] selects for a colour code. *)
Definition source_op (c : Z) : cairo_op :=
  if c =? -1 then cairo_set_source m_default_font_color
  else if c =? -2 then cairo_set_source m_ghost_box_transparency
  else if c =? 0 then cairo_set_source m_black_font_outline
  else cairo_set_source_rgba
         (Z.land (Z.shiftr c 16) 255)
         (Z.land (Z.shiftr c 8) 255)
         (Z.land (Z.shiftr c 0) 255).

(** The source that is in effect after the calls [l], when [cur] was in
    effect before them. *)
Fixpoint source_after (cur : option cairo_op) (l : list cairo_op)
  : option cairo_op :=
  match l with
  | [] => cur
  | cairo_set_source p :: rest => source_after (Some (cairo_set_source p)) rest
  | cairo_set_source_rgba r g b :: rest =>
      source_after (Some (cairo_set_source_rgba r g b)) rest
  | _ :: rest => source_after cur rest
  end.

(** The source that is in effect at each [cairo_fill_preserve] of [l]. *)
Fixpoint fill_sources (cur : option cairo_op) (l : list cairo_op)
  : list (option cairo_op) :=
  match l with
  | [] => []
  | cairo_set_source p :: rest => fill_sources (Some (cairo_set_source p)) rest
  | cairo_set_source_rgba r g b :: rest =>
      fill_sources (Some (cairo_set_source_rgba r g b)) rest
  | cairo_fill_preserve :: rest => cur :: fill_sources cur rest
  | _ :: rest => fill_sources cur rest
  end.

(** The source that stands for a cached colour code; [-500] is the value of
    the cache before any colour has been set. *)
Definition source_of_color (c : Z) : option cairo_op :=
  if c =? -500 then None else Some (source_op c).

(** The colour that is cached when the text of a line is filled: the colour
    of the last run of the line; for a line without runs, the colour of the
    ghost box if there is one, and else the colour [prev] cached before. *)
Definition line_fill_color (ghost : bool) (prev : Z) (runs : list SubtitleText)
  : Z :=
  match runs with
  | [] => if ghost then -2 else prev
  | r :: rest => color (last rest r)
  end.

(** The fill colours of the lines [n - 1], ..., [0]; after a finished line
    the cached colour is that of the outline, [0]. *)
Fixpoint fill_colors (ghost : bool) (parsed_lines : list (list SubtitleText))
    (n : nat) (prev : Z) : list Z :=
  match n with
  | O => []
  | S i =>
      line_fill_color ghost prev (nth i parsed_lines []) ::
      fill_colors ghost parsed_lines i 0
  end.

Definition option_font_eqb (a : option font_type) (f : font_type) : bool :=
  match a with
  | Some f' => font_type_eqb f f'
  | None => false
  end.

(** The font selected after the calls [l], when [cur] was selected before. *)
Fixpoint font_after (cur : option font_type) (l : list cairo_op)
  : option font_type :=
  match l with
  | [] => cur
  | cairo_set_scaled_font f :: rest => font_after (Some f) rest
  | _ :: rest => font_after cur rest
  end.

(** No call of [l] selects the font that is already selected. *)
Fixpoint font_changes (cur : option font_type) (l : list cairo_op) : bool :=
  match l with
  | [] => true
  | cairo_set_scaled_font f :: rest =>
      negb (option_font_eqb cur f) && font_changes (Some f) rest
  | _ :: rest => font_changes cur rest
  end.


(** The cache holds the font that the calls selected last, and no call
    selected the font that was selected already. *)
Definition font_cache_ok (d : drawing) : Prop :=
  font_after None (ops d) = m_current_font d /\
  font_changes None (ops d) = true.

(** What decides the colour of a fill: the cached colour code, the source in
    effect, and the sources of the fills made so far. *)
Definition paint_state (d : drawing) : Z * option cairo_op * list (option cairo_op) :=
  (m_color d, source_after None (ops d), fill_sources None (ops d)).

(** The colour cache agrees with the source in effect. *)
Definition source_cache_ok (d : drawing) : Prop :=
  source_after None (ops d) = source_of_color (m_color d).

(** A call that neither selects a source nor fills the text. *)
Definition paint_neutral (op : cairo_op) : bool :=
  match op with
  | cairo_set_source _ | cairo_set_source_rgba _ _ _ | cairo_fill_preserve => false
  | _ => true
  end.


(** A character that can open a tag. *)
Definition is_tag_opener (c : ascii) : bool :=
  Ascii.eqb c "<"%char || Ascii.eqb c "{"%char.

(** The line holds no character that can open a tag. *)
Definition no_tag_opener (s : string) : bool :=
  forallb (fun c => negb (is_tag_opener c)) (list_ascii_of_string s).

(** Every character of [s] is in the class [cls]. *)
Definition all_in_class (cls : ascii -> bool) (s : string) : bool :=
  forallb cls (list_ascii_of_string s).

(** A lower-cased HTML colour tag by its parts: [<font color], blanks, [=],
    blanks or quotes, an optional [#], six digits, and whatever follows. *)
Definition html_color_tag (blanks quotes : string) (hash : bool)
    (d1 d2 d3 d4 d5 d6 : ascii) (tail : string) : string :=
  ("<font color" ++ blanks ++ "=" ++ quotes ++ (if hash then "#" else "") ++
   String d1 (String d2 (String d3 (String d4 (String d5 (String d6 tail))))))%string.


(** A prepared frame points at live resources: the block of a bitmap frame,
    the surface and the context of a text frame. *)
Definition frame_live (s : renderer) : Prop :=
  (m_prepared_from_image s = true ->
   exists size data,
     lookup (store s) (other_image_data s) = Some (Buffer size data)) /\
  (m_prepared_from_text s = true ->
   exists n w h drawn,
     cairo_image_data s = Some n /\ m_surface s = Some n /\
     m_cr s = Some (S n) /\
     lookup (store s) (Some n) = Some (Surface w h drawn) /\
     lookup (store s) (Some (S n)) = Some (Context n)).

(** Every image that the layer was given was the pixel data of a live
    surface when it was given. *)
Definition shows_surfaces (l : list layer_call) : Prop :=
  Forall (fun c => match c with
                   | setImageData _ (Some (Surface _ _ _)) | hideElement => True
                   | _ => False
                   end) l.

(** Every image that the layer was given was a live block when it was
    given. *)
Definition shows_buffers (l : list layer_call) : Prop :=
  Forall (fun c => match c with
                   | setImageData _ (Some (Buffer _ _)) | hideElement => True
                   | _ => False
                   end) l.


(* ================================================================== *)
(** * Part II: properties *)
(* ================================================================== *)

(** ** Machine-integer and bit-level facts *)

Lemma wrap32_id (x : Z) : in_range x -> wrap32 x = x.
Proof.
  unfold in_range, INT_MIN, INT_MAX, wrap32. intros H.
  rewrite Z.mod_small; lia.
Qed.

Lemma wrap32_in_range (x : Z) : in_range (wrap32 x).
Proof.
  unfold in_range, INT_MIN, INT_MAX, wrap32.
  pose proof (Z.mod_pos_bound (x + 2 ^ 31) (2 ^ 32)). lia.
Qed.

(** Removes every [wrap32] whose argument is provably in range, innermost
    first. *)
Ltac unwrap32 :=
  repeat match goal with
  | |- context [wrap32 ?x] =>
      lazymatch x with
      | context [wrap32 _] => fail
      | _ => rewrite (wrap32_id x) by (unfold in_range, INT_MIN, INT_MAX; lia)
      end
  end.

Lemma land_15_mod (a : Z) : Z.land a 15 = a mod 16.
Proof. change 15 with (Z.ones 4). now rewrite Z.land_ones by lia. Qed.

Lemma nibble_div_mod (n : Z) (k : nat) :
  (k <= 5)%nat -> nibble n k = (n / 2 ^ (20 - 4 * Z.of_nat k)) mod 16.
Proof.
  intros Hk. unfold nibble. rewrite land_15_mod.
  now rewrite Z.shiftr_div_pow2 by lia.
Qed.

(** ** Hexadecimal digits *)

Lemma lower_hex_code (c : ascii) :
  is_lower_hex c = true -> 48 <= code c <= 57 \/ 97 <= code c <= 102.
Proof. unfold is_lower_hex. lia. Qed.

Lemma hex_digit_value_bound (c : ascii) :
  is_lower_hex c = true -> 0 <= hex_digit_value c <= 15.
Proof.
  intros H. apply lower_hex_code in H. unfold hex_digit_value.
  destruct ((48 <=? code c) && (code c <=? 57)) eqn:E; lia.
Qed.

Lemma hex_digit_char_value (c : ascii) :
  is_lower_hex c = true -> hex_digit_char (hex_digit_value c) = c.
Proof.
  destruct c as [[] [] [] [] [] [] [] []]; intros H;
    try discriminate H; reflexivity.
Qed.

Lemma nibble_cases (v : Z) :
  0 <= v <= 15 ->
  In v [0; 1; 2; 3; 4; 5; 6; 7; 8; 9; 10; 11; 12; 13; 14; 15].
Proof.
  intros H. simpl.
  assert (v = 0 \/ v = 1 \/ v = 2 \/ v = 3 \/ v = 4 \/ v = 5 \/ v = 6 \/ v = 7 \/
          v = 8 \/ v = 9 \/ v = 10 \/ v = 11 \/ v = 12 \/ v = 13 \/ v = 14 \/
          v = 15) by lia.
  intuition auto.
Qed.

Lemma hex_digit_value_char (v : Z) :
  0 <= v <= 15 ->
  is_lower_hex (hex_digit_char v) = true /\ hex_digit_value (hex_digit_char v) = v.
Proof.
  intros H. apply nibble_cases in H. simpl in H.
  repeat (destruct H as [<- | H]; [split; reflexivity|]). contradiction.
Qed.

(** The loop body adds the digit's value at bit position [f]. *)
Lemma hex2int_body_digit (hex : string) (i : nat) (f r : Z) (c : ascii) :
  String.get i hex = Some c ->
  is_lower_hex c = true ->
  hex2int_body hex i f r = wrap32 (r + wrap32 (Z.shiftl (hex_digit_value c) f)).
Proof.
  intros Hget Hc. unfold hex2int_body, char_at. rewrite Hget.
  apply lower_hex_code in Hc. unfold hex_digit_value.
  destruct (code c >=? 97) eqn:E1;
    destruct ((48 <=? code c) && (code c <=? 57)) eqn:E2; try reflexivity; lia.
Qed.

Lemma six_chars (s : string) :
  String.length s = 6%nat ->
  exists c0 c1 c2 c3 c4 c5,
    s = String c0 (String c1 (String c2 (String c3 (String c4
          (String c5 EmptyString))))).
Proof.
  intros H.
  do 6 (destruct s as [|? s]; [discriminate H|]).
  destruct s; [|discriminate H]. repeat eexists.
Qed.

(** The value computed by [hex2int] on six digits, as a polynomial in 16. *)
Lemma hex2int_poly (c0 c1 c2 c3 c4 c5 : ascii) :
  is_lower_hex c0 = true -> is_lower_hex c1 = true ->
  is_lower_hex c2 = true -> is_lower_hex c3 = true ->
  is_lower_hex c4 = true -> is_lower_hex c5 = true ->
  hex2int (String c0 (String c1 (String c2 (String c3 (String c4
            (String c5 EmptyString)))))) =
  hex_digit_value c0 * 2 ^ 20 + hex_digit_value c1 * 2 ^ 16 +
  hex_digit_value c2 * 2 ^ 12 + hex_digit_value c3 * 2 ^ 8 +
  hex_digit_value c4 * 2 ^ 4 + hex_digit_value c5.
Proof.
  intros H0 H1 H2 H3 H4 H5.
  pose proof (hex_digit_value_bound _ H0). pose proof (hex_digit_value_bound _ H1).
  pose proof (hex_digit_value_bound _ H2). pose proof (hex_digit_value_bound _ H3).
  pose proof (hex_digit_value_bound _ H4). pose proof (hex_digit_value_bound _ H5).
  unfold hex2int. cbn [hex2int_loop].
  rewrite (hex2int_body_digit _ 0 _ _ c0) by (reflexivity || assumption).
  rewrite (hex2int_body_digit _ 1 _ _ c1) by (reflexivity || assumption).
  rewrite (hex2int_body_digit _ 2 _ _ c2) by (reflexivity || assumption).
  rewrite (hex2int_body_digit _ 3 _ _ c3) by (reflexivity || assumption).
  rewrite (hex2int_body_digit _ 4 _ _ c4) by (reflexivity || assumption).
  rewrite (hex2int_body_digit _ 5 _ _ c5) by (reflexivity || assumption).
  rewrite !Z.shiftl_mul_pow2 by lia.
  change (20 - 4 - 4 - 4 - 4 - 4) with 0. change (20 - 4 - 4 - 4 - 4) with 4.
  change (20 - 4 - 4 - 4) with 8. change (20 - 4 - 4) with 12.
  change (20 - 4) with 16.
  unwrap32. lia.
Qed.

Lemma hex_value_six (c0 c1 c2 c3 c4 c5 : ascii) :
  hex_value (String c0 (String c1 (String c2 (String c3 (String c4
               (String c5 EmptyString)))))) =
  hex_digit_value c0 * 2 ^ 20 + hex_digit_value c1 * 2 ^ 16 +
  hex_digit_value c2 * 2 ^ 12 + hex_digit_value c3 * 2 ^ 8 +
  hex_digit_value c4 * 2 ^ 4 + hex_digit_value c5.
Proof. unfold hex_value. cbn [hex_value_from]. lia. Qed.

(** Each nibble of a six-digit polynomial is the corresponding digit. *)
Lemma nibble_poly (v0 v1 v2 v3 v4 v5 : Z) :
  0 <= v0 <= 15 -> 0 <= v1 <= 15 -> 0 <= v2 <= 15 ->
  0 <= v3 <= 15 -> 0 <= v4 <= 15 -> 0 <= v5 <= 15 ->
  let n := v0 * 2 ^ 20 + v1 * 2 ^ 16 + v2 * 2 ^ 12 + v3 * 2 ^ 8 + v4 * 2 ^ 4 + v5 in
  nibble n 0 = v0 /\ nibble n 1 = v1 /\ nibble n 2 = v2 /\
  nibble n 3 = v3 /\ nibble n 4 = v4 /\ nibble n 5 = v5.
Proof.
  intros. subst n.
  rewrite !nibble_div_mod by lia.
  change (20 - 4 * Z.of_nat 0) with 20. change (20 - 4 * Z.of_nat 1) with 16.
  change (20 - 4 * Z.of_nat 2) with 12. change (20 - 4 * Z.of_nat 3) with 8.
  change (20 - 4 * Z.of_nat 4) with 4. change (20 - 4 * Z.of_nat 5) with 0.
  change (2 ^ 20) with 1048576. change (2 ^ 16) with 65536.
  change (2 ^ 12) with 4096. change (2 ^ 8) with 256.
  change (2 ^ 4) with 16. change (2 ^ 0) with 1.
  repeat split; Z.div_mod_to_equations; lia.
Qed.

(** A 24-bit value is the polynomial of its six nibbles. *)
Lemma nibbles_sum (n : Z) :
  0 <= n < 2 ^ 24 ->
  n = nibble n 0 * 2 ^ 20 + nibble n 1 * 2 ^ 16 + nibble n 2 * 2 ^ 12 +
      nibble n 3 * 2 ^ 8 + nibble n 4 * 2 ^ 4 + nibble n 5.
Proof.
  intros H. rewrite !nibble_div_mod by lia.
  change (20 - 4 * Z.of_nat 0) with 20. change (20 - 4 * Z.of_nat 1) with 16.
  change (20 - 4 * Z.of_nat 2) with 12. change (20 - 4 * Z.of_nat 3) with 8.
  change (20 - 4 * Z.of_nat 4) with 4. change (20 - 4 * Z.of_nat 5) with 0.
  change (2 ^ 24) with 16777216 in H.
  change (2 ^ 20) with 1048576. change (2 ^ 16) with 65536.
  change (2 ^ 12) with 4096. change (2 ^ 8) with 256.
  change (2 ^ 4) with 16. change (2 ^ 0) with 1.
  Z.div_mod_to_equations. lia.
Qed.

Lemma nibble_bound (n : Z) (k : nat) : (k <= 5)%nat -> 0 <= nibble n k <= 15.
Proof.
  intros Hk. rewrite nibble_div_mod by assumption.
  pose proof (Z.mod_pos_bound (n / 2 ^ (20 - 4 * Z.of_nat k)) 16). lia.
Qed.

(** C9. For every string [s] of exactly six lowercase hexadecimal digits,
    [hex2int s] is the 24-bit integer whose 4-bit nibbles, from the most
    significant to the least significant, are the values of the digits of [s]
    in order; hence [hex2int] and six-digit lowercase formatting are inverse
    to each other. *)
Theorem hex2int_inverts_hex6 (s : string) :
  String.length s = 6%nat ->
  all_lower_hex s = true ->
  hex2int s = hex_value s /\
  0 <= hex2int s < 2 ^ 24 /\
  (forall k c, String.get k s = Some c ->
               nibble (hex2int s) k = hex_digit_value c) /\
  format_hex6 (hex2int s) = s /\
  (forall n, 0 <= n < 2 ^ 24 ->
             String.length (format_hex6 n) = 6%nat /\
             all_lower_hex (format_hex6 n) = true /\
             hex2int (format_hex6 n) = n).
Proof.
  intros Hlen Hhex.
  destruct (six_chars s Hlen) as (c0 & c1 & c2 & c3 & c4 & c5 & ->).
  unfold all_lower_hex in Hhex. cbn [list_ascii_of_string forallb] in Hhex.
  repeat (apply andb_true_iff in Hhex; destruct Hhex as [? Hhex]).
  pose proof (hex_digit_value_bound c0 ltac:(assumption)).
  pose proof (hex_digit_value_bound c1 ltac:(assumption)).
  pose proof (hex_digit_value_bound c2 ltac:(assumption)).
  pose proof (hex_digit_value_bound c3 ltac:(assumption)).
  pose proof (hex_digit_value_bound c4 ltac:(assumption)).
  pose proof (hex_digit_value_bound c5 ltac:(assumption)).
  rewrite hex2int_poly by assumption.
  destruct (nibble_poly (hex_digit_value c0) (hex_digit_value c1)
              (hex_digit_value c2) (hex_digit_value c3) (hex_digit_value c4)
              (hex_digit_value c5)) as (N0 & N1 & N2 & N3 & N4 & N5);
    try assumption.
  split; [now rewrite hex_value_six|].
  split; [change (2 ^ 24) with 16777216; lia|].
  split.
  { intros k c Hget.
    do 6 (destruct k as [|k]; [cbn in Hget; injection Hget as <-; assumption|]).
    cbn in Hget. discriminate Hget. }
  split.
  { unfold format_hex6. rewrite N0, N1, N2, N3, N4, N5.
    now rewrite !hex_digit_char_value by assumption. }
  intros n Hn.
  pose proof (nibble_bound n 0 ltac:(lia)) as B0.
  pose proof (nibble_bound n 1 ltac:(lia)) as B1.
  pose proof (nibble_bound n 2 ltac:(lia)) as B2.
  pose proof (nibble_bound n 3 ltac:(lia)) as B3.
  pose proof (nibble_bound n 4 ltac:(lia)) as B4.
  pose proof (nibble_bound n 5 ltac:(lia)) as B5.
  destruct (hex_digit_value_char _ B0) as [L0 V0].
  destruct (hex_digit_value_char _ B1) as [L1 V1].
  destruct (hex_digit_value_char _ B2) as [L2 V2].
  destruct (hex_digit_value_char _ B3) as [L3 V3].
  destruct (hex_digit_value_char _ B4) as [L4 V4].
  destruct (hex_digit_value_char _ B5) as [L5 V5].
  split; [reflexivity|]. split.
  { unfold all_lower_hex, format_hex6. cbn [list_ascii_of_string forallb].
    now rewrite L0, L1, L2, L3, L4, L5. }
  unfold format_hex6. rewrite hex2int_poly by assumption.
  rewrite V0, V1, V2, V3, V4, V5. symmetry. now apply nibbles_sum.
Qed.

Lemma hex2int_inverts_hex6_witness :
  hex2int "ff8000" = hex_value "ff8000" /\ format_hex6 (hex2int "ff8000") = "ff8000"%string.
Proof.
  destruct (hex2int_inverts_hex6 "ff8000" eq_refl eq_refl) as (H1 & _ & _ & H4 & _).
  split; assumption.
Defined.

(** ** Tag interpretation *)

(** C1. A closing bold tag clears [bold] only when it is set and is otherwise
    ignored; an opening bold tag sets [bold] whatever the state was; the
    italic tags follow the same rule.  Consequently the line
    [</b><b>x</b></b>y] parses to the runs [x] (bold) and [y] (normal). *)
Theorem bold_italic_toggle (st : tag_state) :
  (apply_tag st "<b>" = mk_tag_state true (italic st) (cur_color st) /\
   apply_tag st "{\b1}" = mk_tag_state true (italic st) (cur_color st)) /\
  (apply_tag st "</b>" =
     (if bold st then mk_tag_state false (italic st) (cur_color st) else st) /\
   apply_tag st "{\b0}" =
     (if bold st then mk_tag_state false (italic st) (cur_color st) else st)) /\
  (apply_tag st "<i>" = mk_tag_state (bold st) true (cur_color st) /\
   apply_tag st "{\i1}" = mk_tag_state (bold st) true (cur_color st)) /\
  (apply_tag st "</i>" =
     (if italic st then mk_tag_state (bold st) false (cur_color st) else st) /\
   apply_tag st "{\i0}" =
     (if italic st then mk_tag_state (bold st) false (cur_color st) else st)) /\
  formatted_lines ["</b><b>x</b></b>y"%string] =
    [[mk_SubtitleText "x" BOLD_FONT (-1) [];
      mk_SubtitleText "y" NORMAL_FONT (-1) []]].
Proof.
  destruct st as [[] [] c]; repeat split; reflexivity.
Qed.

(** ** The curly colour tag *)

Lemma lower_hex_caseless (c : ascii) :
  is_lower_hex c = true -> is_hex_caseless c = true.
Proof.
  intros H. unfold is_hex_caseless, tolower.
  apply lower_hex_code in H.
  destruct ((65 <=? code c) && (code c <=? 90)) eqn:E; [lia|].
  unfold is_lower_hex. lia.
Qed.

Lemma take_hex_pair (c1 c2 : ascii) (rest : string) :
  is_lower_hex c1 = true -> is_lower_hex c2 = true ->
  take_hex 2 (String c1 (String c2 rest)) =
    Some (String c1 (String c2 EmptyString), rest).
Proof.
  intros H1 H2. cbn [take_hex].
  now rewrite (lower_hex_caseless _ H1), (lower_hex_caseless _ H2).
Qed.

Lemma curly_RegFind_groups (b1 b2 g1 g2 r1 r2 : ascii) :
  is_lower_hex b1 = true -> is_lower_hex b2 = true ->
  is_lower_hex g1 = true -> is_lower_hex g2 = true ->
  is_lower_hex r1 = true -> is_lower_hex r2 = true ->
  m_font_color_curly_RegFind (curly_color_tag b1 b2 g1 g2 r1 r2) =
    Some (String b1 (String b2 EmptyString),
          String g1 (String g2 EmptyString),
          String r1 (String r2 EmptyString)).
Proof.
  intros. unfold m_font_color_curly_RegFind, curly_color_tag.
  cbn [strip_literal]. change (eqb_caseless "{" "{") with true.
  change (eqb_caseless "\" "\") with true. change (eqb_caseless "c" "c") with true.
  change (eqb_caseless "&" "&") with true. change (eqb_caseless "h" "h") with true.
  cbv iota. rewrite !take_hex_pair by assumption.
  reflexivity.
Qed.

Lemma lower_hex_not_nul (c : ascii) :
  is_lower_hex c = true -> (code c =? 0) = false.
Proof. intros H. apply lower_hex_code in H. lia. Qed.

Lemma curly_tag_c_str (b1 b2 g1 g2 r1 r2 : ascii) :
  is_lower_hex b1 = true -> is_lower_hex b2 = true ->
  is_lower_hex g1 = true -> is_lower_hex g2 = true ->
  is_lower_hex r1 = true -> is_lower_hex r2 = true ->
  c_str (curly_color_tag b1 b2 g1 g2 r1 r2) = curly_color_tag b1 b2 g1 g2 r1 r2.
Proof.
  intros H1 H2 H3 H4 H5 H6. unfold curly_color_tag. cbn [c_str].
  rewrite (lower_hex_not_nul _ H1), (lower_hex_not_nul _ H2),
    (lower_hex_not_nul _ H3), (lower_hex_not_nul _ H4),
    (lower_hex_not_nul _ H5), (lower_hex_not_nul _ H6).
  reflexivity.
Qed.

(** C2. For a curly colour tag whose three groups are two lowercase hex
    digits each, the parser sets the current colour to the 24-bit integer
    that has the third group as its high byte, the second as its middle byte
    and the first as its low byte; the tag with groups [00 00 ff] gives
    [0xff0000]. *)
Theorem curly_color_reverses_bytes (st : tag_state) (b1 b2 g1 g2 r1 r2 : ascii) :
  is_lower_hex b1 = true -> is_lower_hex b2 = true ->
  is_lower_hex g1 = true -> is_lower_hex g2 = true ->
  is_lower_hex r1 = true -> is_lower_hex r2 = true ->
  apply_tag st (curly_color_tag b1 b2 g1 g2 r1 r2) =
    mk_tag_state (bold st) (italic st)
      (byte_value r1 r2 * 65536 + byte_value g1 g2 * 256 + byte_value b1 b2) /\
  0 <= byte_value r1 r2 * 65536 + byte_value g1 g2 * 256 + byte_value b1 b2
    < 2 ^ 24 /\
  cur_color (apply_tag initial_tag_state "{\c&h0000ff&}") = 16711680 /\
  formatted_lines ["{\c&h0000ff&}x"%string] =
    [[new_SubtitleText "x" NORMAL_FONT 16711680]].
Proof.
  intros Hb1 Hb2 Hg1 Hg2 Hr1 Hr2.
  pose proof (hex_digit_value_bound _ Hb1). pose proof (hex_digit_value_bound _ Hb2).
  pose proof (hex_digit_value_bound _ Hg1). pose proof (hex_digit_value_bound _ Hg2).
  pose proof (hex_digit_value_bound _ Hr1). pose proof (hex_digit_value_bound _ Hr2).
  split; [|split; [unfold byte_value; change (2 ^ 24) with 16777216; lia
                  |split; reflexivity]].
  set (tag := curly_color_tag b1 b2 g1 g2 r1 r2).
  unfold apply_tag.
  change (String.eqb tag "<b>") with false.
  change (String.eqb tag "{\b1}") with false.
  change (String.eqb tag "</b>") with false.
  change (String.eqb tag "{\b0}") with false.
  change (String.eqb tag "<i>") with false.
  change (String.eqb tag "{\i1}") with false.
  change (String.eqb tag "</i>") with false.
  change (String.eqb tag "{\i0}") with false.
  change (String.eqb tag "</font>") with false.
  change (String.eqb tag "{\c}") with false.
  change (String.eqb (substr tag 0 5) "<font") with false.
  cbv beta iota delta [orb andb].
  subst tag. rewrite curly_tag_c_str, curly_RegFind_groups by assumption.
  cbn [String.append]. rewrite hex2int_poly by assumption.
  f_equal. unfold byte_value. lia.
Qed.

Lemma curly_color_reverses_bytes_witness :
  apply_tag initial_tag_state (curly_color_tag "1" "2" "a" "b" "e" "f") =
    mk_tag_state false false 15706898.
Proof.
  exact (proj1 (curly_color_reverses_bytes initial_tag_state "1" "2" "a" "b" "e" "f"
                  eq_refl eq_refl eq_refl eq_refl eq_refl eq_refl)).
Defined.

(** ** The scan of a line terminates *)

Lemma skipn_string_add (a b : nat) (s : string) :
  skipn_string b (skipn_string a s) = skipn_string (a + b) s.
Proof.
  revert s; induction a as [|a IH]; intros s; [reflexivity|].
  destruct s as [|c s]; cbn [skipn_string Nat.add].
  - now destruct b.
  - apply IH.
Qed.

Lemma m_tags_at_nonempty (s : string) (len : nat) :
  m_tags_at s = Some len ->
  exists c s', s = String c s' /\ (2 <= len)%nat.
Proof.
  unfold m_tags_at. intros H.
  destruct s as [|c s]; [discriminate H|]. exists c, s. split; [reflexivity|].
  destruct c as [[] [] [] [] [] [] [] []]; try discriminate H.
  - destruct s as [|d s]; [discriminate H|].
    destruct d as [[] [] [] [] [] [] [] []]; try discriminate H.
    destruct (index_of "}" s); [|discriminate H]. injection H as <-. lia.
  - destruct (index_of ">" s); [|discriminate H]. injection H as <-. lia.
Qed.

Lemma m_tags_search_at (s : string) (off len : nat) :
  m_tags_search s = Some (off, len) ->
  m_tags_at (skipn_string off s) = Some len.
Proof.
  revert off; induction s as [|c s IH]; intros off H.
  - cbn in H. discriminate H.
  - cbn [m_tags_search] in H.
    destruct (m_tags_at (String c s)) as [l|] eqn:E.
    + injection H as <- <-. exact E.
    + destruct (m_tags_search s) as [[o l]|]; [|discriminate H].
      cbn in H. injection H as <- <-. cbn [skipn_string]. now apply IH.
Qed.

(** A successful [RegFind] reports an offset at or after [start] and a
    match that is not empty. *)
Lemma m_tags_RegFind_progress (str : string) (start pos1 : Z) (m : string) :
  m_tags_RegFind str start = (pos1, m) ->
  pos1 = -1 \/ (start <= pos1 /\ 1 <= strlen m).
Proof.
  unfold m_tags_RegFind. intros H.
  destruct ((start <? 0) || (strlen str <? start)) eqn:E.
  - injection H as <- _. now left.
  - destruct (m_tags_search (skipn_string (Z.to_nat start) str))
      as [[off len]|] eqn:S; [|injection H as <- _; now left].
    injection H as <- <-. right. split; [lia|].
    apply m_tags_search_at in S. rewrite skipn_string_add in S.
    destruct (m_tags_at_nonempty _ _ S) as (c & s' & -> & Hlen).
    destruct len as [|len]; [lia|]. cbn. unfold strlen. cbn. lia.
Qed.

Lemma to_lower_length (s : string) : String.length (to_lower s) = String.length s.
Proof. induction s; cbn; congruence. Qed.

(** With more fuel than characters left, the loop returns. *)
Lemma parse_line_loop_total (fuel : nat) (line : string) (st : tag_state)
    (pos old_pos : Z) (out : list SubtitleText) :
  (1 <= fuel)%nat ->
  strlen line - pos < Z.of_nat fuel ->
  exists r, parse_line_loop fuel line st pos old_pos out = Some r.
Proof.
  revert st pos old_pos out.
  induction fuel as [|fuel IH]; intros st pos old_pos out H1 H2; [lia|].
  cbn [parse_line_loop].
  destruct (pos <? strlen line) eqn:E; [|eexists; reflexivity].
  destruct (m_tags_RegFind (c_str line) pos) as [pos1 m] eqn:R.
  destruct (pos1 <? 0) eqn:E1; [eexists; reflexivity|].
  destruct (m_tags_RegFind_progress _ _ _ _ R) as [-> | [Hle Hm]];
    [discriminate E1|].
  apply IH; [lia|].
  unfold strlen in *. rewrite to_lower_length. lia.
Qed.

Lemma parse_line_returns (st : tag_state) (raw : string) :
  parse_line_loop (S (String.length (trim raw))) (trim raw) st 0 0 [] =
    Some (parse_line st raw).
Proof.
  unfold parse_line.
  destruct (parse_line_loop_total (S (String.length (trim raw))) (trim raw)
              st 0 0 []) as [r Hr]; [lia | unfold strlen; lia |].
  now rewrite Hr.
Qed.

(** ** Canvas geometry *)

Lemma and_not_15_spec (x : Z) : and_not_15 x = 16 * (x / 16).
Proof.
  unfold and_not_15. rewrite <- Z.ldiff_land.
  change 15 with (Z.ones 4). rewrite Z.ldiff_ones_r by lia.
  rewrite Z.shiftr_div_pow2, Z.shiftl_mul_pow2 by lia.
  change (2 ^ 4) with 16. lia.
Qed.

Lemma and_not_15_rem (x : Z) : Z.rem (and_not_15 x) 16 = 0.
Proof.
  rewrite and_not_15_spec. rewrite Z.mul_comm. apply Z.rem_mul. lia.
Qed.

(** Rounding down: the largest multiple of 16 that is at most [x]. *)
Lemma and_not_15_floor (x : Z) : and_not_15 x <= x < and_not_15 x + 16.
Proof. rewrite and_not_15_spec. Z.div_mod_to_equations. lia. Qed.

(** Rounding up: the least multiple of 16 that is at least [x]. *)
Lemma and_not_15_ceil (x : Z) : x <= and_not_15 (x + 15) < x + 16.
Proof. rewrite and_not_15_spec. Z.div_mod_to_equations. lia. Qed.

(** C3. For screen dimensions above 200, any font fraction and a maximum of
    one to four lines, the image height is a multiple of 16, namely
    [max_lines * line_height + 5] with [line_height = font_size + padding],
    rounded up to the next one, and the image width is a multiple of 16,
    namely [screen_width - 100] rounded down to the previous one.  (The two
    roundings are stated where the [int] arithmetic does not overflow.) *)
Theorem image_size_multiple_of_16
    (screen_width screen_height : Z) (r_font_size : float)
    (centered box_opacity : bool) (lines : Z) :
  200 < screen_width -> 200 < screen_height -> 1 <= lines <= 4 ->
  let g := SubtitleRenderer_new screen_width screen_height r_font_size
             centered box_opacity lines in
  let raw := lines * (m_font_size g + m_padding g) + 5 in
  m_max_lines g = lines /\
  Z.rem (m_image_height g) 16 = 0 /\
  Z.rem (m_image_width g) 16 = 0 /\
  (INT_MIN + 5 <= raw <= INT_MAX - 15 ->
   raw <= m_image_height g < raw + 16) /\
  (screen_width <= INT_MAX ->
   m_image_width g <= screen_width - 100 < m_image_width g + 16).
Proof.
  intros Hw Hh Hl g raw.
  assert (Em : m_max_lines g = lines).
  { change (m_max_lines g) with (wrap32 lines). apply wrap32_id.
    unfold in_range, INT_MIN, INT_MAX. lia. }
  assert (Eh : m_image_height g =
               and_not_15
                 (wrap32
                    (wrap32
                       (wrap32 (m_max_lines g *
                                wrap32 (m_font_size g + m_padding g)) + 5) + 15)))
    by reflexivity.
  assert (Ew : m_image_width g = and_not_15 (wrap32 (screen_width - 100)))
    by reflexivity.
  rewrite Ew. split; [exact Em|].
  split; [rewrite Eh; apply and_not_15_rem|].
  split; [apply and_not_15_rem|]. split.
  - intros Hr. rewrite Eh, Em. subst raw.
    unfold INT_MIN, INT_MAX in Hr. change (2 ^ 31) with 2147483648 in Hr.
    set (lh := m_font_size g + m_padding g) in *.
    assert (Blh : in_range lh)
      by (unfold in_range, INT_MIN, INT_MAX; nia).
    rewrite (wrap32_id lh) by exact Blh.
    rewrite (wrap32_id (lines * lh))
      by (unfold in_range, INT_MIN, INT_MAX; lia).
    rewrite (wrap32_id (lines * lh + 5))
      by (unfold in_range, INT_MIN, INT_MAX; lia).
    rewrite wrap32_id by (unfold in_range, INT_MIN, INT_MAX; lia).
    apply and_not_15_ceil.
  - intros Hr. rewrite wrap32_id.
    + apply and_not_15_floor.
    + unfold in_range, INT_MIN, INT_MAX in *. lia.
Qed.

Lemma image_size_multiple_of_16_witness :
  let g := SubtitleRenderer_new 1920 1080 (float_literal 55 1000) false false 3 in
  m_image_height g = 224 /\ Z.rem (m_image_height g) 16 = 0 /\
  m_image_width g = 1808 /\ Z.rem (m_image_width g) 16 = 0 /\
  3 * (59 + 14) + 5 <= m_image_height g < 3 * (59 + 14) + 5 + 16.
Proof.
  pose proof (image_size_multiple_of_16 1920 1080 (float_literal 55 1000)
                false false 3 ltac:(lia) ltac:(lia) ltac:(lia))
    as (_ & H1 & H2 & H3 & _).
  cbv zeta in H3.
  split; [reflexivity|]. split; [exact H1|]. split; [reflexivity|].
  split; [exact H2|].
  apply H3. vm_compute. split; discriminate.
Defined.

(** ** The frame life cycle: [show_next] *)

(** C10. When neither a text frame nor a bitmap frame is prepared,
    [show_next] does nothing: no layer receives image data, no layer is
    hidden, nothing is released, and still nothing is prepared. *)
Theorem show_next_idle_noop (s : renderer) :
  m_prepared_from_image s = false ->
  m_prepared_from_text s = false ->
  show_next s = s /\
  subtitleLayer (show_next s) = subtitleLayer s /\
  dvdSubLayer (show_next s) = dvdSubLayer s /\
  store (show_next s) = store s /\
  m_prepared_from_image (show_next s) = false /\
  m_prepared_from_text (show_next s) = false.
Proof.
  intros Hi Ht.
  assert (E : show_next s = s) by (unfold show_next; now rewrite Hi, Ht).
  rewrite E. repeat split; assumption || reflexivity.
Qed.

Lemma show_next_idle_noop_witness :
  show_next initial_renderer = initial_renderer /\
  subtitleLayer (show_next initial_renderer) = [] /\
  dvdSubLayer (show_next initial_renderer) = [].
Proof.
  destruct (show_next_idle_noop initial_renderer eq_refl eq_refl)
    as (H1 & H2 & H3 & _).
  repeat split; assumption.
Defined.

(** ** [unprepare] *)

Lemma unprepare_flags (s : renderer) :
  m_prepared_from_image (unprepare s) = false /\
  m_prepared_from_text (unprepare s) = false.
Proof.
  unfold unprepare.
  destruct (m_prepared_from_image s) eqn:Ei; cbn [m_prepared_from_text
    m_prepared_from_image];
    destruct (m_prepared_from_text s) eqn:Et; cbn; auto.
Qed.

Lemma unprepare_idle (s : renderer) :
  m_prepared_from_image s = false -> m_prepared_from_text s = false ->
  unprepare s = s.
Proof. intros Hi Ht. unfold unprepare. now rewrite Hi, Ht. Qed.

(** ** Bitmap placement *)

(** What [make_subtitle_image] does to the flag, by its two tests. *)
Lemma bitmap_flag (g : geometry) (sub_width sub_height : Z)
    (pixels : list Byte.byte) (s : renderer) :
  m_prepared_from_image (make_subtitle_image_bitmap g sub_width sub_height pixels s) =
    if bitmap_accepted g sub_width sub_height then true
    else m_prepared_from_image s.
Proof.
  unfold make_subtitle_image_bitmap, bitmap_accepted.
  destruct (exceeds_dimensions g sub_width sub_height); [reflexivity|].
  cbn [alloc negb andb].
  destruct (negative_padding g sub_width sub_height); reflexivity.
Qed.

Lemma bitmap_keeps_text_flag (g : geometry) (w h : Z) (px : list Byte.byte)
    (s : renderer) :
  m_prepared_from_text (make_subtitle_image_bitmap g w h px s) =
    m_prepared_from_text s.
Proof.
  unfold make_subtitle_image_bitmap.
  destruct (exceeds_dimensions g w h); [reflexivity|]. cbn [alloc].
  destruct (negative_padding g w h); reflexivity.
Qed.

(** A bitmap that fails the first test leaves every member as it was. *)
Lemma bitmap_exceeding_dimensions_unchanged (g : geometry)
    (sub_width sub_height : Z) (pixels : list Byte.byte) (s : renderer) :
  exceeds_dimensions g sub_width sub_height = true ->
  make_subtitle_image_bitmap g sub_width sub_height pixels s = s.
Proof. intros H. unfold make_subtitle_image_bitmap. now rewrite H. Qed.

(** A bitmap that passes the first test and fails the second is dropped
    after the block has been allocated: the block stays. *)
Lemma bitmap_negative_padding_allocates (g : geometry)
    (sub_width sub_height : Z) (pixels : list Byte.byte) (s : renderer) :
  exceeds_dimensions g sub_width sub_height = false ->
  negative_padding g sub_width sub_height = true ->
  let s' := make_subtitle_image_bitmap g sub_width sub_height pixels s in
  m_prepared_from_image s' = m_prepared_from_image s /\
  other_image_data s' = Some (next_handle (store s)) /\
  live (store s') =
    live (store s) ++
      [(next_handle (store s), Buffer (block_size g) [])].
Proof.
  intros H1 H2. unfold make_subtitle_image_bitmap. rewrite H1. cbn [alloc].
  rewrite H2. cbn. auto.
Qed.

(** C5, at a bitmap that the code can receive.  On the 1920x1080 geometry
    (scaled canvas 643x113, scaled padding 7) a bitmap of 1x113 pixels passes
    the test on the dimensions, so the block is allocated, and then fails the
    test on the paddings ([top_padding = -7]): no frame is marked prepared,
    yet the renderer is not what it was, and one block more is allocated,
    which [unprepare] does not release. *)
Theorem bitmap_rejected_after_malloc :
  let g := hd_geometry false false 3 in
  let s' := make_subtitle_image_bitmap g 1 113 (repeat Byte.x01 113)
              initial_renderer in
  top_padding g 113 = -7 /\
  bitmap_accepted g 1 113 = false /\
  m_prepared_from_image s' = false /\
  s' <> initial_renderer /\
  other_image_data s' = Some O /\
  live (store s') = [(O, Buffer (643 * 113) [])] /\
  frame_resources (store initial_renderer) = 0%nat /\
  frame_resources (store s') = 1%nat /\
  frame_resources (store (unprepare s')) = 1%nat.
Proof.
  cbv zeta.
  destruct (bitmap_negative_padding_allocates (hd_geometry false false 3) 1 113
              (repeat Byte.x01 113) initial_renderer eq_refl eq_refl)
    as (F & P & L).
  cbv zeta in F, P, L.
  split; [reflexivity|]. split; [reflexivity|]. split; [exact F|].
  split; [intros E; rewrite E in P; discriminate P|].
  split; [exact P|]. split; [exact L|]. split; [reflexivity|].
  split; [unfold frame_resources; rewrite L; reflexivity|].
  rewrite unprepare_idle by (exact F || apply bitmap_keeps_text_flag).
  unfold frame_resources. rewrite L. reflexivity.
Qed.

(** The first test bounds the width of a bitmap that is taken. *)
Lemma bitmap_accepted_width (g : geometry) (sub_width sub_height : Z) :
  bitmap_accepted g sub_width sub_height = true ->
  1 <= sub_width <= m_scaled_image_width g.
Proof.
  unfold bitmap_accepted, exceeds_dimensions. intros H.
  apply andb_true_iff in H. destruct H as [H _].
  apply negb_true_iff in H. lia.
Qed.

(** C6, as the code has it.  For a bitmap that is taken, the left padding is
    [scaled_width/2 - sub_width/2], the right padding is what remains, the
    three widths add up to the scaled width, and the two paddings differ by
    at most one: when the slack is odd the extra pixel is on the right if
    the scaled width is odd and on the left if it is even (so the bitmap's
    width is odd); when the slack is even they are equal. *)
Theorem bitmap_horizontal_padding (g : geometry) (sub_width sub_height : Z) :
  in_range (m_scaled_image_width g) ->
  bitmap_accepted g sub_width sub_height = true ->
  let sw := m_scaled_image_width g in
  let l := left_padding g sub_width in
  let r := right_padding g sub_width in
  l = Z.quot sw 2 - Z.quot sub_width 2 /\
  r = sw - sub_width - l /\
  l + sub_width + r = sw /\
  0 <= l /\ 0 <= r /\
  (Z.odd (sw - sub_width) = true ->
   if Z.odd sw then r = l + 1 else l = r + 1) /\
  (Z.odd (sw - sub_width) = false -> r = l).
Proof.
  intros Hr Ha sw l r.
  pose proof (bitmap_accepted_width _ _ _ Ha) as Hw. fold sw in Hw.
  unfold in_range, INT_MIN, INT_MAX in Hr. fold sw in Hr.
  assert (El : l = Z.quot sw 2 - Z.quot sub_width 2).
  { subst l. unfold left_padding. fold sw.
    rewrite !Z.quot_div_nonneg by lia.
    apply wrap32_id. unfold in_range, INT_MIN, INT_MAX.
    Z.div_mod_to_equations. lia. }
  assert (Er : r = sw - sub_width - l).
  { subst r. unfold right_padding. fold sw. fold l. rewrite El.
    rewrite !Z.quot_div_nonneg by lia.
    rewrite (wrap32_id (sw - sub_width))
      by (unfold in_range, INT_MIN, INT_MAX; lia).
    apply wrap32_id. unfold in_range, INT_MIN, INT_MAX.
    Z.div_mod_to_equations. lia. }
  rewrite !Z.quot_div_nonneg in El by lia.
  pose proof (Zmod_odd sw) as Osw.
  pose proof (Zmod_odd (sw - sub_width)) as Osl.
  repeat split.
  - rewrite !Z.quot_div_nonneg by lia. exact El.
  - exact Er.
  - lia.
  - Z.div_mod_to_equations. lia.
  - Z.div_mod_to_equations. lia.
  - intros Ho. rewrite Ho in Osl. destruct (Z.odd sw);
      Z.div_mod_to_equations; lia.
  - intros Ho. rewrite Ho in Osl. Z.div_mod_to_equations. lia.
Qed.

Lemma bitmap_horizontal_padding_witness :
  let g := hd_geometry false false 3 in
  left_padding g 100 = 271 /\ right_padding g 100 = 272 /\
  left_padding g 100 + 100 + right_padding g 100 = 643.
Proof.
  cbv zeta.
  assert (R : in_range (m_scaled_image_width (hd_geometry false false 3))).
  { unfold in_range, INT_MIN, INT_MAX. vm_compute. split; discriminate. }
  destruct (bitmap_horizontal_padding (hd_geometry false false 3) 100 50 R
              eq_refl) as (_ & _ & H3 & _).
  split; [reflexivity|]. split; [reflexivity|]. exact H3.
Defined.

(** C6 as it is worded fails on the 1366x768 geometry (scaled canvas
    632x125): a bitmap of 101x20 pixels is taken, the slack of 531 pixels is
    odd, and the extra pixel is on the left ([266] against [265]). *)
Lemma odd_slack_extra_pixel_on_the_left :
  let g := wxga_geometry false false 3 in
  m_scaled_image_width g = 632 /\
  bitmap_accepted g 101 20 = true /\
  Z.odd (m_scaled_image_width g - 101) = true /\
  left_padding g 101 = 266 /\
  right_padding g 101 = 265 /\
  right_padding g 101 <> left_padding g 101 + 1.
Proof.
  cbv zeta. repeat split; try reflexivity. vm_compute. discriminate.
Qed.

(** ** The frame life cycle: exclusivity *)

Lemma text_flags (cairo : text_backend) (g : geometry)
    (parsed_lines : list (list SubtitleText)) (s : renderer) :
  m_prepared_from_image (make_subtitle_image_text cairo g parsed_lines s) =
    m_prepared_from_image s /\
  m_prepared_from_text (make_subtitle_image_text cairo g parsed_lines s) =
    (snd (draw_subtitle cairo g parsed_lines) || m_prepared_from_text s).
Proof.
  unfold make_subtitle_image_text. cbn [alloc].
  destruct (draw_subtitle cairo g parsed_lines) as [d []]; cbn; auto.
Qed.

(** After any one call the two flags are not both set. *)
Lemma step_exclusive (cairo : text_backend) (g : geometry) (s : renderer)
    (c : call) :
  m_prepared_from_image s && m_prepared_from_text s = false ->
  m_prepared_from_image (step cairo g s c) &&
  m_prepared_from_text (step cairo g s c) = false.
Proof.
  intros H.
  destruct (unprepare_flags s) as [Ui Ut].
  destruct c as [sub | lines | | |]; cbn [step].
  - unfold prepare. destruct (isImage sub).
    + rewrite bitmap_keeps_text_flag, Ut. apply andb_false_r.
    + unfold parse_lines.
      destruct (text_flags cairo g (formatted_lines (text_lines sub))
                  (unprepare s)) as [-> _].
      now rewrite Ui.
  - unfold prepare_lines, parse_lines.
    destruct (text_flags cairo g (formatted_lines lines) (unprepare s))
      as [-> _].
    now rewrite Ui.
  - unfold show_next.
    destruct (m_prepared_from_image s) eqn:Ei.
    + match goal with |- context [unprepare ?x] =>
        destruct (unprepare_flags x) as [-> _] end. reflexivity.
    + destruct (m_prepared_from_text s) eqn:Et.
      * match goal with |- context [unprepare ?x] =>
          destruct (unprepare_flags x) as [-> _] end. reflexivity.
      * now rewrite Ei.
  - exact H.
  - now rewrite Ui.
Qed.

(** Every sequence of calls ends in a reachable state. *)
Lemma run_reachable (cairo : text_backend) (g : geometry) (calls : list call) :
  reachable cairo g (run cairo g calls).
Proof.
  unfold run. generalize (reachable_initial cairo g).
  generalize initial_renderer.
  induction calls as [|c calls IH]; intros s Hs; [exact Hs|].
  cbn [fold_left]. apply IH. now constructor.
Qed.

Lemma reachable_exclusive (cairo : text_backend) (g : geometry) (s : renderer) :
  reachable cairo g s ->
  m_prepared_from_image s && m_prepared_from_text s = false.
Proof.
  induction 1 as [|s c _ IH]; [reflexivity|]. now apply step_exclusive.
Qed.

(** *** The store *)

Lemma heap_ok_alloc (h : heap) (r : resource) :
  heap_ok h -> heap_ok (snd (alloc h r)).
Proof.
  unfold heap_ok, alloc. cbn. intros H. apply Forall_app. split.
  - eapply Forall_impl; [|exact H]. cbn. intros; lia.
  - constructor; [cbn; lia | constructor].
Qed.

Lemma heap_ok_release (h : heap) (p : option nat) :
  heap_ok h -> heap_ok (release h p).
Proof.
  unfold heap_ok. destruct p as [n|]; cbn; [|auto]. intros H.
  apply Forall_forall. intros e He. apply filter_In in He.
  rewrite Forall_forall in H. now apply H.
Qed.

Lemma heap_ok_update (h : heap) (n : nat) (r : resource) :
  heap_ok h -> heap_ok (update h n r).
Proof.
  unfold heap_ok, update. cbn. intros H.
  apply Forall_forall. intros e He. apply in_map_iff in He.
  destruct He as (e' & <- & He'). rewrite Forall_forall in H.
  specialize (H e' He').
  destruct (Nat.eqb (fst e') n) eqn:E; [apply Nat.eqb_eq in E; cbn; lia | exact H].
Qed.

(** Entries below [n] are untouched by an update or a release at [n] or
    above. *)
Lemma map_update_below (l : list (nat * resource)) (n : nat) (r : resource) :
  Forall (fun e => (fst e < n)%nat) l ->
  map (fun e => if Nat.eqb (fst e) n then (n, r) else e) l = l.
Proof.
  induction 1 as [|e l He _ IH]; [reflexivity|]. cbn. rewrite IH.
  destruct (Nat.eqb_spec (fst e) n); [lia | reflexivity].
Qed.

Lemma filter_release_below (l : list (nat * resource)) (n m : nat) :
  (n <= m)%nat ->
  Forall (fun e => (fst e < n)%nat) l ->
  filter (fun e => negb (Nat.eqb (fst e) m)) l = l.
Proof.
  intros Hnm. induction 1 as [|e l He _ IH]; [reflexivity|]. cbn. rewrite IH.
  destruct (Nat.eqb_spec (fst e) m); [lia | reflexivity].
Qed.

(** *** What each function does to the store *)

Lemma text_store (cairo : text_backend) (g : geometry)
    (parsed_lines : list (list SubtitleText)) (s : renderer) :
  heap_ok (store s) ->
  let s' := make_subtitle_image_text cairo g parsed_lines s in
  let n := next_handle (store s) in
  live (store s') =
    live (store s) ++
      [(n, Surface (m_image_width g) (m_image_height g)
             (ops (fst (draw_subtitle cairo g parsed_lines))));
       (S n, Context n)] /\
  next_handle (store s') = S (S n) /\
  m_surface s' = Some n /\ m_cr s' = Some (S n).
Proof.
  intros Hok. unfold make_subtitle_image_text. cbn [alloc].
  destruct (draw_subtitle cairo g parsed_lines) as [d fin]. cbn [fst].
  assert (E : map (fun e => if Nat.eqb (fst e) (next_handle (store s))
                            then (next_handle (store s),
                                  Surface (m_image_width g) (m_image_height g)
                                    (ops d))
                            else e)
                ((live (store s) ++
                   [(next_handle (store s),
                     Surface (m_image_width g) (m_image_height g) [])]) ++
                 [(S (next_handle (store s)), Context (next_handle (store s)))]) =
              live (store s) ++
                [(next_handle (store s),
                  Surface (m_image_width g) (m_image_height g) (ops d));
                 (S (next_handle (store s)), Context (next_handle (store s)))]).
  { rewrite <- app_assoc. rewrite map_app, map_update_below by exact Hok.
    cbn [map fst app]. rewrite Nat.eqb_refl.
    replace (Nat.eqb (S (next_handle (store s))) (next_handle (store s)))
      with false by (symmetry; apply Nat.eqb_neq; lia).
    reflexivity. }
  destruct fin; cbn; rewrite E; auto.
Qed.

Lemma bitmap_store (g : geometry) (w h : Z) (px : list Byte.byte) (s : renderer) :
  heap_ok (store s) ->
  bitmap_accepted g w h = true ->
  let s' := make_subtitle_image_bitmap g w h px s in
  exists data,
    live (store s') =
      live (store s) ++
        [(next_handle (store s), Buffer (block_size g) data)] /\
    other_image_data s' = Some (next_handle (store s)).
Proof.
  intros Hok Ha. unfold bitmap_accepted in Ha.
  apply andb_true_iff in Ha. destruct Ha as [H1 H2].
  apply negb_true_iff in H1. apply negb_true_iff in H2.
  unfold make_subtitle_image_bitmap. rewrite H1. cbn [alloc]. rewrite H2.
  eexists. cbn. split; [|reflexivity].
  rewrite map_app, map_update_below by exact Hok.
  cbn [map fst]. now rewrite Nat.eqb_refl.
Qed.

(** Releasing a text frame that sits on top of the store gives back the
    store below it. *)
Lemma unprepare_text_frame (s : renderer) (l : list (nat * resource))
    (n : nat) (sf : resource) :
  m_prepared_from_image s = false ->
  m_prepared_from_text s = true ->
  m_surface s = Some n -> m_cr s = Some (S n) ->
  live (store s) = l ++ [(n, sf); (S n, Context n)] ->
  Forall (fun e => (fst e < n)%nat) l ->
  live (store (unprepare s)) = l.
Proof.
  intros Hi Ht Hs Hc Hl Hlow. unfold unprepare. rewrite Hi, Ht. cbn.
  rewrite Hc, Hs. cbn. rewrite Hl.
  rewrite !filter_app.
  rewrite (filter_release_below l n (S n)) by (lia || assumption).
  cbn [filter fst]. rewrite Nat.eqb_refl.
  replace (Nat.eqb n (S n)) with false by (symmetry; apply Nat.eqb_neq; lia).
  cbn [negb]. rewrite (filter_release_below l n n) by (lia || assumption).
  cbn [filter fst]. rewrite Nat.eqb_refl. cbn [negb]. apply app_nil_r.
Qed.

Lemma unprepare_heap_ok (s : renderer) :
  heap_ok (store s) -> heap_ok (store (unprepare s)).
Proof.
  intros H. unfold unprepare.
  destruct (m_prepared_from_image s); cbn;
    destruct (m_prepared_from_text s); cbn; auto using heap_ok_release.
Qed.

Lemma bitmap_heap_ok (g : geometry) (w h : Z) (px : list Byte.byte) (s : renderer) :
  heap_ok (store s) -> heap_ok (store (make_subtitle_image_bitmap g w h px s)).
Proof.
  intros H. unfold make_subtitle_image_bitmap.
  destruct (exceeds_dimensions g w h); [exact H|]. cbn [alloc].
  destruct (negative_padding g w h); cbn.
  - exact (heap_ok_alloc _ (Buffer _ []) H).
  - apply (heap_ok_update (snd (alloc (store s) (Buffer _ [])))).
    now apply heap_ok_alloc.
Qed.

Lemma text_heap_ok (cairo : text_backend) (g : geometry)
    (parsed_lines : list (list SubtitleText)) (s : renderer) :
  heap_ok (store s) ->
  heap_ok (store (make_subtitle_image_text cairo g parsed_lines s)).
Proof.
  intros H. unfold make_subtitle_image_text. cbn [alloc].
  destruct (draw_subtitle cairo g parsed_lines) as [d fin].
  assert (K : heap_ok
    (update (snd (alloc (snd (alloc (store s)
               (Surface (m_image_width g) (m_image_height g) [])))
               (Context (next_handle (store s)))))
       (next_handle (store s))
       (Surface (m_image_width g) (m_image_height g) (ops d)))).
  { apply heap_ok_update. now do 2 apply heap_ok_alloc. }
  destruct fin; exact K.
Qed.

Lemma reachable_heap_ok (cairo : text_backend) (g : geometry) (s : renderer) :
  reachable cairo g s -> heap_ok (store s).
Proof.
  induction 1 as [|s c _ IH]; [constructor|].
  destruct c as [sub | lines | | |]; cbn [step].
  - unfold prepare. destruct (isImage sub).
    + now apply bitmap_heap_ok, unprepare_heap_ok.
    + now apply text_heap_ok, unprepare_heap_ok.
  - now apply text_heap_ok, unprepare_heap_ok.
  - unfold show_next.
    destruct (m_prepared_from_image s); [now apply unprepare_heap_ok|].
    destruct (m_prepared_from_text s); [now apply unprepare_heap_ok | exact IH].
  - exact IH.
  - now apply unprepare_heap_ok.
Qed.

(** C8 fails in the code.  The two flags are never both set (lemma
    [reachable_exclusive]), but the resources of a frame can outlive it.
    On the 1920x1080 geometry, with a shaper that refuses malformed UTF-8
    as cairo does, [prepare] with a text line that holds the byte 255
    returns from [make_subtitle_image] at the failed shaping: the surface
    and the context are allocated but no flag is set.
    The following [prepare] with a 2x1 bitmap starts with [unprepare], which
    releases nothing because no flag is set, and allocates the block: two
    frame resources are held, not one, and neither [unprepare] nor
    [show_next] ever releases the surface.  With a line that cairo shapes
    the same two calls leave one frame resource, as the claim says. *)
Theorem text_then_bitmap_holds_two_frames :
  let cairo := fixed_pitch 30 in
  let g := hd_geometry false false 3 in
  let bitmap := bitmap_subtitle 2 1 [Byte.x01; Byte.x02] in
  let s1 := prepare_lines cairo g [latin1_line] initial_renderer in
  let s2 := prepare cairo g bitmap s1 in
  let t1 := prepare_lines cairo g ["Hi"%string] initial_renderer in
  let t2 := prepare cairo g bitmap t1 in
  (m_prepared_from_image s1 = false /\ m_prepared_from_text s1 = false /\
   frame_resources (store s1) = 1%nat) /\
  (bitmap_accepted g 2 1 = true /\
   m_prepared_from_image s2 = true /\ m_prepared_from_text s2 = false /\
   frame_resources (store s2) = 2%nat /\
   map fst (live (store s2)) = [0%nat; 1%nat; 2%nat] /\
   lookup (store s2) (Some 0%nat) =
     Some (Surface 1808 224 [cairo_set_scaled_font NORMAL_FONT]) /\
   lookup (store s2) (Some 1%nat) = Some (Context 0) /\
   other_image_data s2 = Some 2%nat) /\
  (frame_resources (store (unprepare s2)) = 1%nat /\
   frame_resources (store (show_next s2)) = 1%nat /\
   lookup (store (show_next s2)) (Some 0%nat) =
     Some (Surface 1808 224 [cairo_set_scaled_font NORMAL_FONT])) /\
  (m_prepared_from_text t1 = true /\
   frame_resources (store t1) = 1%nat /\
   m_prepared_from_image t2 = true /\ m_prepared_from_text t2 = false /\
   frame_resources (store t2) = 1%nat /\
   frame_resources (store (show_next t2)) = 0%nat).
Proof. vm_compute. repeat split; reflexivity. Qed.

(** ** Line layout: which runs are drawn *)

Lemma glyph_paths_app (a b : list cairo_op) :
  glyph_paths (a ++ b) = glyph_paths a ++ glyph_paths b.
Proof.
  induction a as [|op a IH]; [reflexivity|].
  destruct op; cbn; rewrite IH; reflexivity.
Qed.

Lemma set_font_paths (f : font_type) (d : drawing) :
  glyph_paths (ops (set_font f d)) = glyph_paths (ops d).
Proof.
  unfold set_font. destruct (m_current_font d) as [f'|];
    [destruct (font_type_eqb f f')|]; cbn; try reflexivity;
    rewrite glyph_paths_app; cbn; apply app_nil_r.
Qed.

Lemma set_color_paths (c : Z) (d : drawing) :
  glyph_paths (ops (set_color c d)) = glyph_paths (ops d).
Proof.
  unfold set_color. destruct (c =? m_color d); [reflexivity|]. cbn.
  rewrite glyph_paths_app.
  destruct (c =? -1); [cbn; apply app_nil_r|].
  destruct (c =? -2); [cbn; apply app_nil_r|].
  destruct (c =? 0); cbn; apply app_nil_r.
Qed.

Lemma emit_paths (op : cairo_op) (d : drawing) :
  glyph_paths (ops (emit op d)) = glyph_paths (ops d) ++ glyph_paths [op].
Proof. unfold emit. cbn. apply glyph_paths_app. Qed.

Section LayoutFacts.

Variable cairo : text_backend.
Variable g : geometry.

(** Shaping draws nothing. *)
Lemma shape_runs_paths (runs : list SubtitleText) (cy cx bw : Z) (d : drawing) :
  glyph_paths (ops (fst (shape_runs cairo g runs cy cx bw d))) =
    glyph_paths (ops d).
Proof.
  revert cx bw d. induction runs as [|r runs IH]; intros cx bw d;
    [reflexivity|]. cbn [shape_runs].
  destruct (text_to_glyphs cairo (font r) _ _ _) as [gl|];
    [|cbn; apply set_font_paths].
  specialize (IH (add_advance cx (x_advance cairo (font r) gl))
                 (add_advance bw (x_advance cairo (font r) gl))
                 (set_font (font r) d)).
  destruct (shape_runs cairo g runs cy _ _ _) as [d2 [[[gls cx'] bw']|]];
    cbn [fst] in *; rewrite IH; apply set_font_paths.
Qed.

(** A finished shaping has one glyph array for each run. *)
Lemma shape_runs_length (runs : list SubtitleText) (cy cx bw : Z) (d : drawing)
    (gls : list (list glyph)) (cx' bw' : Z) :
  snd (shape_runs cairo g runs cy cx bw d) = Some (gls, cx', bw') ->
  List.length gls = List.length runs.
Proof.
  revert cx bw d gls cx' bw'.
  induction runs as [|r runs IH]; intros cx bw d gls cx' bw' H.
  - cbn in H. injection H as <- _ _. reflexivity.
  - cbn [shape_runs] in H.
    destruct (text_to_glyphs cairo (font r) _ _ _) as [gl|];
      [|discriminate H].
    specialize (IH (add_advance cx (x_advance cairo (font r) gl))
                   (add_advance bw (x_advance cairo (font r) gl))
                   (set_font (font r) d)).
    destruct (shape_runs cairo g runs cy _ _ _) as [d2 [[[gls2 cx2] bw2]|]];
      [|discriminate H].
    cbn [snd] in *. injection H as <- _ _. cbn. f_equal. eapply IH. reflexivity.
Qed.

(** Shaping finishes when every run can be shaped. *)
Lemma shape_runs_succeeds (runs : list SubtitleText) (cy cx bw : Z) (d : drawing) :
  (forall r, In r runs -> shapes cairo r) ->
  snd (shape_runs cairo g runs cy cx bw d) <> None.
Proof.
  revert cx bw d. induction runs as [|r runs IH]; intros cx bw d H;
    [discriminate|]. cbn [shape_runs].
  pose proof (H r (or_introl eq_refl)
                (wrap32 (cx + m_padding g))
                (wrap32 (cy - Z.quot (m_padding g) 4))) as Hr.
  destruct (text_to_glyphs cairo (font r) _ _ _) as [gl|]; [|contradiction].
  specialize (IH (add_advance cx (x_advance cairo (font r) gl))
                 (add_advance bw (x_advance cairo (font r) gl))
                 (set_font (font r) d)
                 (fun r' Hr' => H r' (or_intror Hr'))).
  destruct (shape_runs cairo g runs cy _ _ _) as [d2 [[[gls2 cx2] bw2]|]];
    [discriminate | exact IH].
Qed.

(** The drawing loop hands every run to [cairo_glyph_path], in order. *)
Lemma draw_runs_paths (i j : nat) (runs : list SubtitleText)
    (gls : list (list glyph)) (d : drawing) :
  List.length gls = List.length runs ->
  glyph_paths (ops (draw_runs i j runs gls d)) =
    glyph_paths (ops d) ++ map (fun j' => (i, j')) (seq j (List.length runs)).
Proof.
  revert j gls d. induction runs as [|r runs IH]; intros j gls d H.
  - cbn. symmetry. apply app_nil_r.
  - destruct gls as [|gl gls]; [discriminate H|]. cbn [draw_runs].
    rewrite IH by (cbn in H; lia).
    rewrite emit_paths, set_color_paths, set_font_paths.
    cbn. now rewrite <- app_assoc.
Qed.

(** One line: either the whole line is drawn, or the layout stops and
    nothing of the line is drawn. *)
Lemma layout_line_paths (i : nat) (runs : list SubtitleText) (cy : Z)
    (d : drawing) :
  glyph_paths (ops (fst (layout_line cairo g i runs cy d))) =
    glyph_paths (ops d) ++
      (if snd (layout_line cairo g i runs cy d)
       then map (fun j => (i, j)) (seq 0 (List.length runs)) else []).
Proof.
  unfold layout_line.
  pose proof (shape_runs_paths runs cy (left_aligned_margin g)
                (wrap32 (m_padding g * 2)) d) as P.
  pose proof (shape_runs_length runs cy (left_aligned_margin g)
                (wrap32 (m_padding g * 2)) d) as L.
  destruct (shape_runs cairo g runs cy _ _ d) as [d1 [[[gls cx] bw]|]];
    cbn [fst snd] in *; [|rewrite P; symmetry; apply app_nil_r].
  specialize (L gls cx bw eq_refl).
  rewrite emit_paths, emit_paths, set_color_paths, emit_paths.
  rewrite draw_runs_paths
    by (destruct (m_centered g); [rewrite length_map|]; exact L).
  destruct (m_ghost_box g);
    [rewrite emit_paths, emit_paths, set_color_paths|];
    rewrite P; cbn; now rewrite !app_nil_r.
Qed.

Lemma layout_line_succeeds (i : nat) (runs : list SubtitleText) (cy : Z)
    (d : drawing) :
  (forall r, In r runs -> shapes cairo r) ->
  snd (layout_line cairo g i runs cy d) = true.
Proof.
  intros H. unfold layout_line.
  pose proof (shape_runs_succeeds runs cy (left_aligned_margin g)
                (wrap32 (m_padding g * 2)) d H) as S.
  destruct (shape_runs cairo g runs cy _ _ d) as [d1 [[[gls cx] bw]|]];
    [reflexivity | contradiction].
Qed.

(** The loop over the lines draws the lines [n - 1] down to some line [m]
    in full and nothing else; it reaches line 0 when it finishes. *)
Lemma layout_lines_paths (parsed_lines : list (list SubtitleText)) (n : nat)
    (cy : Z) (d : drawing) :
  exists m, (m <= n)%nat /\
    glyph_paths (ops (fst (layout_lines cairo g parsed_lines n cy d))) =
      glyph_paths (ops d) ++
        flat_map (runs_of_line parsed_lines) (rev (seq m (n - m))) /\
    (snd (layout_lines cairo g parsed_lines n cy d) = true -> m = O).
Proof.
  revert cy d. induction n as [|i IH]; intros cy d.
  - exists O. cbn. rewrite app_nil_r. auto.
  - cbn [layout_lines].
    pose proof (layout_line_paths i (nth i parsed_lines []) cy d) as P.
    destruct (layout_line cairo g i (nth i parsed_lines []) cy d)
      as [d1 [|]]; cbn [fst snd] in P.
    + destruct (IH (wrap32 (cy - wrap32 (m_font_size g + m_padding g))) d1)
        as (m & Hm & Hp & Hz).
      exists m. split; [lia|]. split; [|exact Hz].
      rewrite Hp, P.
      replace (S i - m)%nat with (S (i - m)) by lia.
      rewrite seq_S, rev_app_distr. cbn [rev app flat_map].
      replace (m + (i - m))%nat with i by lia.
      unfold runs_of_line at 3. now rewrite <- app_assoc.
    + exists (S i). split; [lia|]. split; [|discriminate].
      cbn [fst]. rewrite P. now rewrite Nat.sub_diag.
Qed.

Lemma layout_lines_succeeds (parsed_lines : list (list SubtitleText)) (n : nat)
    (cy : Z) (d : drawing) :
  (forall i r, (i < n)%nat -> In r (nth i parsed_lines []) -> shapes cairo r) ->
  snd (layout_lines cairo g parsed_lines n cy d) = true.
Proof.
  revert cy d. induction n as [|i IH]; intros cy d H; [reflexivity|].
  cbn [layout_lines].
  pose proof (layout_line_succeeds i (nth i parsed_lines []) cy d
                (fun r Hr => H i r (Nat.lt_succ_diag_r i) Hr)) as S.
  destruct (layout_line cairo g i (nth i parsed_lines []) cy d) as [d1 ok].
  cbn [snd] in S. subst ok. apply IH. intros i' r Hi. apply H. lia.
Qed.

End LayoutFacts.

Lemma in_runs_of_first_lines (parsed_lines : list (list SubtitleText))
    (m k i j : nat) :
  In (i, j) (flat_map (runs_of_line parsed_lines) (rev (seq m (k - m)))) ->
  (m <= i < k)%nat /\ (j < List.length (nth i parsed_lines []))%nat.
Proof.
  intros H. apply in_flat_map in H. destruct H as (i' & Hi' & Hj).
  apply in_rev in Hi'. apply in_seq in Hi'.
  unfold runs_of_line in Hj. apply in_map_iff in Hj.
  destruct Hj as (j' & E & Hj'). injection E as <- <-.
  apply in_seq in Hj'. lia.
Qed.

Lemma parse_text_lines_length (st : tag_state) (text_lines : list string) :
  List.length (parse_text_lines st text_lines) = List.length text_lines.
Proof.
  revert st. induction text_lines as [|raw rest IH]; intros st; [reflexivity|].
  cbn [parse_text_lines]. destruct (parse_line st raw) as [st' runs].
  cbn. now rewrite IH.
Qed.

(** The runs of a line do not depend on the lines after it. *)
Lemma parse_text_lines_firstn (k : nat) (st : tag_state) (text_lines : list string) :
  parse_text_lines st (firstn k text_lines) =
    firstn k (parse_text_lines st text_lines).
Proof.
  revert st text_lines. induction k as [|k IH]; intros st text_lines;
    [reflexivity|].
  destruct text_lines as [|raw rest]; [reflexivity|].
  cbn [firstn parse_text_lines]. destruct (parse_line st raw) as [st' runs].
  cbn [firstn]. now rewrite IH.
Qed.

Lemma no_of_lines_min (g : geometry) (parsed_lines : list (list SubtitleText)) :
  no_of_lines g parsed_lines =
    Z.min (Z.of_nat (List.length parsed_lines)) (m_max_lines g).
Proof. unfold no_of_lines. destruct (Z.gtb_spec (Z.of_nat (List.length parsed_lines)) (m_max_lines g)); lia. Qed.

(** What [show_next] hands to the text layer after [prepare] on a fresh
    renderer: the finished drawing, or nothing when the layout stopped. *)
Lemma prepare_lines_shown (cairo : text_backend) (g : geometry)
    (text_lines : list string) :
  subtitleLayer (show_next (prepare_lines cairo g text_lines initial_renderer)) =
    if snd (draw_subtitle cairo g (formatted_lines text_lines))
    then [setImageData (Some O)
            (Some (Surface (m_image_width g) (m_image_height g)
                     (ops (fst (draw_subtitle cairo g
                                  (formatted_lines text_lines))))))]
    else [].
Proof.
  unfold prepare_lines, parse_lines, make_subtitle_image_text.
  change (unprepare initial_renderer) with initial_renderer.
  destruct (draw_subtitle cairo g (formatted_lines text_lines)) as [d [|]];
    reflexivity.
Qed.

(** C4, as the code has it.  With [n] input lines and a maximum of [m],
    only runs of the first [min n m] lines are ever drawn, each at most
    once per run of its line; they are all drawn, last line first, whenever
    the layout reaches its end, which it does when glyph preparation
    succeeds for every run of those lines.  The drawing that [show_next]
    delivers is this one, and nothing is delivered when the layout stopped. *)
Theorem first_lines_rendered (cairo : text_backend) (g : geometry)
    (text_lines : list string) :
  let parsed := formatted_lines text_lines in
  let k := Z.to_nat (Z.min (Z.of_nat (List.length text_lines)) (m_max_lines g)) in
  let drawn := glyph_paths (ops (fst (draw_subtitle cairo g parsed))) in
  let finished := snd (draw_subtitle cairo g parsed) in
  List.length parsed = List.length text_lines /\
  firstn k parsed = formatted_lines (firstn k text_lines) /\
  m_prepared_from_text (prepare_lines cairo g text_lines initial_renderer) =
    finished /\
  subtitleLayer (show_next (prepare_lines cairo g text_lines initial_renderer)) =
    (if finished
     then [setImageData (Some O)
             (Some (Surface (m_image_width g) (m_image_height g)
                      (ops (fst (draw_subtitle cairo g parsed)))))]
     else []) /\
  (forall i j, In (i, j) drawn ->
     (i < k)%nat /\ (j < List.length (nth i parsed []))%nat) /\
  (finished = true -> drawn = runs_of_first_lines parsed k) /\
  ((forall i r, (i < k)%nat -> In r (nth i parsed []) -> shapes cairo r) ->
   finished = true /\ drawn = runs_of_first_lines parsed k).
Proof.
  intros parsed k drawn finished.
  assert (Hlen : List.length parsed = List.length text_lines)
    by apply parse_text_lines_length.
  assert (Hk : Z.to_nat (no_of_lines g parsed) = k).
  { rewrite no_of_lines_min, Hlen. reflexivity. }
  destruct (layout_lines_paths cairo g parsed k
              (wrap32 (m_image_height g - m_padding g))
              (mk_drawing None (-500) [])) as (m & Hm & Hp & Hz).
  assert (Hd : drawn =
               flat_map (runs_of_line parsed) (rev (seq m (k - m)))).
  { subst drawn. unfold draw_subtitle. rewrite Hk. exact Hp. }
  assert (Hf : finished = true -> drawn = runs_of_first_lines parsed k).
  { intros F. subst finished. unfold draw_subtitle in F. rewrite Hk in F.
    rewrite Hd, (Hz F), Nat.sub_0_r. reflexivity. }
  split; [exact Hlen|]. split.
  { symmetry. apply parse_text_lines_firstn. } split.
  { unfold prepare_lines, parse_lines.
    destruct (text_flags cairo g (formatted_lines text_lines)
                (unprepare initial_renderer)) as [_ ->].
    cbn. apply orb_false_r. } split.
  { apply prepare_lines_shown. } split.
  { intros i j Hin. rewrite Hd in Hin.
    apply in_runs_of_first_lines in Hin. lia. } split; [exact Hf|].
  intros Hs.
  assert (F : finished = true).
  { subst finished. unfold draw_subtitle. rewrite Hk.
    now apply layout_lines_succeeds. }
  split; [exact F | exact (Hf F)].
Qed.

Lemma fixed_pitch_shapes_ascii (pitch : Z) (r : SubtitleText) :
  forallb utf8_byte (list_ascii_of_string (c_str (text r))) = true ->
  shapes (fixed_pitch pitch) r.
Proof. intros H x y. cbn. now rewrite H. Qed.

Lemma first_lines_rendered_witness :
  let cairo := fixed_pitch 30 in
  let g := hd_geometry false false 2 in
  let text_lines := ["one"; "<i>two</i> 2"; "three"; "four"]%string in
  let parsed := formatted_lines text_lines in
  snd (draw_subtitle cairo g parsed) = true /\
  glyph_paths (ops (fst (draw_subtitle cairo g parsed))) =
    [(1, 0); (1, 1); (0, 0)]%nat.
Proof.
  cbv zeta.
  destruct (first_lines_rendered (fixed_pitch 30) (hd_geometry false false 2)
              ["one"; "<i>two</i> 2"; "three"; "four"]%string)
    as (_ & _ & _ & _ & _ & _ & H).
  apply H. intros i r Hi Hr. apply fixed_pitch_shapes_ascii.
  change (Z.to_nat _) with 2%nat in Hi.
  destruct i as [|[|i]]; [| |lia]; cbn in Hr;
    repeat (destruct Hr as [<- | Hr]; [reflexivity|]); contradiction.
Defined.

(** C4 as it is worded fails when a run cannot be shaped: with two lines
    and a maximum of two, the second line holds a byte that is not UTF-8,
    its glyph preparation fails, the layout returns at once, and the first
    line, whose index is below [min n m], is not drawn either. *)
Lemma unshapable_line_stops_layout :
  let cairo := fixed_pitch 30 in
  let g := hd_geometry false false 2 in
  let text_lines := ["one"%string; latin1_line] in
  let parsed := formatted_lines text_lines in
  Z.min (Z.of_nat (List.length text_lines)) (m_max_lines g) = 2 /\
  List.length (nth 0 parsed []) = 1%nat /\
  snd (draw_subtitle cairo g parsed) = false /\
  glyph_paths (ops (fst (draw_subtitle cairo g parsed))) = [] /\
  ~ In (0%nat, 0%nat) (glyph_paths (ops (fst (draw_subtitle cairo g parsed)))) /\
  m_prepared_from_text (prepare_lines cairo g text_lines initial_renderer) = false.
Proof.
  cbv zeta. split; [reflexivity|]. split; [reflexivity|].
  split; [reflexivity|]. split; [reflexivity|]. split; [|reflexivity].
  intros H. vm_compute in H. exact H.
Qed.

(** ** Line layout: centring *)

Lemma add_advance_int (n a : Z) : add_advance n (inject_Z a) = n + a.
Proof.
  unfold add_advance, Qtrunc, inject_Z, Qplus. cbn [Qnum Qden].
  rewrite !Z.mul_1_r. change (Z.pos (1 * 1)) with 1. apply Z.quot_1_r.
Qed.

Lemma in_ops_emit (op : cairo_op) (d : drawing) : In op (ops (emit op d)).
Proof. unfold emit. cbn. apply in_or_app. right. now left. Qed.

Lemma in_ops_emit_keep (op op' : cairo_op) (d : drawing) :
  In op (ops d) -> In op (ops (emit op' d)).
Proof. unfold emit. cbn. intros H. apply in_or_app. now left. Qed.

Lemma in_ops_set_color (op : cairo_op) (c : Z) (d : drawing) :
  In op (ops d) -> In op (ops (set_color c d)).
Proof.
  unfold set_color. destruct (c =? m_color d); [auto|]. cbn. intros H.
  apply in_or_app. now left.
Qed.

Lemma in_ops_set_font (op : cairo_op) (f : font_type) (d : drawing) :
  In op (ops d) -> In op (ops (set_font f d)).
Proof.
  unfold set_font. destruct (m_current_font d) as [f'|];
    [destruct (font_type_eqb f f')|]; cbn; auto; intros H;
    apply in_or_app; now left.
Qed.

(** What the code does with a single-run line when [m_centered] is set, for
    a backend that puts the first glyph at the origin it is given and
    reports a whole number of pixels as the advance: the ghost box is centred
    to within a pixel, and the run is [left_aligned_margin] to the right of
    where the box has it, so that the gap before the run exceeds the gap
    after it by twice [left_aligned_margin] (plus the rounding). *)
Lemma centered_single_run (cairo : text_backend) (g : geometry) (i : nat)
    (r : SubtitleText) (cy : Z) (d : drawing) (p0 : glyph) (rest : list glyph)
    (a : Z) :
  m_centered g = true ->
  Z.rem (m_image_width g) 2 = 0 ->
  0 <= m_padding g <= 2 ^ 20 ->
  0 <= left_aligned_margin g <= 2 ^ 20 ->
  0 <= m_image_width g <= 2 ^ 20 ->
  0 <= a <= 2 ^ 20 ->
  text_to_glyphs cairo (font r)
    (wrap32 (left_aligned_margin g + m_padding g))
    (wrap32 (cy - Z.quot (m_padding g) 4)) (c_str (text r)) = Some (p0 :: rest) ->
  g_x p0 = inject_Z (left_aligned_margin g + m_padding g) ->
  x_advance cairo (font r) (p0 :: rest) = inject_Z a ->
  let box_width := m_padding g * 2 + a in
  let delta := Z.quot (m_image_width g) 2 - Z.quot box_width 2 in
  let left := left_aligned_margin g + m_padding g + delta in
  let shown := shift_glyphs delta (p0 :: rest) in
  snd (layout_line cairo g i [r] cy d) = true /\
  In (cairo_glyph_path i 0 shown) (ops (fst (layout_line cairo g i [r] cy d))) /\
  (m_ghost_box g = true ->
   In (cairo_rectangle delta (wrap32 (cy - m_font_size g)) box_width
         (wrap32 (m_font_size g + m_padding g)))
      (ops (fst (layout_line cairo g i [r] cy d)))) /\
  (gap_before shown == inject_Z left)%Q /\
  (gap_after g shown (inject_Z a) == inject_Z (m_image_width g - (left + a)))%Q /\
  0 <= delta - (m_image_width g - (delta + box_width)) <= 1 /\
  left - (m_image_width g - (left + a)) =
    2 * left_aligned_margin g + Z.rem a 2.
Proof.
  intros Hc Hw Hp Hl Hwi Ha Hshape Hx Hadv box_width delta left shown.
  change (2 ^ 20) with 1048576 in *.
  assert (Ebox : wrap32 (m_padding g * 2) = m_padding g * 2)
    by (apply wrap32_id; unfold in_range, INT_MIN, INT_MAX; lia).
  assert (Edelta : wrap32 (Z.quot (m_image_width g) 2 - Z.quot box_width 2) = delta).
  { apply wrap32_id. unfold in_range, INT_MIN, INT_MAX. subst delta box_width.
    rewrite !Z.quot_div_nonneg by lia. Z.div_mod_to_equations. lia. }
  assert (Elay : layout_line cairo g i [r] cy d =
    (let d1 := set_font (font r) d in
     let d2 := if m_ghost_box g then
                 emit cairo_fill
                   (emit (cairo_rectangle delta (wrap32 (cy - m_font_size g))
                            box_width (wrap32 (m_font_size g + m_padding g)))
                      (set_color (-2) d1))
               else d1 in
     let d3 := emit (cairo_glyph_path i 0 shown)
                 (set_color (color r) (set_font (font r) d2)) in
     (emit cairo_stroke
        (emit (cairo_set_line_width 2)
           (set_color 0 (emit cairo_fill_preserve d3))), true))).
  { unfold layout_line. cbn [shape_runs]. rewrite Hshape, Hadv.
    rewrite Ebox, !add_advance_int. fold box_width. rewrite Hc, Edelta.
    cbn [map draw_runs]. reflexivity. }
  rewrite Elay. cbv zeta. cbn [fst snd].
  split; [reflexivity|]. split.
  { do 2 apply in_ops_emit_keep. apply in_ops_set_color.
    apply in_ops_emit_keep. apply in_ops_emit. }
  split.
  { intros Hg. rewrite Hg.
    do 2 apply in_ops_emit_keep. apply in_ops_set_color.
    do 2 apply in_ops_emit_keep. apply in_ops_set_color, in_ops_set_font.
    apply in_ops_emit_keep. apply in_ops_emit. }
  assert (Eleft : (gap_before shown == inject_Z left)%Q).
  { subst shown left. unfold gap_before. cbn [shift_glyphs map left_edge g_x].
    rewrite Hx. rewrite <- inject_Z_plus. reflexivity. }
  split; [exact Eleft|]. split.
  { unfold gap_after. fold (gap_before shown). rewrite Eleft.
    unfold Qminus. rewrite <- inject_Z_plus, <- inject_Z_opp, <- inject_Z_plus.
    reflexivity. }
  subst left delta box_width.
  rewrite !Z.quot_div_nonneg by lia.
  rewrite Z.rem_mod_nonneg in * by lia.
  split; Z.div_mod_to_equations; lia.
Qed.

(** C7, at a screen that shows the defect.  On the 1920x1080 geometry with
    centred layout ([left_aligned_margin = 254]) the single run [Hi], 60
    pixels wide, gets a ghost box of 88 pixels at 860, centred on
    [1808 / 2 = 904]; the run itself starts at 1128, outside its box, with
    1128 pixels before it and 620 after it: a difference of
    [2 * 254 = 508] pixels, not of at most one.  With left-aligned layout
    the same run starts one padding inside its box (box at 254, run at
    268). *)
Theorem centered_run_off_centre :
  let cairo := fixed_pitch 30 in
  let g := hd_geometry true true 3 in
  let d := fst (draw_subtitle cairo g (formatted_lines ["Hi"%string])) in
  let d_left := fst (draw_subtitle cairo (hd_geometry false true 3)
                       (formatted_lines ["Hi"%string])) in
  m_centered g = true /\
  m_image_width g = 1808 /\
  m_padding g = 14 /\
  left_aligned_margin g = 254 /\
  snd (draw_subtitle cairo g (formatted_lines ["Hi"%string])) = true /\
  In (cairo_rectangle 860 151 88 73) (ops d) /\
  (exists gl,
     path_of 0 0 (ops d) = Some gl /\
     x_advance cairo NORMAL_FONT gl = inject_Z 60 /\
     (gap_before gl == inject_Z 1128)%Q /\
     (gap_after g gl (inject_Z 60) == inject_Z 620)%Q /\
     (gap_before gl - gap_after g gl (inject_Z 60) ==
        inject_Z (2 * left_aligned_margin g))%Q) /\
  In (cairo_rectangle 254 151 88 73) (ops d_left) /\
  (exists gl,
     path_of 0 0 (ops d_left) = Some gl /\
     (left_edge gl == inject_Z (254 + 14))%Q).
Proof.
  cbv zeta. split; [reflexivity|]. split; [reflexivity|].
  split; [reflexivity|]. split; [reflexivity|]. split; [reflexivity|]. split.
  { vm_compute. tauto. }
  split.
  { eexists. split; [vm_compute; reflexivity|].
    split; [reflexivity|]. split; [reflexivity|]. split; reflexivity. }
  split.
  { vm_compute. tauto. }
  eexists. split; [vm_compute; reflexivity | reflexivity].
Qed.

(** The same input through [centered_single_run]. *)
Lemma centered_single_run_witness :
  let cairo := fixed_pitch 30 in
  let g := hd_geometry true true 3 in
  let r := new_SubtitleText "Hi" NORMAL_FONT (-1) in
  let d := mk_drawing None (-500) [] in
  snd (layout_line cairo g 0 [r] 210 d) = true /\
  (254 + 14 + 860) - (1808 - ((254 + 14 + 860) + 60)) = 2 * 254 + Z.rem 60 2.
Proof.
  cbv zeta.
  assert (B : forall x, 0 <= x <= 2 ^ 11 -> 0 <= x <= 2 ^ 20) by lia.
  destruct (centered_single_run (fixed_pitch 30) (hd_geometry true true 3) 0
              (new_SubtitleText "Hi" NORMAL_FONT (-1)) 210
              (mk_drawing None (-500) [])
              (mk_glyph 72 (inject_Z 268) (inject_Z 207))
              [mk_glyph 105 (inject_Z 268 + inject_Z 30)%Q (inject_Z 207)] 60
              eq_refl eq_refl
              (B 14 ltac:(lia)) (B 254 ltac:(lia)) (B 1808 ltac:(lia))
              (B 60 ltac:(lia)) eq_refl eq_refl eq_refl)
    as (H1 & _ & _ & _ & _ & _ & H7).
  split; [exact H1 | exact H7].
Defined.

(* ================================================================== *)
(** * Part III: further properties of the code *)
(* ================================================================== *)

(** ** The bitmap block *)

Lemma to_size_t_id (x : Z) : 0 <= x <= INT_MAX -> to_size_t x = x.
Proof.
  unfold to_size_t, INT_MAX. intros H. apply Z.mod_small. lia.
Qed.

Lemma wrap32_nonneg_id (x : Z) : 0 <= x <= INT_MAX -> wrap32 x = x.
Proof.
  intros H. apply wrap32_id. unfold in_range, INT_MIN, INT_MAX in *. lia.
Qed.

(** The row loop, where no count and no offset leaves the range of [int]. *)
Lemma copy_rows_closed (g : geometry) (w : Z) (px : list Byte.byte) (n : nat)
    (j : Z) (acc : list Byte.byte) :
  0 <= left_padding g w <= INT_MAX ->
  0 <= right_padding g w <= INT_MAX ->
  0 <= w <= INT_MAX ->
  0 <= j -> (j + Z.of_nat n) * w <= INT_MAX ->
  copy_rows g w px n j acc =
    acc ++ List.concat (map (fun t => bitmap_row g w px (j + Z.of_nat t)) (seq 0 n)).
Proof.
  intros Hl Hr Hw. revert j acc. induction n as [|n IH]; intros j acc Hj Hn.
  - cbn. symmetry. apply app_nil_r.
  - cbn [copy_rows]. rewrite IH by lia. unfold mem_set, mem_copy.
    rewrite !to_size_t_id by assumption.
    rewrite (wrap32_nonneg_id (j * w)) by nia.
    cbn [seq map List.concat]. rewrite <- seq_shift, map_map.
    rewrite Z.add_0_r. unfold bitmap_row at 2. rewrite <- !app_assoc.
    do 5 f_equal. apply map_ext. intros t. f_equal. lia.
Qed.

(** The two tests together, for [int] members: the bitmap is taken exactly
    when it is at least 1x1, no wider than the scaled canvas and no higher
    than the scaled canvas less the bottom padding.  The tests on the left
    and right paddings never reject anything. *)
Lemma accepted_iff (g : geometry) (w h : Z) :
  in_range (m_scaled_image_width g) ->
  in_range (m_scaled_image_height g) ->
  in_range (m_scaled_padding g) ->
  (bitmap_accepted g w h = true <->
   1 <= w <= m_scaled_image_width g /\
   0 <= m_scaled_padding g /\
   1 <= h <= m_scaled_image_height g - m_scaled_padding g) /\
  (exceeds_dimensions g w h = false ->
   0 <= left_padding g w /\ 0 <= right_padding g w).
Proof.
  intros Rw Rh Rp. unfold in_range, INT_MIN, INT_MAX in *.
  change (2 ^ 31) with 2147483648 in *.
  assert (L : 1 <= w <= m_scaled_image_width g ->
              left_padding g w =
                m_scaled_image_width g / 2 - w / 2 /\
              right_padding g w =
                m_scaled_image_width g - w - (m_scaled_image_width g / 2 - w / 2)).
  { intros Hw. unfold right_padding, left_padding.
    rewrite !Z.quot_div_nonneg by lia.
    rewrite (wrap32_id (_ / 2 - _ / 2))
      by (unfold in_range, INT_MIN, INT_MAX; Z.div_mod_to_equations; lia).
    rewrite (wrap32_id (m_scaled_image_width g - w))
      by (unfold in_range, INT_MIN, INT_MAX; lia).
    split; [reflexivity|].
    apply wrap32_id. unfold in_range, INT_MIN, INT_MAX.
    Z.div_mod_to_equations. lia. }
  split.
  - unfold bitmap_accepted, exceeds_dimensions, negative_padding.
    rewrite andb_true_iff, !negb_true_iff, !orb_false_iff.
    unfold bottom_padding.
    split.
    + intros [[[[A B] C] D] [[[E F] G] H]].
      assert (Hw : 1 <= w <= m_scaled_image_width g) by lia.
      split; [exact Hw|]. split; [lia|].
      unfold top_padding, bottom_padding in H.
      rewrite (wrap32_id (m_scaled_image_height g - h)) in H
        by (unfold in_range, INT_MIN, INT_MAX; lia).
      rewrite wrap32_id in H by (unfold in_range, INT_MIN, INT_MAX; lia).
      lia.
    + intros (Hw & Hp & Hh). destruct (L Hw) as [El Er].
      split; [repeat split; lia|].
      repeat split; try lia.
      * rewrite El. Z.div_mod_to_equations. lia.
      * rewrite Er. Z.div_mod_to_equations. lia.
      * unfold top_padding, bottom_padding.
        rewrite (wrap32_id (m_scaled_image_height g - h))
          by (unfold in_range, INT_MIN, INT_MAX; lia).
        rewrite wrap32_id by (unfold in_range, INT_MIN, INT_MAX; lia). lia.
  - unfold exceeds_dimensions. rewrite !orb_false_iff.
    intros [[[A B] C] D].
    destruct (L ltac:(lia)) as [-> ->]. split; Z.div_mod_to_equations; lia.
Qed.

Lemma concat_uniform_length {A : Type} (ls : list (list A)) (n : nat) :
  Forall (fun l => List.length l = n) ls ->
  List.length (List.concat ls) = (List.length ls * n)%nat.
Proof.
  induction 1 as [|l ls Hl _ IH]; [reflexivity|].
  cbn. rewrite length_app, IH, Hl. reflexivity.
Qed.

(** In a concatenation of rows of one length, position [r * n + q] is
    position [q] of row [r]. *)
Lemma nth_concat_uniform {A : Type} (ls : list (list A)) (n r q : nat) (d : A) :
  Forall (fun l => List.length l = n) ls ->
  (q < n)%nat ->
  nth (r * n + q) (List.concat ls) d = nth q (nth r ls []) d.
Proof.
  intros H Hq. revert r. induction H as [|l ls Hl _ IH]; intros r.
  - cbn [List.concat]. destruct (r * n + q)%nat, r, q; reflexivity.
  - destruct r as [|r]; cbn [List.concat nth].
    + cbn. apply app_nth1. lia.
    + rewrite app_nth2 by (rewrite Hl; cbn; lia).
      rewrite Hl. replace (S r * n + q - n)%nat with (r * n + q)%nat by (cbn; lia).
      apply IH.
Qed.

(** The arithmetic of a bitmap that is taken: nothing wraps, the paddings
    are non-negative and fill the canvas in both directions. *)
Lemma accepted_paddings (g : geometry) (w h : Z) :
  in_range (m_scaled_image_width g) ->
  in_range (m_scaled_image_height g) ->
  in_range (m_scaled_padding g) ->
  bitmap_accepted g w h = true ->
  1 <= w /\ 1 <= h /\
  0 <= left_padding g w /\ 0 <= right_padding g w /\
  0 <= top_padding g h /\ 0 <= bottom_padding g /\
  left_padding g w + w + right_padding g w = m_scaled_image_width g /\
  top_padding g h + h + bottom_padding g = m_scaled_image_height g.
Proof.
  intros Rw Rh Rp Ha.
  destruct (accepted_iff g w h Rw Rh Rp) as [[Hfit _] Hlr].
  destruct (Hfit Ha) as (Hw & Hp & Hh).
  unfold bitmap_accepted in Ha. apply andb_true_iff in Ha.
  destruct Ha as [Hx Hn]. apply negb_true_iff in Hx.
  destruct (Hlr Hx) as [Hl Hr].
  unfold in_range, INT_MIN, INT_MAX in *. change (2 ^ 31) with 2147483648 in *.
  assert (Et : top_padding g h = m_scaled_image_height g - h - m_scaled_padding g).
  { unfold top_padding, bottom_padding.
    rewrite (wrap32_id (m_scaled_image_height g - h))
      by (unfold in_range, INT_MIN, INT_MAX; lia).
    apply wrap32_id. unfold in_range, INT_MIN, INT_MAX. lia. }
  assert (Er : right_padding g w =
               m_scaled_image_width g - w - left_padding g w).
  { unfold right_padding.
    rewrite (wrap32_id (m_scaled_image_width g - w))
      by (unfold in_range, INT_MIN, INT_MAX; lia).
    apply wrap32_id. unfold in_range, INT_MIN, INT_MAX.
    rewrite <- (wrap32_id (m_scaled_image_width g - w))
      by (unfold in_range, INT_MIN, INT_MAX; lia).
    fold (right_padding g w).
    assert (left_padding g w <= m_scaled_image_width g).
    { unfold left_padding. rewrite !Z.quot_div_nonneg by lia.
      rewrite wrap32_id
        by (unfold in_range, INT_MIN, INT_MAX; Z.div_mod_to_equations; lia).
      Z.div_mod_to_equations. lia. }
    rewrite (wrap32_id (m_scaled_image_width g - w))
      by (unfold in_range, INT_MIN, INT_MAX; lia).
    lia. }
  unfold bottom_padding in *. repeat split; lia.
Qed.

(** What the block holds once a bitmap has been taken. *)
Lemma bitmap_store_data (g : geometry) (w h : Z) (px : list Byte.byte)
    (s : renderer) :
  heap_ok (store s) ->
  in_range (m_scaled_image_width g) ->
  in_range (m_scaled_image_height g) ->
  in_range (m_scaled_padding g) ->
  in_range (m_scaled_image_width g * m_scaled_image_height g) ->
  bitmap_accepted g w h = true ->
  let s' := make_subtitle_image_bitmap g w h px s in
  live (store s') =
    live (store s) ++
      [(next_handle (store s),
        Buffer (m_scaled_image_width g * m_scaled_image_height g)
          (padded_image g w h px))] /\
  other_image_data s' = Some (next_handle (store s)) /\
  m_prepared_from_image s' = true.
Proof.
  intros Hok Rw Rh Rp Rs Ha.
  destruct (accepted_paddings g w h Rw Rh Rp Ha)
    as (Hw & Hh & Hl & Hr & Ht & Hb & Esw & Esh).
  unfold bitmap_accepted in Ha.
  apply andb_true_iff in Ha. destruct Ha as [H1 H2].
  apply negb_true_iff in H1. apply negb_true_iff in H2.
  unfold in_range, INT_MIN in Rs.
  assert (Es : block_size g = m_scaled_image_width g * m_scaled_image_height g).
  { unfold block_size. rewrite wrap32_nonneg_id by nia.
    apply to_size_t_id. nia. }
  unfold make_subtitle_image_bitmap. rewrite H1. cbn [alloc]. rewrite H2.
  cbn [store live other_image_data m_prepared_from_image update].
  split; [|split; reflexivity].
  rewrite map_app, map_update_below by exact Hok.
  cbn [map fst]. rewrite Nat.eqb_refl, Es. do 4 f_equal.
  rewrite copy_rows_closed by (try nia; rewrite Z2Nat.id by lia; nia).
  unfold mem_set, padded_image. cbn [app].
  rewrite !wrap32_nonneg_id by nia.
  rewrite !to_size_t_id by nia.
  now rewrite <- app_assoc.
Qed.

Lemma bitmap_row_length (g : geometry) (w h : Z) (px : list Byte.byte) (r : nat) :
  1 <= w -> 0 <= left_padding g w -> 0 <= right_padding g w ->
  Z.of_nat (List.length px) = w * h ->
  Z.of_nat r < h ->
  List.length (bitmap_row g w px (Z.of_nat r)) =
    Z.to_nat (left_padding g w + w + right_padding g w).
Proof.
  intros Hw Hl Hr Hpx Hrh. unfold bitmap_row.
  rewrite !length_app, !repeat_length, length_firstn, length_skipn.
  assert (Z.of_nat r * w + w <= w * h) by nia.
  assert (0 <= Z.of_nat r * w) by nia.
  lia.
Qed.

Lemma bitmap_rows_uniform (g : geometry) (w h : Z) (px : list Byte.byte) :
  1 <= w -> 0 <= left_padding g w -> 0 <= right_padding g w ->
  Z.of_nat (List.length px) = w * h ->
  Forall (fun l => List.length l =
                   Z.to_nat (left_padding g w + w + right_padding g w))
    (map (fun t => bitmap_row g w px (Z.of_nat t)) (seq 0 (Z.to_nat h))).
Proof.
  intros Hw Hl Hr Hpx. apply Forall_forall. intros l Hin.
  apply in_map_iff in Hin. destruct Hin as (t & <- & Ht).
  apply in_seq in Ht. eapply bitmap_row_length; eauto. lia.
Qed.

(** The block is filled exactly: as many bytes as were allocated. *)
Lemma padded_image_length (g : geometry) (w h : Z) (px : list Byte.byte) :
  in_range (m_scaled_image_width g) ->
  in_range (m_scaled_image_height g) ->
  in_range (m_scaled_padding g) ->
  bitmap_accepted g w h = true ->
  Z.of_nat (List.length px) = w * h ->
  Z.of_nat (List.length (padded_image g w h px)) =
    m_scaled_image_width g * m_scaled_image_height g.
Proof.
  intros Rw Rh Rp Ha Hpx.
  destruct (accepted_paddings g w h Rw Rh Rp Ha)
    as (Hw & Hh & Hl & Hr & Ht & Hb & Esw & Esh).
  unfold padded_image.
  rewrite !length_app, !repeat_length.
  rewrite (concat_uniform_length _ _ (bitmap_rows_uniform g w h px Hw Hl Hr Hpx)).
  rewrite length_map, length_seq, Esw.
  rewrite <- Esh. nia.
Qed.

(** Every byte of the block, by its row and column on the scaled canvas. *)
Lemma padded_image_pixel (g : geometry) (w h : Z) (px : list Byte.byte) (R C : Z) :
  in_range (m_scaled_image_width g) ->
  in_range (m_scaled_image_height g) ->
  in_range (m_scaled_padding g) ->
  bitmap_accepted g w h = true ->
  Z.of_nat (List.length px) = w * h ->
  0 <= R < m_scaled_image_height g ->
  0 <= C < m_scaled_image_width g ->
  nth (Z.to_nat (R * m_scaled_image_width g + C)) (padded_image g w h px) Byte.x00 =
    placed_pixel g w h px R C.
Proof.
  intros Rw Rh Rp Ha Hpx HR HC.
  destruct (accepted_paddings g w h Rw Rh Rp Ha)
    as (Hw & Hh & Hl & Hr & Ht & Hb & Esw & Esh).
  pose proof (bitmap_rows_uniform g w h px Hw Hl Hr Hpx) as U.
  rewrite Esw in U.
  set (sw := m_scaled_image_width g) in *.
  set (top := top_padding g h) in *. set (lp := left_padding g w) in *.
  unfold padded_image, placed_pixel. fold sw top lp.
  destruct (Z.ltb_spec R top) as [Hlt | Hge].
  { (* above the bitmap *)
    replace (top <=? R) with false by (symmetry; apply Z.leb_gt; lia).
    cbn [andb]. rewrite app_nth1 by (rewrite repeat_length; nia).
    apply nth_repeat. }
  replace (top <=? R) with true by (symmetry; apply Z.leb_le; lia).
  rewrite app_nth2 by (rewrite repeat_length; nia).
  rewrite repeat_length.
  destruct (Z.ltb_spec R (top + h)) as [Hin | Hbelow]; cbn [andb].
  2:{ (* below the bitmap *)
    rewrite app_nth2
      by (rewrite (concat_uniform_length _ _ U), length_map, length_seq; nia).
    apply nth_repeat. }
  rewrite app_nth1
    by (rewrite (concat_uniform_length _ _ U), length_map, length_seq; nia).
  replace (Z.to_nat (R * sw + C) - Z.to_nat (top * sw))%nat
    with (Z.to_nat (R - top) * Z.to_nat sw + Z.to_nat C)%nat by nia.
  rewrite (nth_concat_uniform _ _ _ _ _ U) by lia.
  rewrite (nth_indep _ [] (bitmap_row g w px (Z.of_nat 0)))
    by (rewrite length_map, length_seq; lia).
  rewrite (map_nth (fun t => bitmap_row g w px (Z.of_nat t))).
  rewrite seq_nth by lia. cbn [Nat.add]. rewrite Z2Nat.id by lia.
  unfold bitmap_row. fold lp.
  destruct (Z.leb_spec lp C) as [HlC | HCl]; cbn [andb].
  2:{ rewrite app_nth1 by (rewrite repeat_length; lia). apply nth_repeat. }
  rewrite app_nth2 by (rewrite repeat_length; lia). rewrite repeat_length.
  assert (Hslice : List.length
            (firstn (Z.to_nat w) (skipn (Z.to_nat ((R - top) * w)) px)) =
            Z.to_nat w).
  { rewrite length_firstn, length_skipn.
    assert ((R - top) * w + w <= w * h) by nia.
    assert (0 <= (R - top) * w) by nia. lia. }
  destruct (Z.ltb_spec C (lp + w)) as [HCw | HwC].
  - rewrite app_nth1 by (rewrite Hslice; lia).
    rewrite nth_firstn.
    replace (Z.to_nat C - Z.to_nat lp <? Z.to_nat w)%nat with true
      by (symmetry; apply Nat.ltb_lt; lia).
    rewrite nth_skipn. f_equal.
    assert (0 <= (R - top) * w) by nia. lia.
  - rewrite app_nth2 by (rewrite Hslice; lia). apply nth_repeat.
Qed.

(** ** Showing and releasing a frame *)

Lemma lookup_fresh (k n : nat) (l rest : list (nat * resource)) (r : resource) :
  Forall (fun e => (fst e < n)%nat) l ->
  lookup (mk_heap k (l ++ (n, r) :: rest)) (Some n) = Some r.
Proof.
  intros H. cbn [lookup live]. induction H as [|e l He _ IH].
  - cbn. now rewrite Nat.eqb_refl.
  - cbn [app find]. destruct (Nat.eqb_spec (fst e) n); [lia | exact IH].
Qed.

Lemma lookup_live (h : heap) (p : option nat) :
  lookup h p = lookup (mk_heap O (live h)) p.
Proof. reflexivity. Qed.

Lemma release_fresh_last (h : heap) (n : nat) (r : resource)
    (l : list (nat * resource)) :
  Forall (fun e => (fst e < n)%nat) l ->
  live h = l ++ [(n, r)] ->
  live (release h (Some n)) = l.
Proof.
  intros Hl E. cbn [release live]. rewrite E, filter_app.
  rewrite (filter_release_below l n n) by (lia || assumption).
  cbn [filter fst]. rewrite Nat.eqb_refl. apply app_nil_r.
Qed.

(** [show_next] on a prepared bitmap frame. *)
Lemma show_next_image (s : renderer) :
  m_prepared_from_image s = true ->
  m_prepared_from_text s = false ->
  subtitleLayer (show_next s) = subtitleLayer s ++ [hideElement] /\
  dvdSubLayer (show_next s) =
    dvdSubLayer s ++
      [setImageData (other_image_data s) (lookup (store s) (other_image_data s))] /\
  store (show_next s) = release (store s) (other_image_data s) /\
  m_prepared_from_image (show_next s) = false /\
  m_prepared_from_text (show_next s) = false.
Proof.
  destruct s as [i t o c sf cr st sl dl]. cbn. intros -> ->.
  repeat split; reflexivity.
Qed.

(** [show_next] on a prepared text frame. *)
Lemma show_next_text (s : renderer) :
  m_prepared_from_image s = false ->
  m_prepared_from_text s = true ->
  subtitleLayer (show_next s) =
    subtitleLayer s ++
      [setImageData (cairo_image_data s) (lookup (store s) (cairo_image_data s))] /\
  dvdSubLayer (show_next s) = dvdSubLayer s ++ [hideElement] /\
  store (show_next s) = release (release (store s) (m_cr s)) (m_surface s) /\
  m_prepared_from_image (show_next s) = false /\
  m_prepared_from_text (show_next s) = false.
Proof.
  destruct s as [i t o c sf cr st sl dl]. cbn. intros -> ->.
  repeat split; reflexivity.
Qed.

Lemma bitmap_keeps_layers (g : geometry) (w h : Z) (px : list Byte.byte)
    (s : renderer) :
  subtitleLayer (make_subtitle_image_bitmap g w h px s) = subtitleLayer s /\
  dvdSubLayer (make_subtitle_image_bitmap g w h px s) = dvdSubLayer s.
Proof.
  unfold make_subtitle_image_bitmap.
  destruct (exceeds_dimensions g w h); [auto|]. cbn [alloc].
  destruct (negative_padding g w h); cbn; auto.
Qed.

Lemma text_other_fields (cairo : text_backend) (g : geometry)
    (parsed_lines : list (list SubtitleText)) (s : renderer) :
  let s' := make_subtitle_image_text cairo g parsed_lines s in
  subtitleLayer s' = subtitleLayer s /\
  dvdSubLayer s' = dvdSubLayer s /\
  other_image_data s' = other_image_data s /\
  cairo_image_data s' =
    (if snd (draw_subtitle cairo g parsed_lines)
     then Some (next_handle (store s)) else cairo_image_data s).
Proof.
  unfold make_subtitle_image_text. cbn [alloc].
  destruct (draw_subtitle cairo g parsed_lines) as [d []]; cbn; auto.
Qed.

(** X1. A bitmap subtitle passes both tests of make_subtitle_image exactly
    when 1 <= sub_width <= m_scaled_image_width, m_scaled_padding >= 0 and
    1 <= sub_height <= m_scaled_image_height - m_scaled_padding; once the
    first test has passed, the left and right paddings are never negative,
    so the second test can only reject on the bottom or the top padding. *)
Theorem bitmap_taken_iff_fits (g : geometry) (w h : Z) :
  in_range (m_scaled_image_width g) ->
  in_range (m_scaled_image_height g) ->
  in_range (m_scaled_padding g) ->
  (bitmap_accepted g w h = true <->
   1 <= w <= m_scaled_image_width g /\
   0 <= m_scaled_padding g /\
   1 <= h <= m_scaled_image_height g - m_scaled_padding g) /\
  (exceeds_dimensions g w h = false ->
   0 <= left_padding g w /\ 0 <= right_padding g w).
Proof. apply accepted_iff. Qed.

Lemma hd_geometry_in_range :
  in_range (m_scaled_image_width (hd_geometry false false 3)) /\
  in_range (m_scaled_image_height (hd_geometry false false 3)) /\
  in_range (m_scaled_padding (hd_geometry false false 3)) /\
  in_range (m_scaled_image_width (hd_geometry false false 3) *
            m_scaled_image_height (hd_geometry false false 3)).
Proof.
  unfold in_range, INT_MIN, INT_MAX. vm_compute.
  repeat split; discriminate.
Qed.

Lemma bitmap_taken_iff_fits_witness :
  bitmap_accepted (hd_geometry false false 3) 643 106 = true /\
  bitmap_accepted (hd_geometry false false 3) 644 106 = false /\
  bitmap_accepted (hd_geometry false false 3) 643 107 = false.
Proof.
  destruct hd_geometry_in_range as (Rw & Rh & Rp & _).
  destruct (bitmap_taken_iff_fits (hd_geometry false false 3) 643 106 Rw Rh Rp)
    as [[_ H] _].
  split; [apply H; vm_compute; repeat split; discriminate|].
  split; reflexivity.
Defined.

(** X2. Where the product m_scaled_image_width * m_scaled_image_height
    fits an int, for an accepted bitmap whose pixel string holds sub_width
    * sub_height bytes, the sequence of mem_set and mem_copy calls writes
    exactly m_scaled_image_width * m_scaled_image_height bytes, the size
    of the block that malloc returned: the block is filled completely and
    never overrun. *)
Theorem bitmap_block_filled_exactly (g : geometry) (w h : Z)
    (px : list Byte.byte) (s : renderer) :
  heap_ok (store s) ->
  in_range (m_scaled_image_width g) ->
  in_range (m_scaled_image_height g) ->
  in_range (m_scaled_padding g) ->
  in_range (m_scaled_image_width g * m_scaled_image_height g) ->
  bitmap_accepted g w h = true ->
  Z.of_nat (List.length px) = w * h ->
  let s' := make_subtitle_image_bitmap g w h px s in
  exists data,
    lookup (store s') (other_image_data s') =
      Some (Buffer (m_scaled_image_width g * m_scaled_image_height g) data) /\
    Z.of_nat (List.length data) =
      m_scaled_image_width g * m_scaled_image_height g.
Proof.
  intros Hok Rw Rh Rp Rs Ha Hpx s'.
  destruct (bitmap_store_data g w h px s Hok Rw Rh Rp Rs Ha) as (L & P & _).
  fold s' in L, P. exists (padded_image g w h px). split.
  - rewrite P, lookup_live, L. now apply lookup_fresh.
  - now apply padded_image_length.
Qed.

Lemma bitmap_block_filled_exactly_witness :
  let s' := make_subtitle_image_bitmap (hd_geometry false false 3) 2 1
              [Byte.x01; Byte.x02] initial_renderer in
  exists data,
    lookup (store s') (other_image_data s') = Some (Buffer (643 * 113) data) /\
    Z.of_nat (List.length data) = 643 * 113.
Proof.
  destruct hd_geometry_in_range as (Rw & Rh & Rp & Rs).
  exact (bitmap_block_filled_exactly (hd_geometry false false 3) 2 1
           [Byte.x01; Byte.x02] initial_renderer (Forall_nil _) Rw Rh Rp Rs
           eq_refl eq_refl).
Defined.

(** X3. Where the product m_scaled_image_width * m_scaled_image_height
    fits an int, for an accepted bitmap the byte at row R and column C of
    the block is the subtitle pixel at row R - top_padding, column C -
    left_padding when that position lies inside the subtitle, and zero
    otherwise: the bitmap is copied unchanged, placed left_padding bytes
    from the left edge and m_scaled_padding rows above the bottom edge. *)
Theorem bitmap_block_pixels (g : geometry) (w h : Z) (px : list Byte.byte)
    (s : renderer) :
  heap_ok (store s) ->
  in_range (m_scaled_image_width g) ->
  in_range (m_scaled_image_height g) ->
  in_range (m_scaled_padding g) ->
  in_range (m_scaled_image_width g * m_scaled_image_height g) ->
  bitmap_accepted g w h = true ->
  Z.of_nat (List.length px) = w * h ->
  let s' := make_subtitle_image_bitmap g w h px s in
  exists data,
    lookup (store s') (other_image_data s') =
      Some (Buffer (m_scaled_image_width g * m_scaled_image_height g) data) /\
    forall R C,
      0 <= R < m_scaled_image_height g ->
      0 <= C < m_scaled_image_width g ->
      nth (Z.to_nat (R * m_scaled_image_width g + C)) data Byte.x00 =
        placed_pixel g w h px R C.
Proof.
  intros Hok Rw Rh Rp Rs Ha Hpx s'.
  destruct (bitmap_store_data g w h px s Hok Rw Rh Rp Rs Ha) as (L & P & _).
  fold s' in L, P. exists (padded_image g w h px). split.
  - rewrite P, lookup_live, L. now apply lookup_fresh.
  - intros R C HR HC. now apply padded_image_pixel.
Qed.

Lemma bitmap_block_pixels_witness :
  let g := hd_geometry false false 3 in
  let s' := make_subtitle_image_bitmap g 2 1 [Byte.x01; Byte.x02]
              initial_renderer in
  exists data,
    lookup (store s') (other_image_data s') = Some (Buffer (643 * 113) data) /\
    nth (Z.to_nat (105 * 643 + 321)) data Byte.x00 = Byte.x02 /\
    nth (Z.to_nat (105 * 643 + 322)) data Byte.x00 = Byte.x00.
Proof.
  destruct hd_geometry_in_range as (Rw & Rh & Rp & Rs).
  destruct (bitmap_block_pixels (hd_geometry false false 3) 2 1
              [Byte.x01; Byte.x02] initial_renderer (Forall_nil _) Rw Rh Rp Rs
              eq_refl eq_refl) as (data & L & Hpix).
  assert (HR : 0 <= 105 < m_scaled_image_height (hd_geometry false false 3))
    by (vm_compute; split; [discriminate | reflexivity]).
  assert (HC1 : 0 <= 321 < m_scaled_image_width (hd_geometry false false 3))
    by (vm_compute; split; [discriminate | reflexivity]).
  assert (HC2 : 0 <= 322 < m_scaled_image_width (hd_geometry false false 3))
    by (vm_compute; split; [discriminate | reflexivity]).
  exists data. split; [exact L|]. split.
  - exact (Hpix 105 321 HR HC1).
  - exact (Hpix 105 322 HR HC2).
Defined.

(** X4. show_next leaves nothing prepared: after it both flags are false,
    a second show_next changes nothing (a frame is shown at most once),
    and a following unprepare changes nothing. *)
Theorem show_next_consumes_frame (s : renderer) :
  show_next (show_next s) = show_next s /\
  unprepare (show_next s) = show_next s /\
  m_prepared_from_image (show_next s) = false /\
  m_prepared_from_text (show_next s) = false.
Proof.
  assert (F : m_prepared_from_image (show_next s) = false /\
              m_prepared_from_text (show_next s) = false).
  { unfold show_next. destruct (m_prepared_from_image s) eqn:Ei;
      [apply unprepare_flags|].
    destruct (m_prepared_from_text s) eqn:Et; [apply unprepare_flags | auto]. }
  destruct F as [Fi Ft]. split; [|split; [|split]]; try assumption.
  - unfold show_next at 1. now rewrite Fi, Ft.
  - now apply unprepare_idle.
Qed.


(** X6. Where the scaled sizes and their product fit an int, from an idle
    renderer, prepare with an accepted bitmap of sub_width * sub_height
    pixel bytes followed by show_next hides the text layer, hands the DVD
    layer the freshly allocated block holding the padded image, frees that
    block (the store is as before prepare) and leaves nothing prepared. *)
Theorem bitmap_frame_shown_and_released (cairo : text_backend) (g : geometry)
    (w h : Z) (px : list Byte.byte) (s : renderer) :
  heap_ok (store s) ->
  m_prepared_from_image s = false ->
  m_prepared_from_text s = false ->
  in_range (m_scaled_image_width g) ->
  in_range (m_scaled_image_height g) ->
  in_range (m_scaled_padding g) ->
  in_range (m_scaled_image_width g * m_scaled_image_height g) ->
  bitmap_accepted g w h = true ->
  Z.of_nat (List.length px) = w * h ->
  let s2 := show_next (prepare cairo g (bitmap_subtitle w h px) s) in
  dvdSubLayer s2 =
    dvdSubLayer s ++
      [setImageData (Some (next_handle (store s)))
         (Some (Buffer (m_scaled_image_width g * m_scaled_image_height g)
                  (padded_image g w h px)))] /\
  subtitleLayer s2 = subtitleLayer s ++ [hideElement] /\
  live (store s2) = live (store s) /\
  m_prepared_from_image s2 = false /\ m_prepared_from_text s2 = false.
Proof.
  intros Hok Hi Ht Rw Rh Rp Rs Ha Hpx s2.
  assert (E : prepare cairo g (bitmap_subtitle w h px) s =
              make_subtitle_image_bitmap g w h px s).
  { unfold prepare. cbn [isImage bitmap_subtitle width height image_data].
    now rewrite (unprepare_idle s Hi Ht). }
  subst s2. rewrite E.
  destruct (bitmap_store_data g w h px s Hok Rw Rh Rp Rs Ha) as (L & P & F).
  destruct (bitmap_keeps_layers g w h px s) as [Ls Ld].
  pose proof (bitmap_keeps_text_flag g w h px s) as Ft. rewrite Ht in Ft.
  cbv zeta in L, P, F.
  destruct (show_next_image _ F Ft) as (S1 & S2 & S3 & S4 & S5).
  rewrite S1, S2, S3, Ls, Ld, P.
  split; [|split; [reflexivity|split; [|split; assumption]]].
  - do 3 f_equal. rewrite lookup_live, L. now apply lookup_fresh.
  - eapply release_fresh_last; [exact Hok | exact L].
Qed.

Lemma bitmap_frame_shown_and_released_witness :
  let g := hd_geometry false false 3 in
  let s2 := show_next (prepare (fixed_pitch 30) g
                         (bitmap_subtitle 2 1 [Byte.x01; Byte.x02])
                         initial_renderer) in
  subtitleLayer s2 = [hideElement] /\ live (store s2) = [].
Proof.
  destruct hd_geometry_in_range as (Rw & Rh & Rp & Rs).
  destruct (bitmap_frame_shown_and_released (fixed_pitch 30)
              (hd_geometry false false 3) 2 1 [Byte.x01; Byte.x02]
              initial_renderer (Forall_nil _) eq_refl eq_refl Rw Rh Rp Rs
              eq_refl eq_refl)
    as (_ & H2 & H3 & _).
  split; [exact H2 | exact H3].
Defined.

(** X7. From an idle renderer, prepare with text lines whose layout
    finishes sets m_prepared_from_text; show_next then hides the DVD
    layer, hands the text layer the surface that holds exactly the drawing
    of the parsed lines, destroys the context and the surface (the store
    is as before prepare) and leaves nothing prepared. *)
Theorem text_frame_shown_and_released (cairo : text_backend) (g : geometry)
    (lines : list string) (s : renderer) :
  heap_ok (store s) ->
  m_prepared_from_image s = false ->
  m_prepared_from_text s = false ->
  snd (draw_subtitle cairo g (formatted_lines lines)) = true ->
  let s1 := prepare_lines cairo g lines s in
  let s2 := show_next s1 in
  m_prepared_from_text s1 = true /\
  subtitleLayer s2 =
    subtitleLayer s ++
      [setImageData (Some (next_handle (store s)))
         (Some (Surface (m_image_width g) (m_image_height g)
                  (ops (fst (draw_subtitle cairo g (formatted_lines lines))))))] /\
  dvdSubLayer s2 = dvdSubLayer s ++ [hideElement] /\
  live (store s2) = live (store s) /\
  m_prepared_from_image s2 = false /\ m_prepared_from_text s2 = false.
Proof.
  intros Hok Hi Ht Hfin s1 s2.
  assert (E : s1 = make_subtitle_image_text cairo g (formatted_lines lines) s).
  { subst s1. unfold prepare_lines, parse_lines.
    now rewrite (unprepare_idle s Hi Ht). }
  destruct (text_store cairo g (formatted_lines lines) s Hok) as (L & _ & Sf & Cr).
  destruct (text_flags cairo g (formatted_lines lines) s) as [Fi Ft].
  destruct (text_other_fields cairo g (formatted_lines lines) s)
    as (Ls & Ld & _ & Ci).
  cbv zeta in L, Sf, Cr, Ls, Ld, Ci.
  rewrite <- E in L, Sf, Cr, Fi, Ft, Ls, Ld, Ci.
  rewrite Hfin in Ft, Ci. rewrite Hi in Fi. cbn [orb] in Ft.
  subst s2. destruct (show_next_text _ Fi Ft) as (S1 & S2 & S3 & S4 & S5).
  rewrite S1, S2, Ls, Ld, Ci.
  split; [exact Ft|]. split; [|split; [reflexivity|split; [|split; assumption]]].
  - do 3 f_equal. rewrite lookup_live, L. now apply lookup_fresh.
  - rewrite <- (unprepare_text_frame s1 (live (store s)) (next_handle (store s))
                  (Surface (m_image_width g) (m_image_height g)
                     (ops (fst (draw_subtitle cairo g (formatted_lines lines)))))
                  Fi Ft Sf Cr L Hok).
    rewrite S3. unfold unprepare. rewrite Fi, Ft. reflexivity.
Qed.

Lemma text_frame_shown_and_released_witness :
  let g := hd_geometry false false 3 in
  let s2 := show_next (prepare_lines (fixed_pitch 30) g ["Hi"%string]
                         initial_renderer) in
  dvdSubLayer s2 = [hideElement] /\ live (store s2) = [].
Proof.
  destruct (text_frame_shown_and_released (fixed_pitch 30)
              (hd_geometry false false 3) ["Hi"%string]
              initial_renderer (Forall_nil _) eq_refl eq_refl eq_refl)
    as (_ & _ & H2 & H3 & _).
  split; [exact H2 | exact H3].
Defined.

(** X8. When cairo_scaled_font_text_to_glyphs fails for some run,
    make_subtitle_image returns with no flag set: nothing is prepared,
    show_next and unprepare then do nothing, and the surface and the
    context created at the start of the call stay allocated. *)
Theorem shaping_failure_prepares_nothing (cairo : text_backend) (g : geometry)
    (lines : list string) (s : renderer) :
  heap_ok (store s) ->
  m_prepared_from_image s = false ->
  m_prepared_from_text s = false ->
  snd (draw_subtitle cairo g (formatted_lines lines)) = false ->
  let s1 := prepare_lines cairo g lines s in
  m_prepared_from_image s1 = false /\
  m_prepared_from_text s1 = false /\
  show_next s1 = s1 /\
  unprepare s1 = s1 /\
  live (store s1) =
    live (store s) ++
      [(next_handle (store s),
        Surface (m_image_width g) (m_image_height g)
          (ops (fst (draw_subtitle cairo g (formatted_lines lines)))));
       (S (next_handle (store s)), Context (next_handle (store s)))].
Proof.
  intros Hok Hi Ht Hfin s1.
  assert (E : s1 = make_subtitle_image_text cairo g (formatted_lines lines) s).
  { subst s1. unfold prepare_lines, parse_lines.
    now rewrite (unprepare_idle s Hi Ht). }
  destruct (text_store cairo g (formatted_lines lines) s Hok) as (L & _).
  destruct (text_flags cairo g (formatted_lines lines) s) as [Fi Ft].
  cbv zeta in L. rewrite <- E in L, Fi, Ft.
  rewrite Hfin, Ht in Ft. rewrite Hi in Fi. cbn [orb] in Ft.
  split; [exact Fi|]. split; [exact Ft|]. split; [|split].
  - unfold show_next. now rewrite Fi, Ft.
  - now apply unprepare_idle.
  - exact L.
Qed.

Lemma shaping_failure_prepares_nothing_witness :
  let g := hd_geometry false false 3 in
  let s1 := prepare_lines (fixed_pitch 30) g [latin1_line] initial_renderer in
  m_prepared_from_text s1 = false /\ show_next s1 = s1 /\
  List.length (live (store s1)) = 2%nat.
Proof.
  destruct (shaping_failure_prepares_nothing (fixed_pitch 30)
              (hd_geometry false false 3) [latin1_line]
              initial_renderer (Forall_nil _) eq_refl eq_refl eq_refl)
    as (_ & H2 & H3 & _ & H5).
  split; [exact H2|]. split; [exact H3|]. cbv zeta in H5. now rewrite H5.
Defined.

(** ** The constructor: margins *)

Lemma ctor_image_width (sw sh : Z) (r : float) (c b : bool) (lines : Z) :
  INT_MIN + 100 <= sw <= INT_MAX ->
  let g := SubtitleRenderer_new sw sh r c b lines in
  m_image_width g = and_not_15 (sw - 100) /\
  left_margin g = (sw - m_image_width g) / 2 /\
  100 <= sw - m_image_width g <= 115.
Proof.
  intros Hsw g. unfold INT_MIN, INT_MAX in Hsw.
  change (2 ^ 31) with 2147483648 in Hsw.
  assert (Ew : m_image_width g = and_not_15 (sw - 100)).
  { subst g. cbn [m_image_width SubtitleRenderer_new].
    now rewrite wrap32_id by (unfold in_range, INT_MIN, INT_MAX; lia). }
  pose proof (and_not_15_floor (sw - 100)) as Hf. rewrite <- Ew in Hf.
  split; [exact Ew|]. split; [|lia].
  assert (El : left_margin g = Z.quot (wrap32 (sw - m_image_width g)) 2)
    by reflexivity.
  rewrite El, wrap32_id by (unfold in_range, INT_MIN, INT_MAX; lia).
  apply Z.quot_div_nonneg; lia.
Qed.

(** X9. For every screen width the constructor places the canvas
    horizontally centred: left_margin lies between 50 and 57 pixels, and
    the margin left over on the right equals left_margin or exceeds it by
    one pixel. *)
Theorem canvas_horizontally_centred (sw sh : Z) (r : float) (c b : bool) (lines : Z) :
  INT_MIN + 100 <= sw <= INT_MAX ->
  let g := SubtitleRenderer_new sw sh r c b lines in
  50 <= left_margin g <= 57 /\
  let right_margin := sw - (left_margin g + m_image_width g) in
  left_margin g <= right_margin <= left_margin g + 1.
Proof.
  intros Hsw g.
  destruct (ctor_image_width sw sh r c b lines Hsw) as (_ & El & Hd).
  fold g in El, Hd. cbv zeta. rewrite El.
  split; Z.div_mod_to_equations; lia.
Qed.

Lemma canvas_horizontally_centred_witness :
  let g := hd_geometry false false 3 in
  50 <= left_margin g <= 57 /\
  left_margin g <= 1920 - (left_margin g + m_image_width g) <= left_margin g + 1.
Proof.
  apply (canvas_horizontally_centred 1920 1080 (float_literal 55 1000) false false 3).
  unfold INT_MIN, INT_MAX. lia.
Defined.

(** X10. Whenever the constructor assigns left_aligned_margin (screen
    wider than 1300 pixels, or wider than high), the member is not
    negative, and left_margin + left_aligned_margin, the same offset
    counted from the left edge of the screen instead of the canvas, is
    (screen_width - 1300) / 2 for screens at least 1416 pixels wide and
    (screen_width - screen_height) / 2 for screens at most 1300 pixels
    wide with screen_width - screen_height >= 116. *)
Theorem left_aligned_margin_from_screen_edge (sw sh : Z) (r : float) (c b : bool) (lines : Z) :
  0 <= sw <= INT_MAX -> 0 <= sh <= INT_MAX ->
  1300 < sw \/ sh < sw ->
  let g := SubtitleRenderer_new sw sh r c b lines in
  0 <= left_aligned_margin g /\
  (1416 <= sw ->
   left_margin g + left_aligned_margin g = (sw - 1300) / 2) /\
  (sw <= 1300 -> 116 <= sw - sh ->
   left_margin g + left_aligned_margin g = (sw - sh) / 2).
Proof.
  intros Hsw Hsh Hset g. unfold INT_MAX in Hsw, Hsh.
  change (2 ^ 31) with 2147483648 in Hsw, Hsh.
  destruct (ctor_image_width sw sh r c b lines) as (_ & El & Hd);
    [unfold INT_MIN, INT_MAX; lia|]. fold g in El, Hd.
  assert (Hlm : 50 <= left_margin g <= 57)
    by (rewrite El; Z.div_mod_to_equations; lia).
  assert (E : left_aligned_margin g =
    let lam := if sw >? 1300 then Z.quot (wrap32 (sw - 1300)) 2
               else if sw >? sh then Z.quot (wrap32 (sw - sh)) 2 else 0 in
    if lam >? left_margin g then wrap32 (lam - left_margin g) else lam)
    by reflexivity.
  cbv zeta in E.
  rewrite (wrap32_id (sw - 1300)) in E
    by (unfold in_range, INT_MIN, INT_MAX; lia).
  rewrite (wrap32_id (sw - sh)) in E
    by (unfold in_range, INT_MIN, INT_MAX; lia).
  destruct (Z.gtb_spec sw 1300) as [H1 | H1].
  - rewrite Z.quot_div_nonneg in E by lia.
    destruct (Z.gtb_spec ((sw - 1300) / 2) (left_margin g)) as [H2 | H2].
    + rewrite wrap32_id in E
        by (unfold in_range, INT_MIN, INT_MAX; Z.div_mod_to_equations; lia).
      repeat split; intros; try lia.
    + repeat split; intros; try lia;
        rewrite E in *; Z.div_mod_to_equations; lia.
  - destruct (Z.gtb_spec sw sh) as [H3 | H3].
    + rewrite Z.quot_div_nonneg in E by lia.
      destruct (Z.gtb_spec ((sw - sh) / 2) (left_margin g)) as [H2 | H2].
      * rewrite wrap32_id in E
          by (unfold in_range, INT_MIN, INT_MAX; Z.div_mod_to_equations; lia).
        repeat split; intros; try lia.
      * repeat split; intros; try lia;
          rewrite E in *; Z.div_mod_to_equations; lia.
    + lia.
Qed.

Lemma left_aligned_margin_from_screen_edge_witness :
  let g := hd_geometry false false 3 in
  0 <= left_aligned_margin g /\
  left_margin g + left_aligned_margin g = (1920 - 1300) / 2.
Proof.
  destruct (left_aligned_margin_from_screen_edge 1920 1080 (float_literal 55 1000) false false 3)
    as (H1 & H2 & _); [unfold INT_MAX; lia | unfold INT_MAX; lia | lia |].
  split; [exact H1 | apply H2; lia].
Defined.

(** ** Line layout: the calls of a finished drawing *)

Section Projection.

Context {A : Type} (f : cairo_op -> list A).
Hypothesis f_font : forall ft, f (cairo_set_scaled_font ft) = [].
Hypothesis f_source : forall p, f (cairo_set_source p) = [].
Hypothesis f_rgba : forall r g b, f (cairo_set_source_rgba r g b) = [].

Lemma set_font_proj (ft : font_type) (d : drawing) :
  flat_map f (ops (set_font ft d)) = flat_map f (ops d).
Proof.
  unfold set_font. destruct (m_current_font d) as [f'|];
    [destruct (font_type_eqb ft f')|]; cbn [ops]; try reflexivity;
    rewrite flat_map_app; cbn; rewrite f_font; now rewrite !app_nil_r.
Qed.

Lemma set_color_proj (c : Z) (d : drawing) :
  flat_map f (ops (set_color c d)) = flat_map f (ops d).
Proof.
  unfold set_color. destruct (c =? m_color d); [reflexivity|]. cbn [ops].
  rewrite flat_map_app.
  destruct (c =? -1); [cbn; rewrite f_source; now rewrite !app_nil_r|].
  destruct (c =? -2); [cbn; rewrite f_source; now rewrite !app_nil_r|].
  destruct (c =? 0); cbn; rewrite ?f_source, ?f_rgba; now rewrite !app_nil_r.
Qed.

Lemma emit_proj (op : cairo_op) (d : drawing) :
  flat_map f (ops (emit op d)) = flat_map f (ops d) ++ f op.
Proof.
  unfold emit. cbn [ops]. rewrite flat_map_app. cbn. now rewrite app_nil_r.
Qed.

Variable cairo : text_backend.
Variable g : geometry.

Lemma shape_runs_proj (runs : list SubtitleText) (cy cx bw : Z) (d : drawing) :
  flat_map f (ops (fst (shape_runs cairo g runs cy cx bw d))) =
    flat_map f (ops d).
Proof.
  revert cx bw d. induction runs as [|r runs IH]; intros cx bw d;
    [reflexivity|]. cbn [shape_runs].
  destruct (text_to_glyphs cairo (font r) _ _ _) as [gl|];
    [|cbn; apply set_font_proj].
  specialize (IH (add_advance cx (x_advance cairo (font r) gl))
                 (add_advance bw (x_advance cairo (font r) gl))
                 (set_font (font r) d)).
  destruct (shape_runs cairo g runs cy _ _ _) as [d2 [[[gls cx'] bw']|]];
    cbn [fst] in *; rewrite IH; apply set_font_proj.
Qed.

Lemma draw_runs_proj (i j : nat) (runs : list SubtitleText)
    (gls : list (list glyph)) (d : drawing) :
  List.length gls = List.length runs ->
  flat_map f (ops (draw_runs i j runs gls d)) =
    flat_map f (ops d) ++ flat_map f (glyph_path_ops i j gls).
Proof.
  revert j gls d. induction runs as [|r runs IH]; intros j gls d H.
  - destruct gls; [|discriminate H]. cbn. symmetry. apply app_nil_r.
  - destruct gls as [|gl gls]; [discriminate H|]. cbn [draw_runs].
    rewrite IH by (cbn in H; lia).
    rewrite emit_proj, set_color_proj, set_font_proj.
    cbn [glyph_path_ops flat_map]. now rewrite <- app_assoc.
Qed.

(** The calls of one line, seen through [f]. *)
Lemma layout_line_proj (i : nat) (runs : list SubtitleText) (cy : Z)
    (d : drawing) :
  snd (layout_line cairo g i runs cy d) = true ->
  exists gls x bw,
    List.length gls = List.length runs /\
    flat_map f (ops (fst (layout_line cairo g i runs cy d))) =
      flat_map f (ops d) ++
      (if m_ghost_box g
       then f (cairo_rectangle x (wrap32 (cy - m_font_size g)) bw
                 (wrap32 (m_font_size g + m_padding g))) ++ f cairo_fill
       else []) ++
      flat_map f (glyph_path_ops i 0 gls) ++
      f cairo_fill_preserve ++ f (cairo_set_line_width 2) ++ f cairo_stroke.
Proof.
  unfold layout_line.
  pose proof (shape_runs_proj runs cy (left_aligned_margin g)
                (wrap32 (m_padding g * 2)) d) as P.
  pose proof (shape_runs_length cairo g runs cy (left_aligned_margin g)
                (wrap32 (m_padding g * 2)) d) as L.
  destruct (shape_runs cairo g runs cy _ _ d) as [d1 [[[gls cx] bw]|]];
    cbn [fst snd] in *; [|discriminate].
  intros _. specialize (L gls cx bw eq_refl).
  destruct (m_centered g).
  - exists (map (shift_glyphs
                   (wrap32 (Z.quot (m_image_width g) 2 - Z.quot bw 2))) gls),
           (wrap32 (Z.quot (m_image_width g) 2 - Z.quot bw 2)), bw.
    split; [rewrite length_map; exact L|].
    rewrite emit_proj, emit_proj, set_color_proj, emit_proj.
    rewrite draw_runs_proj by (rewrite length_map; exact L).
    destruct (m_ghost_box g);
      [rewrite emit_proj, emit_proj, set_color_proj|];
      rewrite P; rewrite <- ?app_assoc; cbn [app]; reflexivity.
  - exists gls, (left_aligned_margin g), bw.
    split; [exact L|].
    rewrite emit_proj, emit_proj, set_color_proj, emit_proj.
    rewrite draw_runs_proj by exact L.
    destruct (m_ghost_box g);
      [rewrite emit_proj, emit_proj, set_color_proj|];
      rewrite P; rewrite <- ?app_assoc; cbn [app]; reflexivity.
Qed.

End Projection.

Lemma glyph_path_ops_marks (i j : nat) (gls : list (list glyph)) :
  flat_map mark_of (glyph_path_ops i j gls) =
    map (mark_path i) (seq j (List.length gls)).
Proof.
  revert j. induction gls as [|gl gls IH]; intros j; [reflexivity|].
  cbn. now rewrite IH.
Qed.

Lemma glyph_path_ops_bands (i j : nat) (gls : list (list glyph)) :
  flat_map band_of (glyph_path_ops i j gls) = [].
Proof.
  revert j. induction gls as [|gl gls IH]; intros j; [reflexivity|].
  cbn. apply IH.
Qed.

Lemma layout_lines_finished_step (cairo : text_backend) (g : geometry)
    (parsed_lines : list (list SubtitleText)) (i : nat) (cy : Z) (d : drawing) :
  snd (layout_lines cairo g parsed_lines (S i) cy d) = true ->
  snd (layout_line cairo g i (nth i parsed_lines []) cy d) = true /\
  layout_lines cairo g parsed_lines (S i) cy d =
    layout_lines cairo g parsed_lines i
      (wrap32 (cy - wrap32 (m_font_size g + m_padding g)))
      (fst (layout_line cairo g i (nth i parsed_lines []) cy d)).
Proof.
  cbn [layout_lines].
  destruct (layout_line cairo g i (nth i parsed_lines []) cy d) as [d1 [|]];
    cbn [fst snd]; [auto | discriminate].
Qed.

Lemma layout_lines_marks (cairo : text_backend) (g : geometry)
    (parsed_lines : list (list SubtitleText)) (n : nat) (cy : Z) (d : drawing) :
  snd (layout_lines cairo g parsed_lines n cy d) = true ->
  flat_map mark_of (ops (fst (layout_lines cairo g parsed_lines n cy d))) =
    flat_map mark_of (ops d) ++
    flat_map (line_marks (m_ghost_box g) parsed_lines) (rev (seq 0 n)).
Proof.
  revert cy d. induction n as [|i IH]; intros cy d Hfin.
  - cbn. symmetry. apply app_nil_r.
  - destruct (layout_lines_finished_step _ _ _ _ _ _ Hfin) as [Hl E].
    rewrite E in Hfin |- *. rewrite (IH _ _ Hfin).
    destruct (layout_line_proj mark_of ltac:(reflexivity) ltac:(reflexivity)
                ltac:(reflexivity) cairo g i (nth i parsed_lines []) cy d Hl)
      as (gls & x & bw & Hlen & ->).
    rewrite seq_S, rev_app_distr. cbn [rev app flat_map Nat.add].
    unfold line_marks at 2. rewrite glyph_path_ops_marks, Hlen.
    rewrite <- app_assoc. do 2 f_equal; destruct (m_ghost_box g); reflexivity.
Qed.

(** X11. When the layout finishes, the painting calls on the surface are,
    for each drawn line from the last one up to the first: one cairo_fill
    for the ghost box if it is enabled, one cairo_glyph_path per run in
    the order of the runs, then one cairo_fill_preserve and one
    cairo_stroke; there are no other fill, path or stroke calls. *)
Theorem finished_drawing_marks (cairo : text_backend) (g : geometry)
    (parsed_lines : list (list SubtitleText)) :
  snd (draw_subtitle cairo g parsed_lines) = true ->
  flat_map mark_of (ops (fst (draw_subtitle cairo g parsed_lines))) =
    flat_map (line_marks (m_ghost_box g) parsed_lines)
      (rev (seq 0 (Z.to_nat (no_of_lines g parsed_lines)))).
Proof.
  unfold draw_subtitle. intros Hfin.
  now rewrite (layout_lines_marks _ _ _ _ _ _ Hfin).
Qed.

Lemma finished_drawing_marks_witness :
  flat_map mark_of
    (ops (fst (draw_subtitle (fixed_pitch 30) (hd_geometry false true 3)
                 (formatted_lines ["a<b>b</b>"; "c"]%string)))) =
  [mark_fill; mark_path 1 0; mark_fill_preserve; mark_stroke;
   mark_fill; mark_path 0 0; mark_path 0 1; mark_fill_preserve; mark_stroke].
Proof.
  exact (finished_drawing_marks (fixed_pitch 30) (hd_geometry false true 3)
           (formatted_lines ["a<b>b</b>"; "c"]%string) eq_refl).
Defined.

(** The bands of the ghost boxes of [n] lines whose lowest baseline cursor
    is [cy], when no subtraction leaves the [int] range. *)
Lemma layout_lines_bands (cairo : text_backend) (g : geometry)
    (parsed_lines : list (list SubtitleText)) (n : nat) (cy : Z) (d : drawing) :
  m_ghost_box g = true ->
  0 <= m_font_size g -> 0 <= m_padding g ->
  m_font_size g + m_padding g <= INT_MAX ->
  cy <= INT_MAX ->
  INT_MIN <= cy - Z.of_nat n * (m_font_size g + m_padding g) - m_font_size g ->
  snd (layout_lines cairo g parsed_lines n cy d) = true ->
  flat_map band_of (ops (fst (layout_lines cairo g parsed_lines n cy d))) =
    flat_map band_of (ops d) ++
    map (fun t => (cy - Z.of_nat t * (m_font_size g + m_padding g)
                     - m_font_size g,
                   m_font_size g + m_padding g))
      (seq 0 n).
Proof.
  intros Hg Hfs Hp Hlh. revert cy d.
  induction n as [|i IH]; intros cy d Hcy Hlow Hfin.
  - cbn. symmetry. apply app_nil_r.
  - destruct (layout_lines_finished_step _ _ _ _ _ _ Hfin) as [Hl E].
    rewrite E in Hfin |- *.
    unfold INT_MIN, INT_MAX in *. change (2 ^ 31) with 2147483648 in *.
    assert (Hmul : 0 <= Z.of_nat i * (m_font_size g + m_padding g)) by nia.
    assert (Ecy : wrap32 (cy - wrap32 (m_font_size g + m_padding g)) =
                  cy - (m_font_size g + m_padding g)).
    { rewrite (wrap32_id (m_font_size g + m_padding g))
        by (unfold in_range, INT_MIN, INT_MAX; lia).
      apply wrap32_id. unfold in_range, INT_MIN, INT_MAX. nia. }
    rewrite Ecy in Hfin |- *.
    rewrite (IH (cy - (m_font_size g + m_padding g)) _ ltac:(lia) ltac:(nia)
               Hfin).
    destruct (layout_line_proj band_of ltac:(reflexivity) ltac:(reflexivity)
                ltac:(reflexivity) cairo g i (nth i parsed_lines []) cy d Hl)
      as (gls & x & bw & Hlen & ->).
    rewrite Hg, glyph_path_ops_bands.
    cbn [band_of app]. rewrite <- app_assoc. f_equal. cbn [app].
    rewrite (wrap32_id (cy - m_font_size g))
      by (unfold in_range, INT_MIN, INT_MAX; nia).
    rewrite (wrap32_id (m_font_size g + m_padding g))
      by (unfold in_range, INT_MIN, INT_MAX; lia).
    cbn [seq map]. rewrite <- seq_shift, map_map. f_equal.
    + f_equal. lia.
    + apply map_ext. intros t. f_equal. lia.
Qed.

(** X12. With the ghost box enabled and a finished layout, the rectangles
    are drawn bottom-up without gaps or overlap: the t-th rectangle drawn
    has its top at m_image_height - (t + 1) * line_height and is
    line_height high, where line_height = m_font_size + m_padding. *)
Theorem ghost_boxes_stack_from_bottom (cairo : text_backend) (g : geometry)
    (parsed_lines : list (list SubtitleText)) :
  m_ghost_box g = true ->
  0 <= m_font_size g <= 2 ^ 15 ->
  0 <= m_padding g <= 2 ^ 15 ->
  0 <= m_image_height g <= 2 ^ 20 ->
  no_of_lines g parsed_lines <= 2 ^ 10 ->
  snd (draw_subtitle cairo g parsed_lines) = true ->
  let line_height := m_font_size g + m_padding g in
  flat_map band_of (ops (fst (draw_subtitle cairo g parsed_lines))) =
    map (fun t => (m_image_height g - (Z.of_nat t + 1) * line_height,
                   line_height))
      (seq 0 (Z.to_nat (no_of_lines g parsed_lines))).
Proof.
  intros Hg Hfs Hp Hh Hn Hfin lh. subst lh.
  change (2 ^ 15) with 32768 in *. change (2 ^ 20) with 1048576 in *.
  change (2 ^ 10) with 1024 in *.
  unfold draw_subtitle in *.
  assert (Ecy : wrap32 (m_image_height g - m_padding g) =
                m_image_height g - m_padding g)
    by (apply wrap32_id; unfold in_range, INT_MIN, INT_MAX; lia).
  rewrite Ecy in Hfin |- *.
  rewrite (layout_lines_bands cairo g parsed_lines _ _ _ Hg); try assumption;
    try (unfold INT_MIN, INT_MAX; change (2 ^ 31) with 2147483648; nia).
  cbn [ops flat_map app]. apply map_ext. intros t. f_equal. lia.
Qed.

Lemma ghost_boxes_stack_from_bottom_witness :
  flat_map band_of
    (ops (fst (draw_subtitle (fixed_pitch 30) (hd_geometry false true 3)
                 (formatted_lines ["a"; "b"; "c"; "d"]%string)))) =
  [(151, 73); (78, 73); (5, 73)].
Proof.
  assert (B : forall x, 0 <= x <= 2 ^ 10 -> 0 <= x <= 2 ^ 15) by lia.
  assert (B' : forall x, 0 <= x <= 2 ^ 10 -> 0 <= x <= 2 ^ 20) by lia.
  exact (ghost_boxes_stack_from_bottom (fixed_pitch 30)
           (hd_geometry false true 3)
           (formatted_lines ["a"; "b"; "c"; "d"]%string) eq_refl
           (B 59 ltac:(lia)) (B 14 ltac:(lia)) (B' 224 ltac:(lia))
           ltac:(cbn; lia) eq_refl).
Defined.

(** X13. With no lines, or with m_max_lines <= 0, the line loop is never
    entered: no cairo call is issued, yet the frame counts as prepared
    from text, its surface holds no drawing, and show_next hides the DVD
    layer. *)
Theorem nothing_to_draw (cairo : text_backend) (g : geometry)
    (parsed_lines : list (list SubtitleText)) :
  parsed_lines = [] \/ m_max_lines g <= 0 ->
  draw_subtitle cairo g parsed_lines = (mk_drawing None (-500) [], true) /\
  forall s, m_prepared_from_image s = false ->
    let s' := make_subtitle_image_text cairo g parsed_lines s in
    m_prepared_from_text s' = true /\
    lookup (store s') (cairo_image_data s') =
      Some (Surface (m_image_width g) (m_image_height g) []) /\
    dvdSubLayer (show_next s') = dvdSubLayer s ++ [hideElement].
Proof.
  intros H.
  assert (E : draw_subtitle cairo g parsed_lines =
              (mk_drawing None (-500) [], true)).
  { unfold draw_subtitle.
    replace (Z.to_nat (no_of_lines g parsed_lines)) with O; [reflexivity|].
    rewrite no_of_lines_min. destruct H as [-> | H]; [cbn [List.length]|]; lia. }
  split; [exact E|]. intros s Hi s'.
  destruct (text_flags cairo g parsed_lines s) as [Fi Ft].
  destruct (text_other_fields cairo g parsed_lines s) as (_ & Ld & _ & _).
  fold s' in Fi, Ft. cbv zeta in Ld. fold s' in Ld.
  rewrite E in Ft. cbn [snd orb] in Ft. rewrite Hi in Fi.
  split; [exact Ft|]. split.
  - subst s'. unfold make_subtitle_image_text. cbn [alloc]. rewrite E.
    cbn [cairo_image_data store ops lookup update live map fst app find
         option_map].
    rewrite map_app. cbn [map fst].
    induction (live (store s)) as [|e l IH].
    + cbn. rewrite Nat.eqb_refl. cbn. rewrite Nat.eqb_refl. reflexivity.
    + cbn [app map find]. destruct (Nat.eqb (fst e) (next_handle (store s))) eqn:Ee.
      * cbn [fst]. rewrite Nat.eqb_refl. reflexivity.
      * rewrite Ee. exact IH.
  - destruct (show_next_text s' Fi Ft) as (_ & -> & _). now rewrite Ld.
Qed.

Lemma nothing_to_draw_witness :
  draw_subtitle (fixed_pitch 30) (hd_geometry false true 0)
    (formatted_lines ["a"; "b"]%string) = (mk_drawing None (-500) [], true).
Proof.
  apply (nothing_to_draw (fixed_pitch 30) (hd_geometry false true 0)
           (formatted_lines ["a"; "b"]%string)).
  right. cbn. lia.
Defined.

(** ** Line layout: the font cache *)

Lemma font_after_app (cur : option font_type) (l1 l2 : list cairo_op) :
  font_after cur (l1 ++ l2) = font_after (font_after cur l1) l2.
Proof.
  revert cur. induction l1 as [|op l1 IH]; intros cur; [reflexivity|].
  destruct op; cbn; apply IH.
Qed.

Lemma font_changes_app (cur : option font_type) (l1 l2 : list cairo_op) :
  font_changes cur (l1 ++ l2) =
    font_changes cur l1 && font_changes (font_after cur l1) l2.
Proof.
  revert cur. induction l1 as [|op l1 IH]; intros cur; [reflexivity|].
  destruct op; cbn; rewrite ?IH; try reflexivity. now rewrite andb_assoc.
Qed.

Lemma set_font_cache (f : font_type) (d : drawing) :
  font_cache_ok d -> font_cache_ok (set_font f d).
Proof.
  intros [Ha Hc]. unfold set_font, font_cache_ok.
  destruct (m_current_font d) as [f'|] eqn:Ef.
  - destruct (font_type_eqb f f') eqn:E; [rewrite Ef; auto|].
    cbn [ops m_current_font]. rewrite font_after_app, font_changes_app, Ha, Hc.
    cbn. now rewrite E.
  - cbn [ops m_current_font]. rewrite font_after_app, font_changes_app, Ha, Hc.
    split; reflexivity.
Qed.

Lemma set_color_cache (c : Z) (d : drawing) :
  font_cache_ok d -> font_cache_ok (set_color c d).
Proof.
  intros [Ha Hc]. unfold set_color, font_cache_ok.
  destruct (c =? m_color d); [auto|]. cbn [ops m_current_font].
  rewrite font_after_app, font_changes_app, Ha, Hc.
  destruct (c =? -1); [auto|]. destruct (c =? -2); [auto|].
  destruct (c =? 0); auto.
Qed.

Lemma emit_cache (op : cairo_op) (d : drawing) :
  (forall f, op <> cairo_set_scaled_font f) ->
  font_cache_ok d -> font_cache_ok (emit op d).
Proof.
  intros Hop [Ha Hc]. unfold emit, font_cache_ok. cbn [ops m_current_font].
  rewrite font_after_app, font_changes_app, Ha, Hc.
  destruct op; auto. now destruct (Hop f).
Qed.

Lemma shape_runs_cache (cairo : text_backend) (g : geometry)
    (runs : list SubtitleText) (cy cx bw : Z) (d : drawing) :
  font_cache_ok d -> font_cache_ok (fst (shape_runs cairo g runs cy cx bw d)).
Proof.
  revert cx bw d. induction runs as [|r runs IH]; intros cx bw d H; [exact H|].
  cbn [shape_runs].
  destruct (text_to_glyphs cairo (font r) _ _ _) as [gl|];
    [|now apply set_font_cache].
  specialize (IH (add_advance cx (x_advance cairo (font r) gl))
                 (add_advance bw (x_advance cairo (font r) gl))
                 (set_font (font r) d) (set_font_cache _ _ H)).
  destruct (shape_runs cairo g runs cy _ _ _) as [d2 [[[gls cx'] bw']|]];
    exact IH.
Qed.

Lemma draw_runs_cache (i j : nat) (runs : list SubtitleText)
    (gls : list (list glyph)) (d : drawing) :
  font_cache_ok d -> font_cache_ok (draw_runs i j runs gls d).
Proof.
  revert j gls d. induction runs as [|r runs IH]; intros j gls d H; [exact H|].
  destruct gls as [|gl gls]; [exact H|]. cbn [draw_runs]. apply IH.
  apply emit_cache; [discriminate|]. now apply set_color_cache, set_font_cache.
Qed.

Lemma layout_line_cache (cairo : text_backend) (g : geometry) (i : nat)
    (runs : list SubtitleText) (cy : Z) (d : drawing) :
  font_cache_ok d -> font_cache_ok (fst (layout_line cairo g i runs cy d)).
Proof.
  intros H. unfold layout_line.
  pose proof (shape_runs_cache cairo g runs cy (left_aligned_margin g)
                (wrap32 (m_padding g * 2)) d H) as S.
  destruct (shape_runs cairo g runs cy _ _ d) as [d1 [[[gls cx] bw]|]];
    cbn [fst] in *; [|exact S].
  apply emit_cache; [discriminate|]. apply emit_cache; [discriminate|].
  apply set_color_cache. apply emit_cache; [discriminate|].
  apply draw_runs_cache.
  destruct (m_ghost_box g); [|exact S].
  apply emit_cache; [discriminate|]. apply emit_cache; [discriminate|].
  now apply set_color_cache.
Qed.

Lemma layout_lines_cache (cairo : text_backend) (g : geometry)
    (parsed_lines : list (list SubtitleText)) (n : nat) (cy : Z) (d : drawing) :
  font_cache_ok d ->
  font_cache_ok (fst (layout_lines cairo g parsed_lines n cy d)).
Proof.
  revert cy d. induction n as [|i IH]; intros cy d H; [exact H|].
  cbn [layout_lines].
  pose proof (layout_line_cache cairo g i (nth i parsed_lines []) cy d H) as L.
  destruct (layout_line cairo g i (nth i parsed_lines []) cy d) as [d1 [|]];
    cbn [fst] in *; [now apply IH | exact L].
Qed.

(** X14. During a layout set_font keeps the cached m_current_font equal to
    the font last selected on the cairo context, and cairo_set_scaled_font
    is never called with the font that is already selected. *)
Theorem font_selected_only_on_change (cairo : text_backend) (g : geometry)
    (parsed_lines : list (list SubtitleText)) :
  let d := fst (draw_subtitle cairo g parsed_lines) in
  font_after None (ops d) = m_current_font d /\
  font_changes None (ops d) = true.
Proof.
  apply layout_lines_cache. split; reflexivity.
Qed.

(** ** Line layout: the colour of a fill *)

Lemma source_after_app (cur : option cairo_op) (l1 l2 : list cairo_op) :
  source_after cur (l1 ++ l2) = source_after (source_after cur l1) l2.
Proof.
  revert cur. induction l1 as [|op l1 IH]; intros cur; [reflexivity|].
  destruct op; cbn; apply IH.
Qed.

Lemma fill_sources_app (cur : option cairo_op) (l1 l2 : list cairo_op) :
  fill_sources cur (l1 ++ l2) =
    fill_sources cur l1 ++ fill_sources (source_after cur l1) l2.
Proof.
  revert cur. induction l1 as [|op l1 IH]; intros cur; [reflexivity|].
  destruct op; cbn; rewrite ?IH; reflexivity.
Qed.

Lemma emit_neutral_paint (op : cairo_op) (d : drawing) :
  paint_neutral op = true -> paint_state (emit op d) = paint_state d.
Proof.
  intros H. unfold paint_state, emit. cbn [ops m_color].
  rewrite source_after_app, fill_sources_app.
  destruct op; try discriminate H; cbn; now rewrite app_nil_r.
Qed.

Lemma set_font_paint (f : font_type) (d : drawing) :
  paint_state (set_font f d) = paint_state d.
Proof.
  unfold set_font.
  destruct (m_current_font d) as [f'|]; [destruct (font_type_eqb f f')|];
    try reflexivity;
    exact (emit_neutral_paint (cairo_set_scaled_font f)
             (mk_drawing _ (m_color d) (ops d)) eq_refl).
Qed.

Lemma source_op_selects (c : Z) (cur : option cairo_op) :
  source_after cur [source_op c] = Some (source_op c) /\
  fill_sources cur [source_op c] = [].
Proof.
  unfold source_op. destruct (c =? -1); [auto|]. destruct (c =? -2); [auto|].
  destruct (c =? 0); auto.
Qed.

Lemma set_color_paint (c : Z) (d : drawing) :
  c <> -500 -> source_cache_ok d ->
  paint_state (set_color c d) =
    (c, source_of_color c, fill_sources None (ops d)).
Proof.
  intros Hc Hok. unfold set_color.
  destruct (Z.eqb_spec c (m_color d)) as [-> | Hne].
  - unfold paint_state. now rewrite Hok.
  - unfold paint_state. cbn [ops m_color].
    rewrite source_after_app, fill_sources_app.
    fold (source_op c).
    destruct (source_op_selects c (source_after None (ops d))) as [-> ->].
    rewrite app_nil_r. unfold source_of_color.
    destruct (Z.eqb_spec c (-500)); [contradiction | reflexivity].
Qed.

Lemma paint_state_parts (d : drawing) (c : Z) (src : option cairo_op)
    (fills : list (option cairo_op)) :
  paint_state d = (c, src, fills) ->
  m_color d = c /\ source_after None (ops d) = src /\
  fill_sources None (ops d) = fills.
Proof. unfold paint_state. intros H. now inversion H. Qed.

Lemma paint_state_ok (d : drawing) (c : Z) (fills : list (option cairo_op)) :
  paint_state d = (c, source_of_color c, fills) -> source_cache_ok d.
Proof.
  intros H. destruct (paint_state_parts _ _ _ _ H) as (H1 & H2 & _).
  unfold source_cache_ok. now rewrite H2, H1.
Qed.

Lemma shape_runs_paint (cairo : text_backend) (g : geometry)
    (runs : list SubtitleText) (cy cx bw : Z) (d : drawing) :
  paint_state (fst (shape_runs cairo g runs cy cx bw d)) = paint_state d.
Proof.
  revert cx bw d. induction runs as [|r runs IH]; intros cx bw d;
    [reflexivity|]. cbn [shape_runs].
  destruct (text_to_glyphs cairo (font r) _ _ _) as [gl|];
    [|cbn; apply set_font_paint].
  specialize (IH (add_advance cx (x_advance cairo (font r) gl))
                 (add_advance bw (x_advance cairo (font r) gl))
                 (set_font (font r) d)).
  destruct (shape_runs cairo g runs cy _ _ _) as [d2 [[[gls cx'] bw']|]];
    cbn [fst] in *; rewrite IH; apply set_font_paint.
Qed.

Lemma last_cons {A : Type} (a d : A) (l : list A) : last (a :: l) d = last l a.
Proof.
  revert a d. induction l as [|b l IH]; intros a d; [reflexivity|].
  change (last (a :: b :: l) d) with (last (b :: l) d).
  now rewrite (IH b d), (IH b a).
Qed.

Lemma draw_runs_paint (i j : nat) (runs : list SubtitleText)
    (gls : list (list glyph)) (d : drawing) :
  List.length gls = List.length runs ->
  (forall r, In r runs -> color r <> -500) ->
  source_cache_ok d ->
  paint_state (draw_runs i j runs gls d) =
    match runs with
    | [] => paint_state d
    | r :: rest =>
        (color (last rest r), source_of_color (color (last rest r)),
         fill_sources None (ops d))
    end.
Proof.
  revert j gls d. induction runs as [|r runs IH]; intros j gls d Hlen Hcol Hok.
  - destruct gls; [reflexivity | discriminate Hlen].
  - destruct gls as [|gl gls]; [discriminate Hlen|]. cbn [draw_runs].
    destruct (paint_state_parts _ _ _ _ (set_font_paint (font r) d))
      as (F1 & F2 & F3).
    assert (P : paint_state
                  (emit (cairo_glyph_path i j gl)
                     (set_color (color r) (set_font (font r) d))) =
                (color r, source_of_color (color r), fill_sources None (ops d))).
    { rewrite emit_neutral_paint by reflexivity.
      rewrite set_color_paint.
      - now rewrite F3.
      - apply Hcol. now left.
      - unfold source_cache_ok. now rewrite F2, F1. }
    destruct (paint_state_parts _ _ _ _ P) as (_ & _ & P3).
    rewrite IH.
    + destruct runs as [|r2 rest2]; [exact P|].
      rewrite last_cons. now rewrite P3.
    + cbn in Hlen. lia.
    + intros r' Hr'. apply Hcol. now right.
    + exact (paint_state_ok _ _ _ P).
Qed.

Lemma emit_fill_preserve_paint (d : drawing) :
  paint_state (emit cairo_fill_preserve d) =
    (m_color d, source_after None (ops d),
     fill_sources None (ops d) ++ [source_after None (ops d)]).
Proof.
  unfold paint_state, emit. cbn [ops m_color].
  now rewrite source_after_app, fill_sources_app.
Qed.

Lemma layout_line_paint (cairo : text_backend) (g : geometry) (i : nat)
    (runs : list SubtitleText) (cy : Z) (d : drawing) :
  snd (layout_line cairo g i runs cy d) = true ->
  (forall r, In r runs -> color r <> -500) ->
  source_cache_ok d ->
  paint_state (fst (layout_line cairo g i runs cy d)) =
    (0, source_of_color 0,
     fill_sources None (ops d) ++
       [source_of_color (line_fill_color (m_ghost_box g) (m_color d) runs)]).
Proof.
  unfold layout_line.
  pose proof (shape_runs_paint cairo g runs cy (left_aligned_margin g)
                (wrap32 (m_padding g * 2)) d) as P.
  pose proof (shape_runs_length cairo g runs cy (left_aligned_margin g)
                (wrap32 (m_padding g * 2)) d) as L.
  destruct (shape_runs cairo g runs cy _ _ d) as [d1 [[[gls cx] bw]|]];
    cbn [fst snd] in *; [|discriminate].
  intros _ Hcol Hok. specialize (L gls cx bw eq_refl).
  destruct (paint_state_parts _ _ _ _ P) as (P1 & P2 & P3).
  assert (Hok1 : source_cache_ok d1)
    by (unfold source_cache_ok in *; now rewrite P2, P1).
  (* the drawing before the runs are drawn *)
  set (d2 := if m_ghost_box g then _ else d1).
  assert (P2' : paint_state d2 =
                ((if m_ghost_box g then -2 else m_color d),
                 source_of_color (if m_ghost_box g then -2 else m_color d),
                 fill_sources None (ops d))).
  { subst d2. destruct (m_ghost_box g).
    - rewrite !emit_neutral_paint by reflexivity.
      rewrite set_color_paint by (lia || assumption). now rewrite P3.
    - unfold paint_state. rewrite P1, P2, P3. now rewrite Hok. }
  pose proof (paint_state_ok _ _ _ P2') as Hok2.
  destruct (paint_state_parts _ _ _ _ P2') as (_ & _ & Q3).
  set (shown := if m_centered g then _ else gls).
  assert (Lshown : List.length shown = List.length runs)
    by (subst shown; destruct (m_centered g); [rewrite length_map|]; exact L).
  pose proof (draw_runs_paint i 0 runs shown d2 Lshown Hcol Hok2) as P3'.
  set (d3 := draw_runs i 0 runs shown d2) in *.
  assert (P4 : paint_state d3 =
               (line_fill_color (m_ghost_box g) (m_color d) runs,
                source_of_color (line_fill_color (m_ghost_box g) (m_color d) runs),
                fill_sources None (ops d))).
  { rewrite P3'. unfold line_fill_color. destruct runs as [|r rest].
    - rewrite P2'. now destruct (m_ghost_box g).
    - now rewrite Q3. }
  destruct (paint_state_parts _ _ _ _ P4) as (R1 & R2 & R3).
  pose proof (emit_fill_preserve_paint d3) as P5.
  rewrite R1, R2, R3 in P5.
  destruct (paint_state_parts _ _ _ _ P5) as (S1 & S2 & S3).
  rewrite !emit_neutral_paint by reflexivity.
  rewrite set_color_paint.
  - now rewrite S3.
  - lia.
  - unfold source_cache_ok. now rewrite S2, S1.
Qed.

Lemma layout_lines_paint (cairo : text_backend) (g : geometry)
    (parsed_lines : list (list SubtitleText)) (n : nat) (cy : Z) (d : drawing) :
  snd (layout_lines cairo g parsed_lines n cy d) = true ->
  (forall i r, (i < n)%nat -> In r (nth i parsed_lines []) -> color r <> -500) ->
  source_cache_ok d ->
  fill_sources None (ops (fst (layout_lines cairo g parsed_lines n cy d))) =
    fill_sources None (ops d) ++
    map source_of_color (fill_colors (m_ghost_box g) parsed_lines n (m_color d)).
Proof.
  revert cy d. induction n as [|i IH]; intros cy d Hfin Hcol Hok.
  - cbn. symmetry. apply app_nil_r.
  - destruct (layout_lines_finished_step _ _ _ _ _ _ Hfin) as [Hl E].
    rewrite E in Hfin |- *.
    pose proof (layout_line_paint cairo g i (nth i parsed_lines []) cy d Hl
                  (fun r Hr => Hcol i r (Nat.lt_succ_diag_r i) Hr) Hok) as P.
    destruct (paint_state_parts _ _ _ _ P) as (P1 & P2 & P3).
    rewrite IH; [| exact Hfin | intros i' r Hi'; apply Hcol; lia
                 | exact (paint_state_ok _ _ _ P)].
    rewrite P3, P1. cbn [fill_colors map]. now rewrite <- app_assoc.
Qed.

(** X15. In a finished layout the source in effect at the single
    cairo_fill_preserve of a line is the one set_color selects for the
    colour of the line's last run, so every run of the line is filled with
    it; for a line without runs it is the ghost-box pattern if the box is
    enabled, else the outline source left by the line drawn before (no
    source at all for the first line drawn). *)
Theorem line_filled_with_last_colour (cairo : text_backend) (g : geometry)
    (parsed_lines : list (list SubtitleText)) :
  snd (draw_subtitle cairo g parsed_lines) = true ->
  (forall i r, (i < Z.to_nat (no_of_lines g parsed_lines))%nat ->
               In r (nth i parsed_lines []) -> color r <> -500) ->
  fill_sources None (ops (fst (draw_subtitle cairo g parsed_lines))) =
    map source_of_color
      (fill_colors (m_ghost_box g) parsed_lines
         (Z.to_nat (no_of_lines g parsed_lines)) (-500)).
Proof.
  unfold draw_subtitle. intros Hfin Hcol.
  now rewrite (layout_lines_paint _ _ _ _ _ _ Hfin Hcol eq_refl).
Qed.

Lemma line_filled_with_last_colour_witness :
  fill_sources None
    (ops (fst (draw_subtitle (fixed_pitch 30) (hd_geometry false false 3)
                 (formatted_lines
                    ["<font color=#ff0000>red</font> plain";
                     "plain <font color=#00ff00>green"]%string)))) =
  [Some (cairo_set_source_rgba 0 255 0);
   Some (cairo_set_source m_default_font_color)].
Proof.
  apply (line_filled_with_last_colour (fixed_pitch 30)
           (hd_geometry false false 3)
           (formatted_lines
              ["<font color=#ff0000>red</font> plain";
               "plain <font color=#00ff00>green"]%string) eq_refl).
  intros i r Hi Hr. change (Z.to_nat _) with 2%nat in Hi.
  destruct i as [|[|i]]; [| |lia]; cbn in Hr;
    repeat (destruct Hr as [<- | Hr]; [discriminate|]); contradiction.
Defined.

(** ** The scan of a line *)

(** More fuel does not change what the scan returns. *)
Lemma parse_line_loop_more_fuel (fuel k : nat) (line : string) (st : tag_state)
    (pos old_pos : Z) (out : list SubtitleText) (r : tag_state * list SubtitleText) :
  parse_line_loop fuel line st pos old_pos out = Some r ->
  parse_line_loop (fuel + k) line st pos old_pos out = Some r.
Proof.
  revert st pos old_pos out. induction fuel as [|fuel IH];
    intros st pos old_pos out H; [discriminate H|].
  cbn [parse_line_loop Nat.add] in *.
  destruct (pos <? strlen line); [|exact H].
  destruct (m_tags_RegFind (c_str line) pos) as [pos1 m].
  destruct (pos1 <? 0); [exact H|]. now apply IH.
Qed.

(** X16. The while loop of parse_lines over a trimmed line always leaves:
    any number of iterations greater than the length of the line is
    enough, and the result does not depend on how many more are allowed,
    because every tag match consumes at least one character. *)
Theorem scan_of_a_line_terminates (st : tag_state) (raw : string) (fuel : nat) :
  (String.length (trim raw) < fuel)%nat ->
  parse_line_loop fuel (trim raw) st 0 0 [] = Some (parse_line st raw).
Proof.
  intros H.
  replace fuel with (S (String.length (trim raw)) +
                     (fuel - S (String.length (trim raw))))%nat by lia.
  apply parse_line_loop_more_fuel.
  unfold parse_line.
  destruct (parse_line_loop_total (S (String.length (trim raw))) (trim raw)
              st 0 0 []) as [r Hr]; [lia | unfold strlen; lia |].
  now rewrite Hr.
Qed.

Lemma scan_of_a_line_terminates_witness :
  parse_line_loop 100 (trim " <b>x</b> y ") initial_tag_state 0 0 [] =
    Some (parse_line initial_tag_state " <b>x</b> y ").
Proof.
  apply (scan_of_a_line_terminates initial_tag_state " <b>x</b> y " 100).
  cbn. lia.
Defined.

Lemma no_opener_no_tag (s : string) :
  no_tag_opener s = true -> m_tags_search s = None.
Proof.
  unfold no_tag_opener. induction s as [|c s IH]; [reflexivity|].
  cbn [list_ascii_of_string forallb]. intros H.
  apply andb_true_iff in H. destruct H as [Hc Hs].
  apply negb_true_iff in Hc. unfold is_tag_opener in Hc.
  apply orb_false_iff in Hc. destruct Hc as [H1 H2].
  apply Ascii.eqb_neq in H1. apply Ascii.eqb_neq in H2.
  cbn [m_tags_search].
  assert (E : m_tags_at (String c s) = None).
  { unfold m_tags_at.
    destruct c as [[] [] [] [] [] [] [] []]; try reflexivity;
      exfalso; (now apply H1) || (now apply H2). }
  rewrite E, (IH Hs). reflexivity.
Qed.

Lemma no_opener_c_str (s : string) :
  no_tag_opener s = true -> no_tag_opener (c_str s) = true.
Proof.
  unfold no_tag_opener. induction s as [|c s IH]; [reflexivity|].
  cbn [list_ascii_of_string forallb c_str]. intros H.
  apply andb_true_iff in H. destruct H as [Hc Hs].
  destruct (code c =? 0); [reflexivity|].
  cbn [list_ascii_of_string forallb]. now rewrite Hc, IH.
Qed.

Lemma firstn_string_all (s : string) : firstn_string (String.length s) s = s.
Proof. induction s as [|c s IH]; [reflexivity|]. cbn. now rewrite IH. Qed.

Lemma c_str_length (s : string) : (String.length (c_str s) <= String.length s)%nat.
Proof.
  induction s as [|c s IH]; [reflexivity|]. cbn [c_str].
  destruct (code c =? 0); cbn; lia.
Qed.

(** X17. A line that, once trimmed, holds neither [<] nor an opening brace
    parses to exactly one run holding the whole trimmed text in the
    current font and colour, or to no run if the trimmed line is empty;
    the bold, italic and colour state is unchanged. *)
Theorem line_without_tags_is_one_run (st : tag_state) (raw : string) :
  no_tag_opener (trim raw) = true ->
  strlen (trim raw) <= INT_MAX ->
  parse_line st raw =
    (st, match trim raw with
         | EmptyString => []
         | line => [mk_SubtitleText line (font_of st) (cur_color st) []]
         end).
Proof.
  intros Hno Hlen. unfold parse_line.
  set (line := trim raw) in *.
  destruct line as [|c rest] eqn:El; [reflexivity|].
  rewrite <- El in *. cbn [parse_line_loop].
  assert (Hpos : 0 < strlen line) by (rewrite El; unfold strlen; cbn; lia).
  replace (0 <? strlen line) with true by (symmetry; apply Z.ltb_lt; lia).
  assert (R : m_tags_RegFind (c_str line) 0 = (-1, EmptyString)).
  { unfold m_tags_RegFind.
    replace ((0 <? 0) || (strlen (c_str line) <? 0)) with false
      by (symmetry; apply orb_false_iff; split;
          [reflexivity | apply Z.ltb_ge; unfold strlen; lia]).
    cbn [Z.to_nat skipn_string].
    now rewrite (no_opener_no_tag _ (no_opener_c_str _ Hno)). }
  rewrite R. cbn [Z.eqb Z.ltb Z.compare app].
  unfold new_SubtitleText. do 4 f_equal. unfold substr, to_size_t.
  change (0 mod 2 ^ 32) with 0. change ((-1 - 0) mod 2 ^ 32) with (2 ^ 32 - 1).
  unfold INT_MAX in Hlen.
  rewrite Z.sub_0_r, Z.min_r by lia. cbn [Z.to_nat skipn_string].
  unfold strlen. rewrite Nat2Z.id. apply firstn_string_all.
Qed.

Lemma line_without_tags_is_one_run_witness :
  parse_line initial_tag_state "  a > b  " =
    (initial_tag_state, [mk_SubtitleText "a > b" NORMAL_FONT (-1) []]).
Proof.
  apply (line_without_tags_is_one_run initial_tag_state "  a > b  " eq_refl).
  cbn. lia.
Defined.

Lemma skipn_string_cons (n : nat) (s : string) :
  (n < String.length s)%nat ->
  exists c r, skipn_string n s = String c r.
Proof.
  revert s. induction n as [|n IH]; intros [|c s] H; cbn in H; try lia.
  - now exists c, s.
  - cbn. apply IH. lia.
Qed.

Lemma skipn_string_beyond (n : nat) (s : string) :
  (String.length s <= n)%nat -> skipn_string n s = EmptyString.
Proof.
  revert s. induction n as [|n IH]; intros [|c s] H; cbn in *;
    try reflexivity; try lia.
  apply IH. lia.
Qed.

Lemma substr_nonempty (s : string) (p n : Z) :
  0 <= p < strlen s -> strlen s <= INT_MAX ->
  1 <= to_size_t n ->
  substr s p n <> EmptyString.
Proof.
  intros Hp Hs Hn. unfold substr, INT_MAX in *.
  assert (E : to_size_t p = p) by (unfold to_size_t; apply Z.mod_small; lia).
  rewrite E.
  destruct (skipn_string_cons (Z.to_nat p) s) as (c & r & ->);
    [unfold strlen in Hp; lia|].
  destruct (Z.to_nat (Z.min (to_size_t n) (strlen s - p))) eqn:K; [lia|].
  discriminate.
Qed.

Lemma parse_line_loop_runs (fuel : nat) (line : string) (st st' : tag_state)
    (pos : Z) (out out' : list SubtitleText) :
  strlen line <= INT_MAX -> 0 <= pos ->
  (forall r, In r out -> text r <> EmptyString) ->
  parse_line_loop fuel line st pos pos out = Some (st', out') ->
  forall r, In r out' -> text r <> EmptyString.
Proof.
  intros Hlen. revert st pos out.
  induction fuel as [|fuel IH]; intros st pos out Hpos Hout H; [discriminate H|].
  cbn [parse_line_loop] in H.
  destruct (pos <? strlen line) eqn:E;
    [apply Z.ltb_lt in E | injection H as <- <-; exact Hout].
  destruct (m_tags_RegFind (c_str line) pos) as [pos1 m] eqn:R.
  assert (Hout1 : forall r,
            In r (if pos1 =? pos then out
                  else out ++ [new_SubtitleText (substr line pos (pos1 - pos))
                                 (font_of st) (cur_color st)]) ->
            text r <> EmptyString).
  { destruct (pos1 =? pos) eqn:E1; [exact Hout|]. apply Z.eqb_neq in E1.
    intros r Hr. apply in_app_or in Hr. destruct Hr as [Hr|[<-|[]]]; [now apply Hout|].
    cbn [text new_SubtitleText]. apply substr_nonempty; [lia | exact Hlen |].
    unfold to_size_t, INT_MAX in *.
    destruct (m_tags_RegFind_progress _ _ _ _ R) as [-> | [Hle _]].
    - replace ((-1 - pos) mod 2 ^ 32) with (2 ^ 32 - 1 - pos); [lia|].
      apply Z.mod_unique with (q := -1); lia.
    - assert (B : pos1 <= strlen line).
      { unfold m_tags_RegFind in R.
        destruct ((pos <? 0) || (strlen (c_str line) <? pos)) eqn:G;
          [injection R as <- _; lia|].
        destruct (m_tags_search (skipn_string (Z.to_nat pos) (c_str line)))
          as [[off len]|] eqn:S; [|injection R as <- _; lia].
        injection R as <- _.
        apply m_tags_search_at in S. rewrite skipn_string_add in S.
        destruct (m_tags_at_nonempty _ _ S) as (c & s' & Es & _).
        assert (L : (Z.to_nat pos + off < String.length (c_str line))%nat).
        { destruct (Nat.lt_ge_cases (Z.to_nat pos + off)
                      (String.length (c_str line))) as [L|L]; [exact L|].
          rewrite (skipn_string_beyond _ _ L) in Es. discriminate Es. }
        pose proof (c_str_length line). unfold strlen. lia. }
      rewrite Z.mod_small; lia. }
  destruct (pos1 <? 0) eqn:E2; [injection H as <- <-; exact Hout1|].
  apply Z.ltb_ge in E2.
  eapply IH; [|exact Hout1|exact H]. unfold strlen. lia.
Qed.

(** X18. No run produced by parse_lines has an empty text: adjacent tags,
    and tags at the start or the end of a line, produce no run. *)
Theorem runs_are_never_empty (st : tag_state) (raw : string) (r : SubtitleText) :
  strlen (trim raw) <= INT_MAX ->
  In r (snd (parse_line st raw)) ->
  text r <> EmptyString.
Proof.
  intros Hlen Hr.
  pose proof (parse_line_returns st raw) as P.
  destruct (parse_line st raw) as [st' out'].
  apply (parse_line_loop_runs _ _ _ _ _ _ _ Hlen (Z.le_refl 0)
           (fun r (H : In r []) => match H with end) P r Hr).
Qed.

Lemma runs_are_never_empty_witness :
  text (new_SubtitleText "x" BOLD_FONT (-1)) <> EmptyString.
Proof.
  apply (runs_are_never_empty initial_tag_state "<i></i><b>x</b>"
           (new_SubtitleText "x" BOLD_FONT (-1))).
  - cbn. unfold INT_MAX. lia.
  - cbn. left. reflexivity.
Defined.

(** ** The HTML colour tag *)

Lemma c_str_app (l s : string) :
  forallb (fun c => negb (code c =? 0)) (list_ascii_of_string l) = true ->
  c_str (l ++ s) = (l ++ c_str s)%string.
Proof.
  induction l as [|c l IH]; [reflexivity|].
  cbn [list_ascii_of_string forallb String.append c_str]. intros H.
  apply andb_true_iff in H. destruct H as [Hc Hl].
  apply negb_true_iff in Hc. now rewrite Hc, IH.
Qed.

Lemma class_no_nul (cls : ascii -> bool) (l : string) :
  (forall c, cls c = true -> (code c =? 0) = false) ->
  all_in_class cls l = true ->
  forallb (fun c => negb (code c =? 0)) (list_ascii_of_string l) = true.
Proof.
  intros Hcls. unfold all_in_class. induction l as [|c l IH]; [reflexivity|].
  cbn [list_ascii_of_string forallb]. intros H.
  apply andb_true_iff in H. destruct H as [Hc Hl].
  now rewrite (Hcls _ Hc), IH.
Qed.

Lemma is_blank_no_nul (c : ascii) : is_blank c = true -> (code c =? 0) = false.
Proof. unfold is_blank. lia. Qed.

Lemma is_blank_or_quote_no_nul (c : ascii) :
  is_blank_or_quote c = true -> (code c =? 0) = false.
Proof. unfold is_blank_or_quote, is_blank. lia. Qed.

Lemma skip_class_app (cls : ascii -> bool) (l s : string) :
  all_in_class cls l = true ->
  match s with String c _ => cls c = false | EmptyString => True end ->
  skip_class cls (l ++ s) = s.
Proof.
  unfold all_in_class. intros Hl Hs. induction l as [|c l IH].
  - cbn [String.append]. destruct s as [|c s]; [reflexivity|].
    cbn [skip_class]. now rewrite Hs.
  - cbn [list_ascii_of_string forallb] in Hl.
    apply andb_true_iff in Hl. destruct Hl as [Hc Hl].
    cbn [String.append skip_class]. now rewrite Hc, IH.
Qed.

Lemma lower_hex_not_quote (c : ascii) :
  is_lower_hex c = true -> is_blank_or_quote c = false.
Proof.
  intros H. apply lower_hex_code in H. unfold is_blank_or_quote, is_blank. lia.
Qed.

Lemma take_hex_six (d1 d2 d3 d4 d5 d6 : ascii) (rest : string) :
  is_lower_hex d1 = true -> is_lower_hex d2 = true ->
  is_lower_hex d3 = true -> is_lower_hex d4 = true ->
  is_lower_hex d5 = true -> is_lower_hex d6 = true ->
  take_hex 6 (String d1 (String d2 (String d3 (String d4 (String d5
                (String d6 rest)))))) =
    Some (String d1 (String d2 (String d3 (String d4 (String d5
            (String d6 EmptyString))))), rest).
Proof.
  intros H1 H2 H3 H4 H5 H6. cbn [take_hex].
  now rewrite (lower_hex_caseless _ H1), (lower_hex_caseless _ H2),
    (lower_hex_caseless _ H3), (lower_hex_caseless _ H4),
    (lower_hex_caseless _ H5), (lower_hex_caseless _ H6).
Qed.

Lemma lower_hex_not_hash (s : string) (c : ascii) (r : string) :
  s = String c r -> is_lower_hex c = true ->
  match s with String "#"%char r' => r' | _ => s end = s.
Proof.
  intros -> H. apply lower_hex_code in H.
  destruct c as [[] [] [] [] [] [] [] []]; try reflexivity;
    exfalso; cbn in H; lia.
Qed.

Lemma html_pattern_group (blanks quotes : string) (hash : bool)
    (d1 d2 d3 d4 d5 d6 : ascii) (rest : string) :
  all_in_class is_blank blanks = true ->
  all_in_class is_blank_or_quote quotes = true ->
  is_lower_hex d1 = true -> is_lower_hex d2 = true ->
  is_lower_hex d3 = true -> is_lower_hex d4 = true ->
  is_lower_hex d5 = true -> is_lower_hex d6 = true ->
  m_font_color_html_at
    ("color" ++ blanks ++ "=" ++ quotes ++ (if hash then "#" else "") ++
     String d1 (String d2 (String d3 (String d4 (String d5 (String d6 rest))))))
  = Some (String d1 (String d2 (String d3 (String d4 (String d5
            (String d6 EmptyString)))))).
Proof.
  intros Hb Hq H1 H2 H3 H4 H5 H6. unfold m_font_color_html_at.
  change (strip_literal "color" ("color" ++ ?x)) with (Some x).
  cbv beta iota.
  rewrite (skip_class_app is_blank blanks _ Hb) by reflexivity.
  cbn [String.append].
  rewrite (skip_class_app is_blank_or_quote quotes _ Hq)
    by (destruct hash; [reflexivity | now apply lower_hex_not_quote]).
  destruct hash; cbn [String.append].
  - now rewrite take_hex_six.
  - match goal with
    | |- context [take_hex 6 ?t] =>
        replace t with
          (String d1 (String d2 (String d3 (String d4 (String d5
             (String d6 rest))))))
          by (symmetry; exact (lower_hex_not_hash _ d1 _ eq_refl H1))
    end.
    now rewrite take_hex_six.
Qed.

(** X19. A tag that starts with [<font color], then any blanks or tabs,
    [=], any blanks, tabs or quote characters, an optional [#] and six
    lowercase hexadecimal digits rrggbb sets the current colour to the
    24-bit value with rr as its high byte, gg as its middle byte and bb as
    its low byte (no byte reversal, unlike the curly tag), whatever
    follows the digits; bold and italic are unchanged. *)
Theorem html_colour_tag_sets_colour (st : tag_state) (blanks quotes : string)
    (hash : bool) (r1 r2 g1 g2 b1 b2 : ascii) (tail : string) :
  all_in_class is_blank blanks = true ->
  all_in_class is_blank_or_quote quotes = true ->
  is_lower_hex r1 = true -> is_lower_hex r2 = true ->
  is_lower_hex g1 = true -> is_lower_hex g2 = true ->
  is_lower_hex b1 = true -> is_lower_hex b2 = true ->
  apply_tag st (html_color_tag blanks quotes hash r1 r2 g1 g2 b1 b2 tail) =
    mk_tag_state (bold st) (italic st)
      (byte_value r1 r2 * 65536 + byte_value g1 g2 * 256 + byte_value b1 b2).
Proof.
  intros Hb Hq H1 H2 H3 H4 H5 H6.
  set (tag := html_color_tag blanks quotes hash r1 r2 g1 g2 b1 b2 tail).
  unfold apply_tag.
  change (String.eqb tag "<b>") with false.
  change (String.eqb tag "{\b1}") with false.
  change (String.eqb tag "</b>") with false.
  change (String.eqb tag "{\b0}") with false.
  change (String.eqb tag "<i>") with false.
  change (String.eqb tag "{\i1}") with false.
  change (String.eqb tag "</i>") with false.
  change (String.eqb tag "{\i0}") with false.
  change (String.eqb tag "</font>") with false.
  change (String.eqb tag "{\c}") with false.
  cbv beta iota delta [orb andb].
  assert (P : substr tag 0 5 = "<font"%string).
  { unfold substr. change (to_size_t 0) with 0. change (to_size_t 5) with 5.
    rewrite Z.min_l
      by (subst tag; unfold html_color_tag, strlen;
          cbn [String.append String.length]; lia).
    reflexivity. }
  rewrite P. change (String.eqb "<font" "<font") with true. cbv iota.
  assert (C : c_str tag =
              ("<font color" ++ blanks ++ "=" ++ quotes ++
               (if hash then "#" else "") ++
               String r1 (String r2 (String g1 (String g2 (String b1
                 (String b2 (c_str tail)))))))%string).
  { subst tag. unfold html_color_tag.
    rewrite (c_str_app "<font color") by reflexivity. f_equal.
    rewrite (c_str_app blanks)
      by (exact (class_no_nul _ _ is_blank_no_nul Hb)). f_equal.
    rewrite (c_str_app "=") by reflexivity. f_equal.
    rewrite (c_str_app quotes)
      by (exact (class_no_nul _ _ is_blank_or_quote_no_nul Hq)). f_equal.
    rewrite (c_str_app (if hash then "#" else ""))
      by (destruct hash; reflexivity). f_equal.
    cbn [c_str].
    now rewrite (lower_hex_not_nul _ H1), (lower_hex_not_nul _ H2),
      (lower_hex_not_nul _ H3), (lower_hex_not_nul _ H4),
      (lower_hex_not_nul _ H5), (lower_hex_not_nul _ H6). }
  rewrite C. unfold m_font_color_html_RegFind.
  replace ((5 <? 0) || (strlen _ <? 5)) with false
    by (symmetry; apply orb_false_iff; split;
        [reflexivity
        | apply Z.ltb_ge; unfold strlen;
          cbn [String.append String.length]; lia]).
  change (skipn_string (Z.to_nat 5) ("<font color" ++ ?x))
    with (String " " ("color" ++ x)).
  cbn [m_font_color_html_search].
  change (m_font_color_html_at (String " " ?x)) with (@None string).
  cbv iota.
  assert (G := html_pattern_group blanks quotes hash r1 r2 g1 g2 b1 b2
                 (c_str tail) Hb Hq H1 H2 H3 H4 H5 H6).
  destruct ("color" ++ _)%string as [|c0 s0] eqn:Es; [discriminate G|].
  cbn [m_font_color_html_search]. rewrite G.
  rewrite hex2int_poly by assumption.
  f_equal. unfold byte_value. lia.
Qed.

Lemma html_colour_tag_sets_colour_witness :
  apply_tag initial_tag_state
    (html_color_tag " " "'" true "f" "f" "8" "0" "0" "0" "'>") =
    mk_tag_state false false 16744448.
Proof.
  exact (html_colour_tag_sets_colour initial_tag_state " " "'" true
           "f" "f" "8" "0" "0" "0" "'>"
           eq_refl eq_refl eq_refl eq_refl eq_refl eq_refl eq_refl eq_refl).
Defined.

(** X20. After the tag [</font>] or the curly tag with a bare [\c] the
    current colour is -1, the default, whatever it was before, and bold
    and italic are unchanged; when the colour already is -1 the tag falls
    through the rest of the chain without effect. *)
Theorem closing_colour_tag_restores_default (st : tag_state) :
  apply_tag st "</font>" = mk_tag_state (bold st) (italic st) (-1) /\
  apply_tag st "{\c}" = mk_tag_state (bold st) (italic st) (-1).
Proof.
  destruct st as [b i c]. unfold apply_tag.
  cbn [bold italic cur_color].
  split.
  - destruct (c =? -1) eqn:E; [apply Z.eqb_eq in E; subst c|]; reflexivity.
  - destruct (c =? -1) eqn:E; [apply Z.eqb_eq in E; subst c|]; reflexivity.
Qed.

(** ** Surrounding white space *)

Lemma trim_left_space (l : string) :
  all_in_class isspace l = true -> trim_left l = EmptyString.
Proof.
  unfold all_in_class. induction l as [|c l IH]; [reflexivity|].
  cbn [list_ascii_of_string forallb trim_left]. intros H.
  apply andb_true_iff in H. destruct H as [Hc Hl]. now rewrite Hc, IH.
Qed.

Lemma trim_right_space (l : string) :
  all_in_class isspace l = true -> trim_right l = EmptyString.
Proof.
  unfold all_in_class. induction l as [|c l IH]; [reflexivity|].
  cbn [list_ascii_of_string forallb trim_right]. intros H.
  apply andb_true_iff in H. destruct H as [Hc Hl]. now rewrite IH, Hc.
Qed.

Lemma trim_left_app (l s : string) :
  all_in_class isspace l = true -> trim_left (l ++ s) = trim_left s.
Proof.
  unfold all_in_class. induction l as [|c l IH]; [reflexivity|].
  cbn [list_ascii_of_string forallb String.append trim_left]. intros H.
  apply andb_true_iff in H. destruct H as [Hc Hl]. now rewrite Hc, IH.
Qed.

Lemma trim_right_app (s l : string) :
  all_in_class isspace l = true -> trim_right (s ++ l) = trim_right s.
Proof.
  intros H. induction s as [|c s IH].
  - cbn [String.append]. now rewrite trim_right_space.
  - cbn [String.append trim_right]. now rewrite IH.
Qed.

Lemma trim_app (s l : string) :
  all_in_class isspace l = true -> trim (s ++ l) = trim s.
Proof.
  intros H. unfold trim. induction s as [|c s IH].
  - cbn [String.append]. now rewrite (trim_left_space _ H).
  - cbn [String.append trim_left]. destruct (isspace c); [exact IH|].
    exact (trim_right_app (String c s) l H).
Qed.

(** X21. White space before and after a line never reaches a run: a line
    parses to the same runs and the same tag state with or without leading
    and trailing white space. *)
Theorem surrounding_space_is_ignored (st : tag_state) (lead raw trail : string) :
  all_in_class isspace lead = true ->
  all_in_class isspace trail = true ->
  parse_line st (lead ++ raw ++ trail) = parse_line st raw.
Proof.
  intros Hl Ht. unfold parse_line.
  assert (E : trim (lead ++ raw ++ trail) = trim raw).
  { unfold trim. rewrite (trim_left_app _ _ Hl). exact (trim_app raw trail Ht). }
  now rewrite E.
Qed.

Lemma surrounding_space_is_ignored_witness :
  parse_line initial_tag_state (" " ++ "<i>a b</i>" ++ "  ") =
    parse_line initial_tag_state "<i>a b</i>".
Proof.
  exact (surrounding_space_is_ignored initial_tag_state " " "<i>a b</i>" "  "
           eq_refl eq_refl).
Defined.

(** ** The colour of the source *)

Lemma land_255 (a : Z) : Z.land a 255 = a mod 256.
Proof. change 255 with (Z.ones 8). now rewrite Z.land_ones by lia. Qed.

(** X22. For a colour r * 65536 + g * 256 + b with the three channels
    between 0 and 255 that is neither 0 nor the cached m_color, set_color
    issues exactly one call, cairo_set_source_rgba with the channels r, g
    and b, and caches the colour. *)
Theorem set_color_channels (d : drawing) (r g b : Z) :
  0 <= r <= 255 -> 0 <= g <= 255 -> 0 <= b <= 255 ->
  r * 65536 + g * 256 + b <> 0 ->
  r * 65536 + g * 256 + b <> m_color d ->
  set_color (r * 65536 + g * 256 + b) d =
    mk_drawing (m_current_font d) (r * 65536 + g * 256 + b)
      (ops d ++ [cairo_set_source_rgba r g b]).
Proof.
  intros Hr Hg Hb H0 Hd. unfold set_color.
  set (c := r * 65536 + g * 256 + b) in *.
  replace (c =? m_color d) with false by (symmetry; apply Z.eqb_neq; exact Hd).
  replace (c =? -1) with false by (symmetry; apply Z.eqb_neq; subst c; lia).
  replace (c =? -2) with false by (symmetry; apply Z.eqb_neq; subst c; lia).
  replace (c =? 0) with false by (symmetry; apply Z.eqb_neq; exact H0).
  rewrite !land_255, !Z.shiftr_div_pow2 by lia.
  change (2 ^ 16) with 65536. change (2 ^ 8) with 256. change (2 ^ 0) with 1.
  assert (E1 : c / 65536 mod 256 = r)
    by (subst c; Z.div_mod_to_equations; lia).
  assert (E2 : c / 256 mod 256 = g)
    by (subst c; Z.div_mod_to_equations; lia).
  assert (E3 : c / 1 mod 256 = b)
    by (subst c; Z.div_mod_to_equations; lia).
  now rewrite E1, E2, E3.
Qed.

Lemma set_color_channels_witness :
  set_color 16744448 (mk_drawing None (-500) []) =
    mk_drawing None 16744448 [cairo_set_source_rgba 255 128 0].
Proof.
  apply (set_color_channels (mk_drawing None (-500) []) 255 128 0);
    cbn; lia.
Defined.

(** ** No layer is given a dead image *)

Lemma unprepare_layers (s : renderer) :
  subtitleLayer (unprepare s) = subtitleLayer s /\
  dvdSubLayer (unprepare s) = dvdSubLayer s.
Proof.
  unfold unprepare. destruct (m_prepared_from_image s); cbn;
    destruct (m_prepared_from_text s); split; reflexivity.
Qed.

Lemma idle_frame_live (s : renderer) :
  m_prepared_from_image s = false -> m_prepared_from_text s = false ->
  frame_live s.
Proof. intros Hi Ht. split; intros H; congruence. Qed.

Lemma unprepare_frame_live (s : renderer) : frame_live (unprepare s).
Proof.
  destruct (unprepare_flags s) as [Hi Ht]. now apply idle_frame_live.
Qed.

Lemma bitmap_frame_live (g : geometry) (w h : Z) (px : list Byte.byte)
    (s : renderer) :
  heap_ok (store s) ->
  m_prepared_from_image s = false -> m_prepared_from_text s = false ->
  frame_live (make_subtitle_image_bitmap g w h px s).
Proof.
  intros Hok Hi Ht. split; intros H.
  - rewrite bitmap_flag in H.
    destruct (bitmap_accepted g w h) eqn:A; [|congruence].
    destruct (bitmap_store g w h px s Hok A) as (data & L & P).
    exists (block_size g), data.
    rewrite P, lookup_live, L. now apply lookup_fresh.
  - rewrite bitmap_keeps_text_flag in H. congruence.
Qed.

Lemma text_frame_live (cairo : text_backend) (g : geometry)
    (parsed_lines : list (list SubtitleText)) (s : renderer) :
  heap_ok (store s) ->
  m_prepared_from_image s = false -> m_prepared_from_text s = false ->
  frame_live (make_subtitle_image_text cairo g parsed_lines s).
Proof.
  intros Hok Hi Ht.
  destruct (text_flags cairo g parsed_lines s) as [Fi Ft].
  destruct (text_store cairo g parsed_lines s Hok) as (L & _ & Sf & Cr).
  destruct (text_other_fields cairo g parsed_lines s) as (_ & _ & _ & Ci).
  split; intros H; [congruence|].
  rewrite Ft, Ht, orb_false_r in H. rewrite H in Ci.
  exists (next_handle (store s)), (m_image_width g), (m_image_height g),
    (ops (fst (draw_subtitle cairo g parsed_lines))).
  repeat split; try assumption.
  - rewrite lookup_live, L. now apply lookup_fresh.
  - rewrite lookup_live, L.
    change (live (store s) ++
            [(next_handle (store s),
              Surface (m_image_width g) (m_image_height g)
                (ops (fst (draw_subtitle cairo g parsed_lines))));
             (S (next_handle (store s)), Context (next_handle (store s)))])
      with (live (store s) ++
            [(next_handle (store s),
              Surface (m_image_width g) (m_image_height g)
                (ops (fst (draw_subtitle cairo g parsed_lines))))] ++
            (S (next_handle (store s)), Context (next_handle (store s))) :: []).
    rewrite app_assoc. apply lookup_fresh.
    apply Forall_app. split.
    + eapply Forall_impl; [|exact Hok]. cbn. intros e He. lia.
    + constructor; [cbn; lia | constructor].
Qed.

Lemma show_next_frame_live (s : renderer) : frame_live (show_next s) \/ show_next s = s.
Proof.
  unfold show_next. destruct (m_prepared_from_image s);
    [left; apply unprepare_frame_live|].
  destruct (m_prepared_from_text s); [left; apply unprepare_frame_live|].
  now right.
Qed.

Lemma show_next_layers (s : renderer) :
  frame_live s ->
  shows_surfaces (subtitleLayer s) -> shows_buffers (dvdSubLayer s) ->
  shows_surfaces (subtitleLayer (show_next s)) /\
  shows_buffers (dvdSubLayer (show_next s)).
Proof.
  intros [Li Lt] Hs Hd. unfold show_next.
  destruct (m_prepared_from_image s) eqn:Fi.
  - destruct (Li eq_refl) as (size & data & E).
    match goal with |- context [unprepare ?x] =>
      destruct (unprepare_layers x) as [-> ->] end.
    cbn [subtitleLayer dvdSubLayer]. split.
    + apply Forall_app. split; [exact Hs|]. now repeat constructor.
    + apply Forall_app. split; [exact Hd|]. rewrite E. now repeat constructor.
  - destruct (m_prepared_from_text s) eqn:Ft; [|now split].
    destruct (Lt eq_refl) as (n & w & h & drawn & Ci & _ & _ & E & _).
    match goal with |- context [unprepare ?x] =>
      destruct (unprepare_layers x) as [-> ->] end.
    cbn [subtitleLayer dvdSubLayer]. split.
    + apply Forall_app. split; [exact Hs|]. rewrite Ci, E. now repeat constructor.
    + apply Forall_app. split; [exact Hd|]. now repeat constructor.
Qed.

Lemma reachable_frame_live (cairo : text_backend) (g : geometry) (s : renderer) :
  reachable cairo g s ->
  frame_live s /\
  shows_surfaces (subtitleLayer s) /\ shows_buffers (dvdSubLayer s).
Proof.
  induction 1 as [|s c R (L & Hs & Hd)].
  - split; [now apply idle_frame_live|]. split; constructor.
  - pose proof (reachable_heap_ok cairo g s R) as Hok.
    destruct (unprepare_flags s) as [Ui Ut].
    destruct (unprepare_layers s) as [Us Ud].
    pose proof (unprepare_heap_ok s Hok) as Uok.
    destruct c as [sub|lines| | |]; cbn [step].
    + unfold prepare. destruct (isImage sub).
      * split; [now apply bitmap_frame_live|].
        destruct (bitmap_keeps_layers g (width sub) (height sub)
                    (image_data sub) (unprepare s)) as [-> ->].
        now rewrite Us, Ud.
      * unfold parse_lines.
        split; [now apply text_frame_live|].
        destruct (text_other_fields cairo g (formatted_lines (text_lines sub))
                    (unprepare s)) as (-> & -> & _).
        now rewrite Us, Ud.
    + unfold prepare_lines, parse_lines.
      split; [now apply text_frame_live|].
      destruct (text_other_fields cairo g (formatted_lines lines)
                  (unprepare s)) as (-> & -> & _).
      now rewrite Us, Ud.
    + split; [|now apply show_next_layers].
      destruct (show_next_frame_live s) as [F | ->]; assumption.
    + split; [exact L|]. unfold hide. cbn [subtitleLayer dvdSubLayer].
      split; apply Forall_app; (split; [assumption|]); now repeat constructor.
    + split; [apply unprepare_frame_live|]. now rewrite Us, Ud.
Qed.

(** X23. After any sequence of prepare, show_next, hide and unprepare
    calls on a fresh renderer, a set flag always comes with live memory
    (the block of a bitmap frame, the surface and the context of a text
    frame), the text layer has only ever been given the data of a surface
    that was live at that moment, and the DVD layer only a block that was
    live at that moment: no layer is given freed or never allocated
    memory. *)
Theorem layers_get_live_images (cairo : text_backend) (g : geometry)
    (calls : list call) :
  frame_live (run cairo g calls) /\
  shows_surfaces (subtitleLayer (run cairo g calls)) /\
  shows_buffers (dvdSubLayer (run cairo g calls)).
Proof. exact (reachable_frame_live cairo g _ (run_reachable cairo g calls)). Qed.
